(** * Hernquist halo sampler (halo.py): a shallow embedding and its properties

    The development follows the layout of [halo.py]:

    - scalars: the arithmetic NumPy performs on array elements, as a class
      with two instances, IEEE binary64 ([float], what the program runs on)
      and the real numbers ([R], what its formulas mean);
    - NumPy arrays as lists, passed by reference through a heap when a
      callee writes into its argument;
    - the interpreter state (heap, random generator, standard output) and a
      state-and-exception monad over it;
    - [rejection_sample], the class [Hernquist] and its methods, in source
      order. *)

From Stdlib Require Import Floats ZArith QArith Reals Lra Lia Psatz Factorial RNsatz.
From stdpp Require Import base option list gmap strings.

Set Warnings "-inexact-float,-abstract-large-number".

(** ** Scalars *)

(** The element type of an array.  [lit] reads a Python numeric literal,
    written here as the rational it denotes. *)
Class Scalar (F : Type) := {
  lit : Q -> F;
  fadd : F -> F -> F;
  fsub : F -> F -> F;
  fmul : F -> F -> F;
  fdiv : F -> F -> F;
  fneg : F -> F;
  fsqrt : F -> F;
  fabs : F -> F;
  fltb : F -> F -> bool;
  fleb : F -> F -> bool;
  fisnan : F -> bool
}.

(** What the program takes from the C mathematical library (through NumPy
    and through Python's [**]), and the constant [np.pi]. *)
Class Libm (F : Type) := {
  np_pi : F;
  np_arcsin : F -> F;
  np_arccos : F -> F;
  np_log : F -> F;
  np_power : F -> F -> F
}.

(** The trigonometric functions the position and velocity samplers take
    from NumPy. *)
Class Trig (F : Type) := {
  np_sin : F -> F;
  np_cos : F -> F
}.

Declare Scope scalar_scope.
Delimit Scope scalar_scope with S.
Infix "+" := fadd : scalar_scope.
Infix "-" := fsub : scalar_scope.
Infix "*" := fmul : scalar_scope.
Infix "/" := fdiv : scalar_scope.
Infix "**" := np_power (at level 30, right associativity) : scalar_scope.
Notation "- x" := (fneg x) : scalar_scope.
Notation "x <? y" := (fltb x y) : scalar_scope.
Notation "x >? y" := (fltb y x) : scalar_scope.
Notation "x <=? y" := (fleb x y) : scalar_scope.

(** *** Binary64 *)

(** A Python decimal literal, given as the rational it denotes, rounded to
    the nearest binary64 value (ties to even), for values in the normal
    range: the 53-bit significand [m'] and the exponent [e] are computed
    over [Z], then assembled exactly. *)
Definition float_of_Q (q : Q) : float :=
  let n := Z.abs (Qnum q) in
  let d := Zpos (Qden q) in
  if (n =? 0)%Z then 0%float else
  let e0 := (Z.log2 n - Z.log2 d - 52)%Z in
  let quot e := if (0 <=? e)%Z then (n / (d * 2 ^ e))%Z else ((n * 2 ^ (- e)) / d)%Z in
  let e := if (quot e0 <? 2 ^ 52)%Z then (e0 - 1)%Z else e0 in
  let num := if (0 <=? e)%Z then n else (n * 2 ^ (- e))%Z in
  let den := if (0 <=? e)%Z then (d * 2 ^ e)%Z else d in
  let m := (num / den)%Z in
  let r := (num mod den)%Z in
  let m' := if (den <? 2 * r)%Z || ((den =? 2 * r)%Z && Z.odd m) then (m + 1)%Z else m in
  let f := Z.ldexp (PrimFloat.of_uint63 (Uint63.of_Z m')) e in
  if (Qnum q <? 0)%Z then PrimFloat.opp f else f.

#[export] Instance float_scalar : Scalar float := {|
  lit := float_of_Q;
  fadd := PrimFloat.add;
  fsub := PrimFloat.sub;
  fmul := PrimFloat.mul;
  fdiv := PrimFloat.div;
  fneg := PrimFloat.opp;
  fsqrt := PrimFloat.sqrt;
  fabs := PrimFloat.abs;
  fltb := PrimFloat.ltb;
  fleb := PrimFloat.leb;
  fisnan := PrimFloat.is_nan
|}.

(** *** Real numbers *)

Definition Rltb (x y : R) : bool := if Rlt_dec x y then true else false.
Definition Rleb (x y : R) : bool := if Rle_dec x y then true else false.

#[export] Instance R_scalar : Scalar R := {|
  lit := Q2R;
  fadd := Rplus;
  fsub := Rminus;
  fmul := Rmult;
  fdiv := Rdiv;
  fneg := Ropp;
  fsqrt := sqrt;
  fabs := Rabs;
  fltb := Rltb;
  fleb := Rleb;
  fisnan := fun _ => false
|}.

(** The real functions the library functions approximate.  [Rpower x y] is
    [exp (y * ln x)]: it is the power [x ** y] for a positive base [x]
    only (for [x <= 0] it is positive all the same, where Python has
    [0 ** -2.5] infinite and [(-2) ** 3 = -8]), so statements over the
    reals keep the base of every power positive. *)
#[export] Instance R_libm : Libm R := {|
  np_pi := PI;
  np_arcsin := asin;
  np_arccos := acos;
  np_log := ln;
  np_power := Rpower
|}.

#[export] Instance R_trig : Trig R := {|
  np_sin := sin;
  np_cos := cos
|}.

(** ** Exceptions and outcomes *)

(** The Python exceptions the modelled code can raise. *)
Inductive exn :=
| TypeError (msg : string)
| NameError (name : string)
| ValueError (msg : string)
| AttributeError (name : string)
| IndexError.

(** The outcome of running a piece of code that may loop: [OutOfFuel] is a
    run cut off by the model's iteration budget, not a Python result. *)
Inductive outcome (A : Type) :=
| Returns (a : A)
| Raises (e : exn)
| OutOfFuel.

Arguments Returns {A} a.
Arguments Raises {A} e.
Arguments OutOfFuel {A}.

(** ** NumPy on one-dimensional arrays *)

Section NumPy.
Context {F : Type} `{!Scalar F}.

(** [np.where(mask)[0]]: the indices at which the mask holds, ascending. *)
Fixpoint where_from (i : nat) (mask : list bool) : list nat :=
  match mask with
  | [] => []
  | b :: rest => if b then i :: where_from (S i) rest else where_from (S i) rest
  end.

Definition np_where (mask : list bool) : list nat := where_from 0 mask.

(** [np.any(mask)]. *)
Definition np_any (mask : list bool) : bool := existsb (fun b => b) mask.

(** [np.maximum]: the first operand when it is the larger or is NaN. *)
Definition np_maximum (a b : F) : F :=
  if (b <=? a)%S || fisnan a then a else b.

(** [np.fmax]: as [np.maximum], but a NaN second operand is ignored. *)
Definition np_fmax (a b : F) : F :=
  if (b <=? a)%S || fisnan b then a else b.

(** [np.max(a)]: NaN if any element is; [ValueError] on an empty array. *)
Definition np_max (a : list F) : option F :=
  match a with
  | [] => None
  | x :: rest => Some (fold_left np_maximum rest x)
  end.

(** [np.nanmax(a)]: the maximum over the elements that are not NaN. *)
Definition np_nanmax (a : list F) : option F :=
  match a with
  | [] => None
  | x :: rest => Some (fold_left np_fmax rest x)
  end.

(** Elementwise comparison [a < b] of two arrays with NumPy's broadcasting
    of a length-one operand; other length mismatches are a [ValueError]. *)
Definition np_less (a b : list F) : option (list bool) :=
  if decide (length a = length b) then Some (zip_with fltb a b)
  else match a, b with
       | [x], _ => Some (map (fun y => (x <? y)%S) b)
       | _, [y] => Some (map (fun x => (x <? y)%S) a)
       | _, _ => None
       end.

(** [x[keys] = v]: scalar assignment at an index array. *)
Definition assign_at (keys : list nat) (v : F) (x : list F) : list F :=
  fold_left (fun acc k => <[k := v]> acc) keys x.

(** [x[keys]]: fancy indexing (indices here always come from [np.where]). *)
Definition take_at (keys : list nat) (x : list F) : list F :=
  omap (fun k => x !! k) keys.

(** [x[keys] = vals]: assignment of an array of values at an index array
    of the same length. *)
Definition assign_array_at (keys : list nat) (vals x : list F) : list F :=
  fold_left (fun acc kv => <[kv.1 := kv.2]> acc) (zip keys vals) x.

(** [bool(mask)] of an array, as the [if] statement and the operator [and]
    take it: the element of a one-element array, [ValueError] for a longer
    one.  An empty array is false (NumPy before 2.2, which only warned). *)
Definition array_bool (mask : list bool) : outcome bool :=
  match mask with
  | [] => Returns false
  | [b] => Returns b
  | _ => Raises (ValueError "The truth value of an array with more than one element is ambiguous")
  end.

(** What can stand in the [out] position of a ufunc call. *)
Inductive ufunc_out :=
| OutNone
| OutArray (o : list F)
| OutScalar (x : F).

(** [np.multiply(x1, x2, out)] with [out] given positionally: NumPy accepts
    only an array (or [None]) there and refuses anything else before it
    computes. *)
Definition np_multiply_out (x1 x2 : list F) (out : ufunc_out) : outcome (list F) :=
  match out with
  | OutNone => Returns (zip_with fmul x1 x2)
  | OutArray o =>
      if decide (length o = length x1) then Returns (zip_with fmul x1 x2)
      else Raises (ValueError "non-broadcastable output operand")
  | OutScalar _ => Raises (TypeError "return arrays must be of ArrayType")
  end.

(** [np.linspace(start, stop, num)], as NumPy computes it: multiples of the
    step added to [start], and the last element set to [stop]. *)
Definition np_linspace (start stop : F) (num : nat) : list F :=
  let div := lit (inject_Z (Z.of_nat (num - 1))) in
  let delta := (stop - start)%S in
  let step := (delta / div)%S in
  let idx := map (fun i => lit (inject_Z (Z.of_nat i))) (seq 0 num) in
  let step_zero := negb (step <? lit 0)%S && negb (lit 0 <? step)%S && negb (fisnan step) in
  let y := if step_zero then map (fun i => (i / div * delta)%S) idx
           else map (fun i => (i * step)%S) idx in
  let y := map (fun v => (v + start)%S) y in
  if decide (1 < num)%nat then <[num - 1 := stop]> y else y.

End NumPy.

(** ** The interpreter state *)

Definition loc := nat.

Section World.
Context {F : Type} `{!Scalar F}.

(** One argument of a [print] call. *)
Inductive printable :=
| PStr (s : string)
| PNum (x : F)
| PArr (xs : list F)
| PShape (dims : list nat).

(** The heap holds the arrays that are reachable from more than one place;
    [rng_stream] is the sequence of uniform variates in \[0,1) the global
    generator will hand out and [rng_pos] how many it already has;
    [stdout] lists the printed lines, oldest first. *)
Record world := mkWorld {
  heap : gmap loc (list F);
  rng_stream : nat -> F;
  rng_pos : nat;
  stdout : list (list printable)
}.

Definition Py (A : Type) : Type := world -> outcome (A * world).

Definition ret {A} (a : A) : Py A := fun w => Returns (a, w).

Definition bind {A B} (m : Py A) (k : A -> Py B) : Py B :=
  fun w => match m w with
           | Returns (a, w') => k a w'
           | Raises e => Raises e
           | OutOfFuel => OutOfFuel
           end.

Definition raise {A} (e : exn) : Py A := fun _ => Raises e.

Definition out_of_fuel {A} : Py A := fun _ => OutOfFuel.

(** A new array object. *)
Definition alloc (v : list F) : Py loc :=
  fun w => let l := fresh (dom (heap w)) in
           Returns (l, mkWorld (<[l := v]> (heap w)) (rng_stream w) (rng_pos w) (stdout w)).

(** The contents of an array object. *)
Definition load (l : loc) : Py (list F) :=
  fun w => Returns (default [] (heap w !! l), w).

(** Overwrite the contents of an array object in place. *)
Definition store (l : loc) (v : list F) : Py unit :=
  fun w => Returns (tt, mkWorld (<[l := v]> (heap w)) (rng_stream w) (rng_pos w) (stdout w)).

(** [print(...)]. *)
Definition print (line : list printable) : Py unit :=
  fun w => Returns (tt, mkWorld (heap w) (rng_stream w) (rng_pos w) (stdout w ++ [line])).

(** [np.random.rand(n)]: the next [n] variates of the global generator. *)
Definition np_random_rand (n : nat) : Py (list F) :=
  fun w => Returns (map (rng_stream w) (seq (rng_pos w) n),
                    mkWorld (heap w) (rng_stream w) (rng_pos w + n) (stdout w)).

(** An optional value, raising [e] when it is absent. *)
Definition or_raise {A} (e : exn) (o : option A) : Py A :=
  match o with Some a => ret a | None => raise e end.

End World.

Arguments printable F : clear implicits.
Arguments world F : clear implicits.
Arguments Py F A : clear implicits.

#[export] Instance Py_ret {F} : MRet (Py F) := fun A => @ret F A.
#[export] Instance Py_bind {F} : MBind (Py F) := fun A B k m => @bind F A B m k.

(** ** [rejection_sample] (halo.py, lines 12-39) *)

Section RejectionSample.
Context {F : Type} `{!Scalar F}.

(** The [dtype] keyword of [rejection_sample]. *)
Inductive dtype := np_float64 | np_longdouble.

(** How one pass through the body of [while True] ends: [continue] after
    raising the bound, [break] with a sample, or the end of the body with
    nothing accepted. *)
Inductive round_end :=
| Escalated (maxval' : F)
| Accepted (sample : F)
| Rejected.

(** Lines 21-25: draw ten candidates and ten thresholds and scale them.
    The candidate array is an object of its own (the target receives it by
    reference); the thresholds never leave the function. *)
Definition draw_candidates (xwidth maxval : F) : Py F (loc * list F) :=
  x ← np_random_rand 10 ≫= alloc;
  y ← np_random_rand 10;
  xs ← load x;
  store x (map (fun v => v * xwidth)%S xs);;
  let y := map (fun v => v * maxval)%S y in
  mret (x, y).

(** Lines 21-27: the draws, then the call of the target on the candidate
    array.  Returns the candidate array, the thresholds and the target
    values. *)
Definition draw_and_evaluate {A} (fn : loc -> A -> Py F (list F)) (fn_args : A)
    (xwidth maxval : F) : Py F (loc * list F * list F) :=
  '(x, y) ← draw_candidates xwidth maxval;
  fn_eval ← fn x fn_args;
  mret (x, y, fn_eval).

(** [np.any(fn_eval > maxval)] (line 29). *)
Definition bound_violated (fn_eval : list F) (maxval : F) : bool :=
  np_any (map (fun v => v >? maxval)%S fn_eval).

(** Lines 29-37, after the evaluation. *)
Definition decide_round (x : loc) (y fn_eval : list F) (maxval : F) : Py F round_end :=
  if bound_violated fn_eval maxval then
    m ← or_raise (ValueError "zero-size array to reduction operation") (np_max fn_eval);
    print [PStr "maxval exceeded. maxval="; PNum maxval; PStr "max of fn_eval="; PNum m];;
    mret (Escalated (lit 1.5 * m)%S)
  else
    mask ← or_raise (ValueError "operands could not be broadcast together") (np_less y fn_eval);
    match np_where mask with
    | k :: _ => xs ← load x; s ← or_raise IndexError (xs !! k); mret (Accepted s)
    | [] => mret Rejected
    end.

(** One iteration of the loop. *)
Definition rejection_round {A} (fn : loc -> A -> Py F (list F)) (fn_args : A)
    (xwidth maxval : F) : Py F round_end :=
  '(x, y, fn_eval) ← draw_and_evaluate fn fn_args xwidth maxval;
  decide_round x y fn_eval maxval.

(** [while True:], cut off after [fuel] iterations. *)
Fixpoint rejection_loop {A} (fuel : nat) (fn : loc -> A -> Py F (list F)) (fn_args : A)
    (xwidth maxval : F) : Py F F :=
  match fuel with
  | O => out_of_fuel
  | S fuel' =>
      r ← rejection_round fn fn_args xwidth maxval;
      match r with
      | Escalated maxval' => rejection_loop fuel' fn fn_args xwidth maxval'
      | Accepted sample => mret sample
      | Rejected => rejection_loop fuel' fn fn_args xwidth maxval
      end
  end.

(** [np.copy] of a Python number. *)
Definition np_copy (N : Z) : Z := N.

(** [rejection_sample(fn, maxval, N, xrng, overshoot, dtype, fn_args)].
    [xrng] is the two-element list [[lo, hi]]. *)
Definition rejection_sample {A} (fuel : nat) (fn : loc -> A -> Py F (list F)) (maxval : F)
    (N : Z) (xrng : F * F) (overshoot : F) (dt : dtype) (fn_args : A) : Py F F :=
  let xwidth := (snd xrng - fst xrng)%S in
  let xstart := fst xrng in
  let sample_list : list F := [] in
  let N_needed := np_copy N in
  rejection_loop fuel fn fn_args xwidth maxval.

End RejectionSample.

Arguments round_end F : clear implicits.

(** ** The jitted kernel [_f_of_q] (lines 41-63) *)

Section Kernel.
Context {F : Type} `{!Scalar F} `{!Libm F}.

(** [np.logspace(start, stop, num)]: ten to the power of a linear grid. *)
Definition np_logspace (start stop : F) (num : nat) : list F :=
  map (fun y => lit 10 ** y)%S (np_linspace start stop num).

(** Equation 17 of Hernquist 1990 on one array element; the source applies
    it to whole arrays through NumPy's elementwise operations. *)
Definition _f_of_q (q f_prefactor : F) : F :=
  let qsquared := (q * q)%S in
  let oneminusqsquared := (lit 1 - qsquared)%S in
  let term1 := (lit 3 * np_arcsin q)%S in
  let term2 := (lit 8 * (qsquared * qsquared - qsquared))%S in
  let term2 := (term2 - lit 3)%S in
  let term2 := (fsqrt oneminusqsquared * term2)%S in
  let term2 := (q * term2)%S in
  let term2 := ((oneminusqsquared - qsquared) * term2)%S in
  let term1 := (term1 + term2)%S in
  let term1 := (term1 * oneminusqsquared ** (lit (-5) / lit 2))%S in
  let ans := (term1 * f_prefactor)%S in
  ans.

End Kernel.

(** ** The class [Hernquist] (lines 65-382) *)

Module Hernquist.

Section Class.
Context {F : Type} `{!Scalar F} `{!Libm F}.

(** The numeric attributes of an instance.  [_r_list_] and
    [_maxval_list_] are the envelope table.  The attribute
    [_maxval_interp_], a callable that only line 98 sets, is not a field:
    the methods that read it take its state as an argument. *)
Record t := mk {
  UnitLength_in_cm : F;
  UnitMass_in_g : F;
  UnitVelocity_in_cm_per_s : F;
  _SEC_PER_GIGAYEAR_ : F;
  _SEC_PER_MEGAYEAR_ : F;
  _SEC_PER_YEAR_ : F;
  UnitTime_in_s : F;
  UnitTime_in_Megayears : F;
  _GRAVITY_ : F;
  G : F;
  M : F;
  a : F;
  density_prefactor : F;
  vg : F;
  f_prefactor : F;
  g_prefactor : F;
  phi_of_0 : F;
  _r_list_ : list F;
  _maxval_list_ : list F
}.

(** Default values of the unit arguments of [__init__]. *)
Definition default_UnitLength_in_cm : F := lit 3.085678e21.
Definition default_UnitMass_in_g : F := lit 1.989e43.
Definition default_UnitVelocity_in_cm_per_s : F := lit 1e5.

(** A value of the global namespace of the module [halo]. *)
Inductive pyobj :=
| PyModule (name : string)
| PyCallable (name : string)
| PyBool (b : bool)
| PyInstance (self : t).

(** The global names bound once [halo.py] has been imported: its imports,
    the flag [HAVE_AREPO] (and the module [arepo] when it is installed) and
    its three top-level definitions. *)
Definition module_globals (have_arepo : bool) : gmap string pyobj :=
  list_to_map ([
    ("np", PyModule "numpy");
    ("interp1d", PyCallable "scipy.interpolate.interp1d");
    ("njit", PyCallable "numba.njit");
    ("tqdm", PyCallable "tqdm.tqdm");
    ("HAVE_AREPO", PyBool have_arepo);
    ("rejection_sample", PyCallable "rejection_sample");
    ("_f_of_q", PyCallable "_f_of_q");
    ("Hernquist", PyCallable "Hernquist")
  ] ++ (if have_arepo then [("arepo", PyModule "arepo")] else [])).

(** *** Profile functions (lines 118-133) *)

Definition density (self : t) (r : F) : F :=
  let rt := (r / a self)%S in
  let ans := (rt ** lit (-1) * (rt + lit 1) ** lit (-3))%S in
  let ans := (ans * density_prefactor self)%S in
  ans.

Definition potential (self : t) (r : F) : F :=
  let ans := (r + a self)%S in
  let ans := ((- G self) * M self / ans)%S in
  ans.

(** [mass_enclosed]: the third positional argument of [np.multiply] is its
    output operand, here the float [-2.]. *)
Definition mass_enclosed (self : t) (r : list F) : outcome (list F) :=
  let rt := map (fun x => x / a self)%S r in
  match np_multiply_out (map (fun x => x ** lit 2)%S rt)
                        (map (fun x => x + lit 1)%S rt)
                        (OutScalar (lit (-2))) with
  | Returns ans =>
      let ans := map (fun x => x * M self)%S ans in
      Returns ans
  | Raises e => Raises e
  | OutOfFuel => OutOfFuel
  end.

(** *** The distribution function (lines 135-163) *)

Definition _f_of_q_close_to_1_ (self : t) (q : F) : F :=
  let prefactor :=
    (lit 3 * M self / (lit 16 * fsqrt (lit 2) * np_pi ** lit 2 * a self ** lit 3 * vg self ** lit 3))%S in
  let a := ((lit 1 - q * q) ** (lit 5 / lit 2))%S in
  let ans := (lit 32 / (lit 5 * np_pi) * a)%S in
  let ans := (lit 1 - ans)%S in
  let ans := (ans / a)%S in
  (ans * prefactor)%S.

Definition f_of_q (self : t) (q : F) : F := _f_of_q q (f_prefactor self).

Definition E_of_q (self : t) (q : F) : F := (phi_of_0 self * (q * q))%S.

Definition q_of_E (self : t) (E : F) : F := fsqrt (E / phi_of_0 self)%S.

(** [f_of_E(E)]: [E] is the caller's array, received by reference and
    written to in place ([E[keys] = -1e-8]). *)
Definition f_of_E (self : t) (E : loc) : Py F (list F) :=
  Es ← load E;
  let keys := np_where (map (fun e => (lit 0 <? e)%S && (e <? lit 1e-8)%S) Es) in
  let keys_ := np_where (map (fun e => (e >? lit 1e-2)%S) Es) in
  (if decide (0 < length keys_)%nat
   then print [PStr "E > 1e-2:"; PArr (take_at keys_ Es)]
   else mret tt);;
  store E (assign_at keys (lit (-1e-8)) Es);;
  Es ← load E;
  let q := map (q_of_E self) Es in
  mret (map (f_of_q self) q).

(** [f_of_vr(v, r)]: the energies are a new array, handed to [f_of_E]. *)
Definition f_of_vr (self : t) (v : loc) (r : F) : Py F (list F) :=
  let pot := potential self r in
  vs ← load v;
  let kin := map (fun x => lit 0.5 * (x * x))%S vs in
  E ← alloc (map (fun k => pot + k)%S kin);
  f_of_E self E.

Definition my_f_of_vr (self : t) (v : loc) (r : F) : Py F (list F) :=
  f ← f_of_vr self v r;
  vs ← load v;
  mret (zip_with fmul f (map (fun x => x * x)%S vs)).

(** *** The differential mass function (lines 165-217) *)

(** Equation 23 of Hernquist 1990; the [out=] operands of the source are
    arrays the function itself created. *)
Definition g_of_q (self : t) (q : F) : F :=
  let qsquared := (q * q)%S in
  let term1 := (lit 8 * (qsquared * qsquared))%S in
  let term1 := (term1 - lit 4 * qsquared)%S in
  let term1 := (term1 + lit 1)%S in
  let term1 := (term1 * np_arccos q)%S in
  let term1 := (term1 * lit 3)%S in
  let term2 := fsqrt (lit 1 - qsquared)%S in
  let term2 := (term2 * (lit 4 * qsquared - lit 1))%S in
  let term2 := (term2 * (lit 2 * qsquared + lit 3))%S in
  let term2 := (term2 * q)%S in
  let term1 := (term1 - term2)%S in
  let term1 := (term1 * q ** lit (-5))%S in
  (term1 * g_prefactor self)%S.

Definition _dMdE_close_to_1_ (self : t) (q : F) : F :=
  let prefactor := (lit 0.5 * (lit 32 / lit 35) * (M self / vg self ** lit 2))%S in
  (prefactor * (lit 1 - q * q))%S.

Definition _dMdE_close_to_0_ (self : t) (q : F) : F :=
  let prefactor := (lit 16 / lit 5 * (M self / vg self ** lit 2))%S in
  let ans := (lit 18 / lit 7 * (q * q))%S in
  let ans := (lit 1 - ans)%S in
  (prefactor * ans)%S.

(** [dMdE(E, convert_to_q)].  The conversion to [np.longdouble] before the
    first comparison widens exactly, so the comparison is the one on the
    array's own values. *)
Definition dMdE (self : t) (E : list F) (convert_to_q : bool) : list F :=
  let q := if convert_to_q then map (q_of_E self) E else E in
  let ans := zip_with fmul (map (f_of_q self) q) (map (g_of_q self) q) in
  let keys := np_where (map (fun x => (lit 1 - x <? lit 1e-4)%S) q) in
  let ans := assign_array_at keys (map (_dMdE_close_to_1_ self) (take_at keys q)) ans in
  let keys := np_where (map (fun x => (x <? lit 1e-3)%S) q) in
  let ans := assign_array_at keys (map (_dMdE_close_to_0_ self) (take_at keys q)) ans in
  ans.

(** *** Velocity dispersion (lines 251-284) *)

(** One pass of [for i in keys:] (lines 271-273), where [i] is an index
    array: the chained comparison takes the truth value of each of its two
    arrays in turn. *)
Definition nan_guard (rt : list F) (i : list nat) (ans1 : list F) : outcome (list F) :=
  let rti := take_at i rt in
  match array_bool (map (fun x => (lit 0 <=? x)%S) rti) with
  | Returns true =>
      match array_bool (map (fun x => (x <? lit 1e-12)%S) rti) with
      | Returns true => Returns (assign_at i (lit 0) ans1)
      | Returns false => Returns ans1
      | Raises e => Raises e
      | OutOfFuel => OutOfFuel
      end
  | Returns false => Returns ans1
  | Raises e => Raises e
  | OutOfFuel => OutOfFuel
  end.

(** The closed form of lines 252-267, on one element. *)
Definition sigmasq_closed_form (self : t) (rt : F) : F :=
  let prefactor := (G self * M self / (lit 12 * a self))%S in
  let oneplusrt := (lit 1 + rt)%S in
  let ans1 := np_log (lit 1 + lit 1 / rt)%S in
  let ans1 := (ans1 * oneplusrt ** lit 3)%S in
  let ans1 := (ans1 * (lit 12 * rt))%S in
  let ans2 := (lit 25 + lit 52 * rt)%S in
  let ans2 := (ans2 + lit 42 * (rt * rt))%S in
  let ans2 := (ans2 + lit 12 * rt ** lit 3)%S in
  let ans2 := (ans2 * (rt / oneplusrt))%S in
  (prefactor * (ans1 - ans2))%S.

(** [_sigmasq_(r)].  [np.where(np.isnan(ans1))] is kept as the tuple it is:
    for a one-dimensional [r] it has one component, the array of all
    indices at which [ans1] is NaN, and the loop runs once, over it. *)
Definition _sigmasq_ (self : t) (r : list F) : outcome (list F) :=
  let rt := map (fun x => x / a self)%S r in
  let ans1 := map (sigmasq_closed_form self) rt in
  let keys := [np_where (map fisnan ans1)] in
  let guarded :=
    fold_left (fun acc i => match acc with
                            | Returns ans1 => nan_guard rt i ans1
                            | other => other
                            end) keys (Returns ans1) in
  match guarded with
  | Returns ans1 =>
      let keys := np_where (map (fun x => (x >? lit 300)%S) rt) in
      let r_gtr := map (fun x => x * a self)%S (take_at keys rt) in
      Returns (assign_array_at keys (map (fun x => G self * M self / lit 5 / x)%S r_gtr) ans1)
  | other => other
  end.

Definition _vesc_sq_ (self : t) (r : F) : F :=
  let ans := (lit 2 * G self * M self)%S in
  (ans / (r + a self))%S.

(** *** Sampling (lines 286-294) *)

(** A [for] loop that collects one result per element. *)
Fixpoint for_each {A B} (xs : list A) (body : A -> Py F B) : Py F (list B) :=
  match xs with
  | [] => mret []
  | x :: rest => y ← body x; ys ← for_each rest body; mret (y :: ys)
  end.

(** [draw_energies(r)]; every call of [rejection_sample] gets [fuel]
    iterations.  [pot_list] is passed to [f_of_E] by reference and read
    again by the loop. *)
Definition draw_energies (fuel : nat) (self : t) (r : list F) : Py F (list F) :=
  pot_list ← alloc (map (potential self) r);
  maxval_list ← f_of_E self pot_list;
  pots ← load pot_list;
  for_each (zip pots maxval_list) (fun pm =>
    let '(pot, maxval) := pm in
    rejection_sample fuel (fun x (_ : unit) => f_of_E self x) maxval 1
                     (pot, lit 0) (lit 2) np_longdouble tt).

(** *** Positions (lines 225-249) *)

(** [draw_radii(N)]: [N] variates [f], each turned into the radius
    [a sqrt(f) / (1 - sqrt(f))]. *)
Definition draw_radii (self : t) (N : nat) : Py F (list F) :=
  f ← np_random_rand N;
  let sqrtf := map fsqrt f in
  let rt := map (fun s => s / (lit 1 - s))%S sqrtf in
  mret (map (fun x => x * a self)%S rt).

(** [np.transpose([x, y, z])] for three arrays of one length: one row per
    index. *)
Definition np_transpose3 (x y z : list F) : list (F * F * F) := zip (zip x y) z.

(** [np.linalg.norm(pos, axis=1)]: the square root of the sum of the
    squares of each row. *)
Definition np_linalg_norm (pos : list (F * F * F)) : list F :=
  map (fun p => let '(x, y, z) := p in fsqrt (x * x + y * y + z * z)%S) pos.

Section Positions.
Context `{!Trig F}.

(** [draw_coordinates(N)]: the radii, then [N] variates for the polar
    angle and [N] for the azimuth. *)
Definition draw_coordinates (self : t) (N : nat) : Py F (list (F * F * F)) :=
  r ← draw_radii self N;
  u ← np_random_rand N;
  let theta := map (fun u => np_arccos (lit 1 - lit 2 * u))%S u in
  v ← np_random_rand N;
  let phi := map (fun v => v * (lit 2 * np_pi))%S v in
  let stheta := map np_sin theta in
  let x := zip_with fmul (zip_with fmul r stheta) (map np_cos phi) in
  let y := zip_with fmul (zip_with fmul r stheta) (map np_sin phi) in
  let z := zip_with fmul r (map np_cos theta) in
  mret (np_transpose3 x y z).

End Positions.

(** *** Speeds and velocities (lines 296-319 and 351-368) *)

(** [_to_loop_over(r, vmax)]. *)
Definition _to_loop_over (fuel : nat) (self : t) (r vmax : F) : Py F F :=
  vlist ← alloc (np_linspace (lit 0) vmax 100);
  vals ← my_f_of_vr self vlist r;
  m ← or_raise (ValueError "zero-size array to reduction operation") (np_nanmax vals);
  let maxval := (m * lit 2)%S in
  rejection_sample fuel (my_f_of_vr self) maxval 1 (lit 0, vmax) (lit 2) np_longdouble r.

(** The attribute lookup [self._maxval_interp_] (line 309).  The state of
    the attribute is [None] on an instance on which line 98 has not run,
    and [Some f] once a callable [f] from an array of radii to an array of
    bounds is stored there (the interpolant of line 98 is built with
    [bounds_error=False], so it returns for every array of numbers). *)
Definition get_maxval_interp (_maxval_interp_ : option (list F -> list F))
    : Py F (list F -> list F) :=
  or_raise (AttributeError "_maxval_interp_") _maxval_interp_.

(** [draw_speeds(r, nthreads)], on an instance whose attribute
    [_maxval_interp_] is in the given state.  Every call of
    [rejection_sample] gets [fuel] iterations. *)
Definition draw_speeds (fuel : nat) (self : t) (_maxval_interp_ : option (list F -> list F))
    (r : list F) (nthreads : Z) : Py F (list F) :=
  let pot_list := map (potential self) r in
  let vmax_list := map (fun p => fsqrt (lit 2 * fabs p)%S) pot_list in
  interp ← get_maxval_interp _maxval_interp_;
  let maxval_list := interp r in
  for_each (zip (zip r vmax_list) maxval_list) (fun rvm =>
    let '(this_r, vmax, maxval) := rvm in
    rejection_sample fuel (my_f_of_vr self) maxval 1 (lit 0, vmax) (lit 2)
                     np_longdouble this_r).

Section Velocities.
Context `{!Trig F}.

(** [draw_velocities(pos, nthreads)]: a speed for the radius of every
    position, then [N] variates for the polar angle and [N] for the
    azimuth of the velocity. *)
Definition draw_velocities (fuel : nat) (self : t)
    (_maxval_interp_ : option (list F -> list F))
    (pos : list (F * F * F)) (nthreads : Z) : Py F (list (F * F * F)) :=
  let r := np_linalg_norm pos in
  let N := length r in
  speeds ← draw_speeds fuel self _maxval_interp_ r nthreads;
  u ← np_random_rand N;
  let theta := map (fun u => np_arccos (lit 1 - lit 2 * u))%S u in
  v ← np_random_rand N;
  let phi := map (fun v => v * (lit 2 * np_pi))%S v in
  let stheta := map np_sin theta in
  let vx := zip_with fmul (zip_with fmul speeds stheta) (map np_cos phi) in
  let vy := zip_with fmul (zip_with fmul speeds stheta) (map np_sin phi) in
  let vz := zip_with fmul speeds (map np_cos theta) in
  mret (np_transpose3 vx vy vz).

End Velocities.

(** *** The Gaussian sampler (lines 321-349) *)

(** [np.random.normal(loc, scale)] on two arrays of one length: one
    standard normal variate [z] for each element, in order, turned into
    [loc + scale * z].  The standard normal variates of the global
    generator are the stream [normals], read from position [p].  (The
    scales here are square roots, so NumPy's check [scale < 0] never
    fires.) *)
Definition np_random_normal (normals : nat -> F) (p : nat) (loc scale : list F) : list F :=
  zip_with (fun ls z => (ls.1 + ls.2 * z)%S) (zip loc scale)
           (map normals (seq p (length loc))).

(** Lines 337-340: [while(vmagsq > 0.95 * vesc_sq[i])], cut off after
    [fuel] iterations.  [last] is what the names [vr_], [vphi_] and
    [vtheta_] are bound to, if they are. *)
Fixpoint redraw (fuel : nat) (normals : nat -> F) (mean_i sigma_i vesc_sq_i vmagsq : F)
    (last : option (F * F * F)) (p : nat) : outcome (option (F * F * F) * nat) :=
  if (vmagsq >? lit 0.95 * vesc_sq_i)%S then
    match fuel with
    | O => OutOfFuel
    | S fuel' =>
        let vr_ := (mean_i + sigma_i * normals p)%S in
        let vphi_ := (mean_i + sigma_i * normals (p + 1)%nat)%S in
        let vtheta_ := (mean_i + sigma_i * normals (p + 2)%nat)%S in
        let vmagsq := (vr_ * vr_ + vphi_ * vphi_ + vtheta_ * vtheta_)%S in
        redraw fuel' normals mean_i sigma_i vesc_sq_i vmagsq (Some (vr_, vphi_, vtheta_))
               (p + 3)
    end
  else Returns (last, p).

(** Lines 336-343: [for i in keys:].  The names [vr_], [vphi_] and
    [vtheta_] live on from one pass to the next; reading them unbound is
    an [UnboundLocalError], a [NameError]. *)
Fixpoint redraw_each (fuel : nat) (normals : nat -> F) (mean sigma vesc_sq : list F)
    (keys : list nat) (vr vphi vtheta : list F) (last : option (F * F * F)) (p : nat)
    : outcome (list F * list F * list F * nat) :=
  match keys with
  | [] => Returns (vr, vphi, vtheta, p)
  | i :: rest =>
      match vesc_sq !! i, mean !! i, sigma !! i with
      | Some vesc_sq_i, Some mean_i, Some sigma_i =>
          match redraw fuel normals mean_i sigma_i vesc_sq_i vesc_sq_i last p with
          | Returns (Some (vr_, vphi_, vtheta_), p') =>
              redraw_each fuel normals mean sigma vesc_sq rest
                (<[i := vr_]> vr) (<[i := vphi_]> vphi) (<[i := vtheta_]> vtheta)
                (Some (vr_, vphi_, vtheta_)) p'
          | Returns (None, _) => Raises (NameError "vr_")
          | Raises e => Raises e
          | OutOfFuel => OutOfFuel
          end
      | _, _, _ => Raises IndexError
      end
  end.

(** [old_draw_velocities(pos)], reading the standard normal variates from
    position [p] of [normals]; it returns the velocities and the position
    it has read up to. *)
Definition old_draw_velocities (fuel : nat) (self : t) (normals : nat -> F) (p : nat)
    (pos : list (F * F * F)) : outcome (list (F * F * F) * nat) :=
  let r := np_linalg_norm pos in
  let N := length r in
  let mean := replicate N (lit 0) in
  match _sigmasq_ self r with
  | Returns sigmasq =>
      let sigma := map fsqrt sigmasq in
      let vr := np_random_normal normals p mean sigma in
      let vphi := np_random_normal normals (p + N) mean sigma in
      let vtheta := np_random_normal normals (p + N + N) mean sigma in
      let velsq :=
        zip_with fadd (zip_with fadd (map (fun x => x * x)%S vr) (map (fun x => x * x)%S vphi))
                 (map (fun x => x * x)%S vtheta) in
      let vesc_sq := map (_vesc_sq_ self) r in
      let keys := np_where (zip_with (fun v e => (v >? lit 0.95 * e)%S) velsq vesc_sq) in
      match redraw_each fuel normals mean sigma vesc_sq keys vr vphi vtheta None
                        (p + N + N + N) with
      | Returns (vr, vphi, vtheta, p') => Returns (np_transpose3 vr vphi vtheta, p')
      | Raises e => Raises e
      | OutOfFuel => OutOfFuel
      end
  | Raises e => Raises e
  | OutOfFuel => OutOfFuel
  end.

(** *** Construction (lines 66-116) *)

(** An instance before [__init__] has set anything. *)
Definition blank : t :=
  mk (lit 0) (lit 0) (lit 0) (lit 0) (lit 0) (lit 0) (lit 0) (lit 0) (lit 0) (lit 0)
     (lit 0) (lit 0) (lit 0) (lit 0) (lit 0) (lit 0) (lit 0) [] [].

Definition _init_units_ (self : t) (UnitLength_in_cm UnitMass_in_g UnitVelocity_in_cm_per_s : F) : t :=
  let _SEC_PER_GIGAYEAR_ := lit 3.15576e16 in
  let _SEC_PER_MEGAYEAR_ := lit 3.15576e13 in
  let _SEC_PER_YEAR_ := lit 3.15576e7 in
  let UnitTime_in_s := (UnitLength_in_cm / UnitVelocity_in_cm_per_s)%S in
  let UnitTime_in_Megayears := (UnitTime_in_s / _SEC_PER_MEGAYEAR_)%S in
  let _GRAVITY_ := lit 6.6738e-8 in
  let G := (_GRAVITY_ * UnitLength_in_cm ** lit (-3) * UnitMass_in_g * UnitTime_in_s ** lit 2)%S in
  mk UnitLength_in_cm UnitMass_in_g UnitVelocity_in_cm_per_s
     _SEC_PER_GIGAYEAR_ _SEC_PER_MEGAYEAR_ _SEC_PER_YEAR_
     UnitTime_in_s UnitTime_in_Megayears _GRAVITY_ G
     (M self) (a self) (density_prefactor self) (vg self)
     (f_prefactor self) (g_prefactor self) (phi_of_0 self)
     (_r_list_ self) (_maxval_list_ self).

(** The assignments of lines 70-77. *)
Definition set_model (self : t) (M0 a0 density_prefactor0 vg0 f_prefactor0 g_prefactor0 phi_of_00 : F) : t :=
  mk (UnitLength_in_cm self) (UnitMass_in_g self) (UnitVelocity_in_cm_per_s self)
     (_SEC_PER_GIGAYEAR_ self) (_SEC_PER_MEGAYEAR_ self) (_SEC_PER_YEAR_ self)
     (UnitTime_in_s self) (UnitTime_in_Megayears self) (_GRAVITY_ self) (G self)
     M0 a0 density_prefactor0 vg0 f_prefactor0 g_prefactor0 phi_of_00
     (_r_list_ self) (_maxval_list_ self).

Definition set_r_list (self : t) (r_list : list F) : t :=
  mk (UnitLength_in_cm self) (UnitMass_in_g self) (UnitVelocity_in_cm_per_s self)
     (_SEC_PER_GIGAYEAR_ self) (_SEC_PER_MEGAYEAR_ self) (_SEC_PER_YEAR_ self)
     (UnitTime_in_s self) (UnitTime_in_Megayears self) (_GRAVITY_ self) (G self)
     (M self) (a self) (density_prefactor self) (vg self)
     (f_prefactor self) (g_prefactor self) (phi_of_0 self)
     r_list (_maxval_list_ self).

Definition set_maxval_list (self : t) (maxval_list : list F) : t :=
  mk (UnitLength_in_cm self) (UnitMass_in_g self) (UnitVelocity_in_cm_per_s self)
     (_SEC_PER_GIGAYEAR_ self) (_SEC_PER_MEGAYEAR_ self) (_SEC_PER_YEAR_ self)
     (UnitTime_in_s self) (UnitTime_in_Megayears self) (_GRAVITY_ self) (G self)
     (M self) (a self) (density_prefactor self) (vg self)
     (f_prefactor self) (g_prefactor self) (phi_of_0 self)
     (_r_list_ self) maxval_list.

(** The global name [pot] as line 90 reads it: a [NameError] when the
    module's namespace does not bind it, an [AttributeError] when what it
    binds has no method [my_f_of_vr]. *)
Definition global_pot (globals : gmap string pyobj) : Py F t :=
  match globals !! "pot" with
  | None => raise (NameError "pot")
  | Some (PyInstance pot) => mret pot
  | Some _ => raise (AttributeError "my_f_of_vr")
  end.

(** [_init_maxval_list_(log10rmin, log10rmax, Ngrid)], run in a module
    whose global namespace is [globals]. *)
Definition _init_maxval_list_ (globals : gmap string pyobj) (self : t)
    (log10rmin log10rmax : F) (Ngrid : nat) : Py F t :=
  let self := set_r_list self (np_logspace log10rmin log10rmax Ngrid) in
  let pot_list := map (potential self) (_r_list_ self) in
  let vmax_list := map (fun p => fsqrt (lit 2 * fabs p)%S) pot_list in
  maxval_list ← for_each (zip (_r_list_ self) vmax_list) (fun rv =>
    let '(this_r, vmax) := rv in
    vlist ← alloc (np_linspace (lit 0) vmax 100);
    pot ← global_pot globals;
    vals ← my_f_of_vr pot vlist this_r;
    m ← or_raise (ValueError "zero-size array to reduction operation") (np_nanmax vals);
    mret (m * lit 2)%S);
  let self := set_maxval_list self maxval_list in
  print [PShape [length (_r_list_ self)]];;
  print [PShape [length (_maxval_list_ self)]];;
  mret self.

(** Lines 70-77 of [__init__]: the parameters and the constants derived
    from them, on an instance whose units are set.  The arithmetic is that
    of the scalar type, which is total, as NumPy's is on [np.float64]
    arguments; on plain Python floats a division by zero and an
    overflowing [**] raise instead ([ZeroDivisionError],
    [OverflowError]), which happens for scale lengths so small or so
    large that [a**3] leaves the range of binary64. *)
Definition init_parameters (self : t) (M a : F) : t :=
  let density_prefactor := (M / (lit 2 * np_pi * a ** lit 3))%S in
  let vg := ((G self * M / a) ** lit 0.5)%S in
  let f_prefactor :=
    (M / (lit 8 * fsqrt (lit 2) * np_pi ** lit 3 * a ** lit 3 * vg ** lit 3))%S in
  let g_prefactor := (lit 2 * fsqrt (lit 2) * np_pi ** lit 2 * a ** lit 3 * vg / lit 3)%S in
  let phi_of_0 := ((- G self) * M / a)%S in
  set_model self M a density_prefactor vg f_prefactor g_prefactor phi_of_0.

(** [Hernquist(M, a, UnitLength_in_cm, UnitMass_in_g,
    UnitVelocity_in_cm_per_s)]. *)
Definition __init__ (globals : gmap string pyobj) (M a : F)
    (UnitLength_in_cm UnitMass_in_g UnitVelocity_in_cm_per_s : F) : Py F t :=
  let self := _init_units_ blank UnitLength_in_cm UnitMass_in_g UnitVelocity_in_cm_per_s in
  let self := init_parameters self M a in
  _init_maxval_list_ globals self (lit (-6)) (lit 4) 10000.

End Class.

Arguments t F : clear implicits.
Arguments pyobj F : clear implicits.

End Hernquist.

(** * Auxiliary definitions for the statements *)

(** ** Tactics *)

(** Replace the binary64 value of each Python literal by the float it is. *)
Ltac float_lits :=
  repeat match goal with
         | |- context [float_of_Q ?q] =>
             let v := eval vm_compute in (float_of_Q q) in
             change (float_of_Q q) with v
         end.

(** ** Unfolding the monad *)

Ltac py_unfold :=
  unfold mbind, mret, Py_bind, Py_ret, bind, ret, raise, out_of_fuel, or_raise,
         alloc, load, store, print, np_random_rand in *.

Section Aux.
Context {F : Type} `{!Scalar F}.

(** The ten uniform variates the generator hands out from position [p]. *)
Definition uniforms (w : world F) (p : nat) : list F := map (rng_stream w) (seq p 10).

(** The test of line 148: an energy in the open interval (0, 1e-8). *)
Definition near_zero_positive (e : F) : bool := (lit 0 <? e)%S && (e <? lit 1e-8)%S.

(** The test of line 149: an energy above 1e-2. *)
Definition anomalous (e : F) : bool := (e >? lit 1e-2)%S.

(** The energy [f_of_E] converts to [q]. *)
Definition clamp_energy (e : F) : F := if near_zero_positive e then lit (-1e-8) else e.

(** The line [f_of_E] prints for the array [Es], if any. *)
Definition anomaly_report (Es : list F) : list (list (printable F)) :=
  if existsb anomalous Es then [[PStr "E > 1e-2:"; PArr (List.filter anomalous Es)]] else [].

(** What a target of [rejection_sample] does to the state, for a function
    [g] on scalars: called on an existing candidate array, it draws no
    variate and leaves [g] of every candidate in the array. *)
Definition target_leaves {A} (g : F -> F) (fn : loc -> A -> Py F (list F)) : Prop :=
  forall x args w xs vals w',
    heap w !! x = Some xs ->
    fn x args w = Returns (vals, w') ->
    rng_stream w' = rng_stream w /\ rng_pos w' = rng_pos w
    /\ heap w' !! x = Some (map g xs).

(** A target that only reads its candidates. *)
Definition read_only_target {A} (fn : loc -> A -> Py F (list F)) : Prop :=
  forall x args w xs vals w',
    heap w !! x = Some xs ->
    fn x args w = Returns (vals, w') ->
    rng_stream w' = rng_stream w /\ rng_pos w' = rng_pos w
    /\ heap w' !! x = Some xs.

End Aux.

Section AuxLibm.
Context {F : Type} `{!Scalar F} `{!Libm F}.

(** What [dMdE] returns for one value of [q]: the later assignment (small
    [q]) overrides the earlier one (q near 1), which overrides the
    product. *)
Definition dMdE_of_q (self : Hernquist.t F) (q : F) : F :=
  if (q <? lit 1e-3)%S then Hernquist._dMdE_close_to_0_ self q
  else if (lit 1 - q <? lit 1e-4)%S then Hernquist._dMdE_close_to_1_ self q
  else (Hernquist.f_of_q self q * Hernquist.g_of_q self q)%S.

(** What [_sigmasq_] returns for one radius when it returns: the far-field
    value beyond 300 scale lengths; else 0 where the closed form is NaN
    and the scaled radius lies in \[0, 1e-12); else the closed form. *)
Definition sigmasq_of_r (self : Hernquist.t F) (x : F) : F :=
  let rt := (x / Hernquist.a self)%S in
  let closed := Hernquist.sigmasq_closed_form self rt in
  if (rt >? lit 300)%S
  then (Hernquist.G self * Hernquist.M self / lit 5 / (rt * Hernquist.a self))%S
  else if fisnan closed && (lit 0 <=? rt)%S && (rt <? lit 1e-12)%S then lit 0
  else closed.

(** The radii at which the closed form of [_sigmasq_] is NaN. *)
Definition sigmasq_nan_radii (self : Hernquist.t F) (r : list F) : list F :=
  List.filter (fun x => fisnan (Hernquist.sigmasq_closed_form self (x / Hernquist.a self)%S)) r.

End AuxLibm.

(** ** Concrete inputs (binary64) *)

(** A generator that hands out 0.5 forever, an empty heap, nothing printed. *)
Definition w_half : world float := mkWorld ∅ (fun _ => 0.5%float) 0 [].

(** The target [lambda x: c + 0*x] for a constant [c]: it reads its
    argument and returns an array of the same length filled with [c]. *)
Definition const_target (c : float) (x : loc) (_ : unit) : Py float (list float) :=
  xs ← load x; mret (map (fun _ => c) xs).

(** A heap whose only array, at address 0, holds the single energy 5e-9. *)
Definition w_tiny : world float := mkWorld {[0%nat := [5e-9%float]]} (fun _ => 0.5%float) 0 [].

(** A heap whose only array, at address 0, holds an unbound energy and a
    bound one. *)
Definition w_unbound : world float :=
  mkWorld {[0%nat := [0.5%float; (-0.25)%float]]} (fun _ => 0.5%float) 0 [].

(** ** Concrete inputs (real numbers) *)

(** The halo with [G = M = a = 1]; its derived constants have the values
    [__init__] computes from these: [vg = 1], [phi_of_0 = -1]. *)
Definition unit_halo_R : Hernquist.t R :=
  Hernquist.mk 1%R 1%R 1%R 3.15576e16%R 3.15576e13%R 3.15576e7%R 1%R (1 / 3.15576e13)%R
    6.6738e-8%R 1%R
    1%R 1%R (1 / (2 * PI))%R 1%R
    (1 / (8 * sqrt 2 * (PI * PI * PI)))%R (2 * sqrt 2 * (PI * PI) / 3)%R (-1)%R [] [].

(** A heap whose only array, at address 0, holds three energies: one in
    (0, 1e-8), one above 1e-2, one bound. *)
Definition energies_R : list R := [5e-9%R; 0.5%R; (-1)%R].

Definition w_R : world R := mkWorld {[0%nat := energies_R]} (fun _ => 0.5%R) 0 [].

(** ** A concrete halo (binary64) *)

(** The halo with [G = M = a = 1], [vg = 1] and [phi_of_0 = -1]; the
    prefactors are the binary64 numbers lines 73-76 compute from these
    (see [unit_halo_constants]). *)
Definition unit_halo : Hernquist.t float :=
  Hernquist.mk 1%float 1%float 1%float 3.15576e16%float 3.15576e13%float 3.15576e7%float
    1%float (1 / 3.15576e13)%float 6.6738e-8%float 1%float
    1%float 1%float 0x1.45f306dc9c883p-3%float 1%float
    0x1.75a4458cb6378p-9%float 0x1.29c3ceaf72197p+3%float (-1)%float [] [].

(** A table of the special values the C standard (Annex F) fixes for [log]
    and [pow], and NaN everywhere else: [log(+inf) = +inf],
    [pow(1, y) = 1], [pow(+0, y) = +0] for positive [y].  It stands for the
    mathematical library where only these values matter. *)
Definition libm_special_values : Libm float := {|
  np_pi := 0x1.921fb54442d18p+1%float;
  np_arcsin := fun _ => nan;
  np_arccos := fun _ => nan;
  np_log := fun x => if PrimFloat.eqb x infinity then infinity else nan;
  np_power := fun x y =>
    if PrimFloat.eqb x 1 then 1%float
    else if PrimFloat.eqb x 0 && PrimFloat.ltb 0 y then 0%float
    else nan
|}.

(** The largest binary64 number below 0.9999: the largest [q] for which
    the test [1 - q < 1e-4] of [dMdE] fails in binary64, so that the
    product is returned. *)
Definition q_inside : float := 0x1.fff2e48e8a71dp-1%float.

(** [1 - q_inside^2] as binary64 computes it. *)
Definition one_minus_q_inside_sq : float := 0x1.a368d04e0d000p-13%float.

(** The special values of [libm_special_values] and, at the arguments the
    examples on the unit halo reach, the correctly rounded values of the
    functions (which the GNU C library returns there): [asin], [acos] and
    [pow(., -5)] at [q_inside], [pow(., -2.5)] at [1 - q_inside^2], and
    the square and the cube of [np.pi].  NaN everywhere else. *)
Definition libm_values : Libm float := {|
  np_pi := 0x1.921fb54442d18p+1%float;
  np_arcsin := fun x =>
    if PrimFloat.eqb x q_inside then 0x1.8e80e1a015546p+0%float else nan;
  np_arccos := fun x =>
    if PrimFloat.eqb x q_inside then 0x1.cf69d216be8f9p-7%float else nan;
  np_log := fun x => if PrimFloat.eqb x infinity then infinity else nan;
  np_power := fun x y =>
    if PrimFloat.eqb x 1 then 1%float
    else if PrimFloat.eqb x 0 && PrimFloat.ltb 0 y then 0%float
    else if PrimFloat.eqb x one_minus_q_inside_sq && PrimFloat.eqb y (-2.5)
    then 0x1.a5856b9caca07p+30%float
    else if PrimFloat.eqb x q_inside && PrimFloat.eqb y (-5)
    then 0x1.0020c7200b1f9p+0%float
    else if PrimFloat.eqb x 0x1.921fb54442d18p+1 && PrimFloat.eqb y 3
    then 0x1.f019b59389d7bp+4%float
    else if PrimFloat.eqb x 0x1.921fb54442d18p+1 && PrimFloat.eqb y 2
    then 0x1.3bd3cc9be45dep+3%float
    else nan
|}.

(** ** More inputs over the reals *)

(** A generator over the reals that hands out 0.5 forever, an empty heap,
    nothing printed. *)
Definition w_half_R : world R := mkWorld ∅ (fun _ => 0.5%R) 0 [].

(** A faint halo over the reals, built by lines 70-77 from [G = a = 1] and
    [M = 2e-8]: its central potential is -2e-8, so that the energy -1e-8
    which [f_of_E] substitutes has [q = 1 / sqrt 2]. *)
Definition faint_halo_R : Hernquist.t R :=
  Hernquist.init_parameters unit_halo_R 2e-8%R 1%R.

(** A generator over the reals that hands out [1 / 3] ten times and 0
    from then on, an empty heap, nothing printed. *)
Definition w_third : world R :=
  mkWorld ∅ (fun n => if (n <? 10)%nat then (/ 3)%R else 0%R) 0 [].

(** A generator that hands out [1 / sqrt 2] forever, an empty heap, nothing
    printed. *)
Definition w_inv_sqrt2 : world R := mkWorld ∅ (fun _ => (/ sqrt 2)%R) 0 [].

(** The distribution function of the unit halo at [q = 1 / sqrt 2], the
    value of the target [my_f_of_vr] at the centre for the speed 1. *)
Definition envelope_R : R := Hernquist.f_of_q unit_halo_R (/ sqrt 2)%R.


(** ** The formulas over the reals *)

(** The real number a Python literal denotes, as a quotient of integers. *)
Ltac Q2R_value q :=
  let n := eval vm_compute in (Qnum q) in
  let d := eval vm_compute in (Qden q) in
  change (Q2R q) with (IZR n * / IZR (Zpos d))%R.

(** The values of the factorials in the Taylor polynomials. *)
Ltac fact_values :=
  repeat (rewrite fact_simpl, mult_INR);
  change (INR (fact 0)) with 1%R;
  repeat rewrite INR_IZR_INZ; cbv [Z.of_nat Pos.of_succ_nat Pos.succ].


(** The brackets of equations 17 and 23 of Hernquist 1990, as [_f_of_q]
    and [g_of_q] compute them: the distribution function is
    [Fnum q * (1 - q^2)^(-5/2) * f_prefactor], the density of states
    [Gnum q * q^(-5) * g_prefactor]. *)
Definition Fnum (q : R) : R :=
  (3 * asin q
   + (1 - q * q - q * q) * (q * (sqrt (1 - q * q) * (8 * (q * q * (q * q) - q * q) - 3))))%R.

Definition Gnum (q : R) : R :=
  ((8 * (q * q * (q * q)) - 4 * (q * q) + 1) * acos q * 3
   - sqrt (1 - q * q) * (4 * (q * q) - 1) * (2 * (q * q) + 3) * q)%R.

(** The same brackets as functions of the angle [x]: [Fnum (sin x) =
    angle_F x], [Fnum (cos x) = 3 PI / 2 - angle_F x] and
    [Gnum (cos x) = angle_G x]. *)
Definition angle_F (x : R) : R := (3 * x - sin (4 * x) + sin (8 * x) / 8)%R.

Definition angle_G (x : R) : R :=
  (3 * x * (2 + 2 * cos (2 * x) + cos (4 * x))
   - 9 / 4 * (sin (2 * x) + sin (4 * x)) - 1 / 4 * sin (6 * x))%R.

(** The auxiliary function [sin 2x + sin 4x / 4 - x - 2 x cos 2x]:
    [angle_G] has the derivative [12 sin 2x] times it, and its own
    derivative is [2 sin 2x (2x - sin 2x)]. *)
Definition aux_K (x : R) : R :=
  (sin (2 * x) + / 4 * sin (4 * x) - x - 2 * x * cos (2 * x))%R.


(** The velocity at index [j] of three component arrays is within the cap
    of [old_draw_velocities]: its square is at most 0.95 times the squared
    escape speed at that index. *)
Definition within_cap (vesc_sq vr vphi vtheta : list R) (j : nat) : Prop :=
  forall e a b c,
    vesc_sq !! j = Some e -> vr !! j = Some a -> vphi !! j = Some b -> vtheta !! j = Some c ->
    (a * a + b * b + c * c <= 0.95 * e)%R.

(** * Properties *)

(** ** Sanity checks of the binary64 literals *)

Example lit_1em8 : lit 1e-8%Q = 1e-8%float.
Proof. reflexivity. Qed.

Example lit_neg_1em8 : lit (-1e-8)%Q = (-1e-8)%float.
Proof. reflexivity. Qed.

Example lit_1p5 : lit 1.5%Q = 1.5%float.
Proof. reflexivity. Qed.

Example lit_1em12 : lit 1e-12%Q = 1e-12%float.
Proof. reflexivity. Qed.

Example lit_unit_length : lit 3.085678e21%Q = 3.085678e21%float.
Proof. reflexivity. Qed.

Example lit_unit_mass : lit 1.989e43%Q = 1.989e43%float.
Proof. reflexivity. Qed.

Example lit_gravity : lit 6.6738e-8%Q = 6.6738e-8%float.
Proof. reflexivity. Qed.


(** ** Comparison of real numbers *)

Lemma Rltb_true (x y : R) : (x < y)%R -> Rltb x y = true.
Proof. intros H. unfold Rltb. destruct (Rlt_dec x y); [reflexivity|contradiction]. Qed.

Lemma Rltb_false (x y : R) : (y <= x)%R -> Rltb x y = false.
Proof. intros H. unfold Rltb. destruct (Rlt_dec x y); [lra|reflexivity]. Qed.


(** ** [rejection_sample] *)

Section RejectionSampleProps.
Context {F : Type} `{!Scalar F}.

(** The state in which the target is called: the candidate array [x] is a
    new object holding the first ten variates, each multiplied by
    [xwidth]; the thresholds are the next ten, multiplied by [maxval]. *)
Lemma draw_candidates_spec (xwidth maxval : F) (w : world F) :
  let x := fresh (dom (heap w)) in
  let xs := map (fun v => v * xwidth)%S (uniforms w (rng_pos w)) in
  draw_candidates xwidth maxval w =
    Returns ((x, map (fun v => v * maxval)%S (uniforms w (rng_pos w + 10))),
             mkWorld (<[x := xs]> (<[x := uniforms w (rng_pos w)]> (heap w)))
                     (rng_stream w) (rng_pos w + 10 + 10) (stdout w)).
Proof.
  unfold draw_candidates, uniforms. py_unfold. simpl.
  rewrite lookup_insert_eq. reflexivity.
Qed.

Lemma draw_candidates_heap (xwidth maxval : F) (w w' : world F) x y :
  draw_candidates xwidth maxval w = Returns ((x, y), w') ->
  heap w' !! x = Some (map (fun v => v * xwidth)%S (uniforms w (rng_pos w)))
  /\ heap w !! x = None.
Proof.
  rewrite draw_candidates_spec. intros H. inversion H; subst; clear H. simpl.
  split; [apply lookup_insert_eq|].
  apply not_elem_of_dom, is_fresh.
Qed.

(** More iterations never change a result already reached. *)
Lemma rejection_loop_fuel_mono {A} (fn : loc -> A -> Py F (list F)) (fn_args : A) (xwidth : F) :
  forall fuel fuel' maxval w s w',
    (fuel <= fuel')%nat ->
    rejection_loop fuel fn fn_args xwidth maxval w = Returns (s, w') ->
    rejection_loop fuel' fn fn_args xwidth maxval w = Returns (s, w').
Proof.
  induction fuel as [|fuel IH]; intros fuel' maxval w s w' Hle Hrun.
  - discriminate Hrun.
  - destruct fuel' as [|fuel']; [lia|].
    simpl in *. unfold mbind, Py_bind, bind in *.
    destruct (rejection_round fn fn_args xwidth maxval w) as [[r w1]| |]; try discriminate.
    destruct r; eauto with lia.
Qed.

(** A result comes out of a round that accepted: the loop returns only by
    the [break] of line 37. *)
Lemma rejection_loop_accepting_round {A} (fn : loc -> A -> Py F (list F)) (fn_args : A) (xwidth : F) :
  forall fuel maxval w s w',
    rejection_loop fuel fn fn_args xwidth maxval w = Returns (s, w') ->
    exists maxval_k w_k,
      rejection_round fn fn_args xwidth maxval_k w_k = Returns (Accepted s, w').
Proof.
  induction fuel as [|fuel IH]; intros maxval w s w' Hrun.
  - discriminate Hrun.
  - simpl in Hrun. unfold mbind, Py_bind, bind in Hrun.
    destruct (rejection_round fn fn_args xwidth maxval w) as [[r w1]| |] eqn:Hround;
      try discriminate.
    destruct r as [maxval'|sample|].
    + eapply IH; eauto.
    + unfold mret, Py_ret, ret in Hrun. inversion Hrun; subst. eauto.
    + eapply IH; eauto.
Qed.

(** What a round does with the values the target returned. *)
Lemma rejection_round_unfold {A} (fn : loc -> A -> Py F (list F)) (fn_args : A)
    (xwidth maxval : F) (w w1 : world F) x y fn_eval :
  draw_and_evaluate fn fn_args xwidth maxval w = Returns ((x, y, fn_eval), w1) ->
  rejection_round fn fn_args xwidth maxval w = decide_round x y fn_eval maxval w1.
Proof.
  intros H. unfold rejection_round, mbind, Py_bind, bind. rewrite H. reflexivity.
Qed.

Lemma rejection_round_inv {A} (fn : loc -> A -> Py F (list F)) (fn_args : A)
    (xwidth maxval : F) (w w' : world F) r :
  rejection_round fn fn_args xwidth maxval w = Returns (r, w') ->
  exists x y fn_eval w1,
    draw_and_evaluate fn fn_args xwidth maxval w = Returns ((x, y, fn_eval), w1)
    /\ decide_round x y fn_eval maxval w1 = Returns (r, w').
Proof.
  unfold rejection_round, mbind, Py_bind, bind.
  destruct (draw_and_evaluate fn fn_args xwidth maxval w) as [[[[x y] fn_eval] w1]| |];
    try discriminate.
  intros H. exists x, y, fn_eval, w1. auto.
Qed.

(** The thresholds of a round are ten. *)
Lemma draw_and_evaluate_thresholds {A} (fn : loc -> A -> Py F (list F)) (fn_args : A)
    (xwidth maxval : F) (w w1 : world F) x y fn_eval :
  draw_and_evaluate fn fn_args xwidth maxval w = Returns ((x, y, fn_eval), w1) ->
  x = fresh (dom (heap w))
  /\ y = map (fun v => v * maxval)%S (uniforms w (rng_pos w + 10)).
Proof.
  unfold draw_and_evaluate, mbind, Py_bind, bind.
  rewrite draw_candidates_spec. cbv zeta.
  match goal with |- context [fn ?a ?b ?c] => destruct (fn a b c) as [[vals w2]| |] end;
    try discriminate.
  unfold mret, Py_ret, ret. intros H. inversion H; subst. split; reflexivity.
Qed.

(** A round whose target values stay within the bound and whose first
    threshold below its target value is the one at index [k] ends the
    loop: the candidate at index [k], as the array holds it after the
    call of the target, is returned. *)
Lemma rejection_loop_accepts {A} (fn : loc -> A -> Py F (list F)) (fn_args : A)
    (fuel : nat) (xwidth maxval : F) (w w1 : world F) (x : loc) (y fn_eval xs : list F)
    (mask : list bool) (k : nat) (ks : list nat) (s : F) :
  draw_and_evaluate fn fn_args xwidth maxval w = Returns ((x, y, fn_eval), w1) ->
  bound_violated fn_eval maxval = false ->
  np_less y fn_eval = Some mask ->
  np_where mask = k :: ks ->
  heap w1 !! x = Some xs ->
  xs !! k = Some s ->
  rejection_loop (S fuel) fn fn_args xwidth maxval w = Returns (s, w1).
Proof.
  intros Heval Hok Hless Hkeys Hx Hk.
  cbn [rejection_loop]. unfold mbind, Py_bind, bind.
  rewrite (rejection_round_unfold _ _ _ _ _ _ _ _ _ Heval).
  unfold decide_round. rewrite Hok, Hless. cbn [or_raise].
  unfold mbind, Py_bind, bind, ret. rewrite Hkeys.
  unfold load. rewrite Hx. cbn [default from_option Datatypes.id]. rewrite Hk.
  reflexivity.
Qed.

(** A round whose target values stay within the bound, none of them
    above its threshold, is followed by another round under the same
    bound. *)
Lemma rejection_loop_rejects {A} (fn : loc -> A -> Py F (list F)) (fn_args : A)
    (fuel : nat) (xwidth maxval : F) (w w1 : world F) (x : loc) (y fn_eval : list F)
    (mask : list bool) :
  draw_and_evaluate fn fn_args xwidth maxval w = Returns ((x, y, fn_eval), w1) ->
  bound_violated fn_eval maxval = false ->
  np_less y fn_eval = Some mask ->
  np_where mask = [] ->
  rejection_loop (S fuel) fn fn_args xwidth maxval w
  = rejection_loop fuel fn fn_args xwidth maxval w1.
Proof.
  intros Heval Hok Hless Hkeys.
  cbn [rejection_loop]. unfold mbind, Py_bind, bind.
  rewrite (rejection_round_unfold _ _ _ _ _ _ _ _ _ Heval).
  unfold decide_round. rewrite Hok, Hless. cbn [or_raise].
  unfold mbind, Py_bind, bind, ret. rewrite Hkeys. reflexivity.
Qed.

(** A violated bound is never empty-handed: [np.max] has something to
    reduce. *)
Lemma bound_violated_np_max (fn_eval : list F) (maxval : F) :
  bound_violated fn_eval maxval = true -> exists m, np_max fn_eval = Some m.
Proof.
  destruct fn_eval as [|v rest]; [discriminate|]. simpl. eauto.
Qed.

End RejectionSampleProps.

(** ** Claims about [rejection_sample] *)

Section RejectionSampleClaims.
Context {F : Type} `{!Scalar F}.

(** C10.  [rejection_sample] hands back one scalar whatever its argument
    [N] is.  When the first round stays within the bound and the first
    threshold below its target value is the one at index [k], the call
    returns, for every [N] and after this one round, the single number
    the candidate array holds at index [k]; the round has drawn ten
    candidates and ten thresholds, whatever [N] is.  A round that stays
    within the bound with no threshold below its target value is
    followed by another round, again whatever [N] is.  In every state the
    outcome of the call is the same for every two values of [N], so the
    sample drawn from given random variates does not depend on [N]; and
    a call that returns hands back the one scalar that the [break] of an
    accepting round picked. *)
Theorem rejection_sample_ignores_N {A} (fn : loc -> A -> Py F (list F)) (fn_args : A)
    (maxval lo hi overshoot : F) (dt : dtype) (w w1 : world F)
    (x : loc) (y fn_eval xs : list F) (mask : list bool) (k : nat) (ks : list nat) (s : F) :
  draw_and_evaluate fn fn_args (hi - lo)%S maxval w = Returns ((x, y, fn_eval), w1) ->
  bound_violated fn_eval maxval = false ->
  np_less y fn_eval = Some mask ->
  np_where mask = k :: ks ->
  heap w1 !! x = Some xs ->
  xs !! k = Some s ->
  (forall (N : Z) (fuel : nat),
     rejection_sample (S fuel) fn maxval N (lo, hi) overshoot dt fn_args w = Returns (s, w1))
  /\ length y = 10%nat
  /\ (forall xwidth maxval0 w0, exists x0 y0 xs0 w2,
        draw_candidates xwidth maxval0 w0 = Returns ((x0, y0), w2)
        /\ heap w2 !! x0 = Some xs0 /\ length xs0 = 10%nat /\ length y0 = 10%nat
        /\ rng_pos w2 = (rng_pos w0 + 20)%nat)
  /\ (forall (N : Z) (fuel : nat) (maxval0 : F) (xrng : F * F) (w0 w2 : world F)
             (x0 : loc) (y0 fn_eval0 : list F) (mask0 : list bool),
        draw_and_evaluate fn fn_args (snd xrng - fst xrng)%S maxval0 w0
          = Returns ((x0, y0, fn_eval0), w2) ->
        bound_violated fn_eval0 maxval0 = false ->
        np_less y0 fn_eval0 = Some mask0 ->
        np_where mask0 = [] ->
        rejection_sample (S fuel) fn maxval0 N xrng overshoot dt fn_args w0
        = rejection_sample fuel fn maxval0 N xrng overshoot dt fn_args w2)
  /\ (forall (N N' : Z) (fuel : nat) (maxval0 : F) (xrng : F * F) (w0 : world F),
        rejection_sample fuel fn maxval0 N xrng overshoot dt fn_args w0
        = rejection_sample fuel fn maxval0 N' xrng overshoot dt fn_args w0)
  /\ (forall (N : Z) (fuel : nat) (maxval0 : F) (xrng : F * F) (w0 w' : world F) (s' : F),
        rejection_sample fuel fn maxval0 N xrng overshoot dt fn_args w0 = Returns (s', w') ->
        (forall fuel' N', (fuel <= fuel')%nat ->
           rejection_sample fuel' fn maxval0 N' xrng overshoot dt fn_args w0 = Returns (s', w'))
        /\ exists maxval_k w_k,
             rejection_round fn fn_args (snd xrng - fst xrng)%S maxval_k w_k
               = Returns (Accepted s', w')).
Proof.
  intros Heval Hok Hless Hkeys Hx Hk.
  split; [|split; [|split; [|split; [|split]]]].
  - intros N fuel. unfold rejection_sample. cbn [fst snd].
    eapply rejection_loop_accepts; eassumption.
  - destruct (draw_and_evaluate_thresholds _ _ _ _ _ _ _ _ _ Heval) as [_ ->].
    rewrite length_map. unfold uniforms. rewrite length_map, length_seq. reflexivity.
  - intros xwidth maxval0 w0. rewrite draw_candidates_spec.
    eexists _, _, _, _. split; [reflexivity|]. simpl.
    rewrite lookup_insert_eq. split; [reflexivity|].
    repeat split; lia.
  - intros N fuel maxval0 xrng w0 w2 x0 y0 fn_eval0 mask0 Heval0 Hok0 Hless0 Hkeys0.
    unfold rejection_sample. eapply rejection_loop_rejects; eassumption.
  - reflexivity.
  - intros N fuel maxval0 xrng w0 w' s' Hrun. unfold rejection_sample in *. split.
    + intros fuel' N' Hle. eapply rejection_loop_fuel_mono; eauto.
    + eapply rejection_loop_accepting_round; eauto.
Qed.

(** C3 (as the code has it).  When a value of the target exceeds the bound
    of the round, the round accepts nothing: it prints one line holding
    the old bound and the largest target value of the round ([np.max]),
    and the loop goes on, with fresh draws, under the bound 1.5 times that
    largest value.  The printed line does not hold the new bound.  A
    sample the loop returns was accepted in a round whose target values
    all stayed within that round's bound. *)
Theorem bound_violation_escalates {A} (fn : loc -> A -> Py F (list F)) (fn_args : A)
    (xwidth maxval : F) (w w1 : world F) (x : loc) (y fn_eval : list F) :
  draw_and_evaluate fn fn_args xwidth maxval w = Returns ((x, y, fn_eval), w1) ->
  bound_violated fn_eval maxval = true ->
  exists m,
    np_max fn_eval = Some m
    /\ (let w' := mkWorld (heap w1) (rng_stream w1) (rng_pos w1)
                    (stdout w1 ++ [[PStr "maxval exceeded. maxval="; PNum maxval;
                                    PStr "max of fn_eval="; PNum m]]) in
        rejection_round fn fn_args xwidth maxval w = Returns (Escalated (lit 1.5 * m)%S, w')
        /\ forall fuel,
             rejection_loop (S fuel) fn fn_args xwidth maxval w
               = rejection_loop fuel fn fn_args xwidth (lit 1.5 * m)%S w')
    /\ (forall s w'', rejection_round fn fn_args xwidth maxval w <> Returns (Accepted s, w''))
    /\ (forall fuel maxval0 w0 s w'',
          rejection_loop fuel fn fn_args xwidth maxval0 w0 = Returns (s, w'') ->
          exists maxval_k w_k x_k y_k fn_eval_k w1_k,
            draw_and_evaluate fn fn_args xwidth maxval_k w_k
              = Returns ((x_k, y_k, fn_eval_k), w1_k)
            /\ bound_violated fn_eval_k maxval_k = false
            /\ decide_round x_k y_k fn_eval_k maxval_k w1_k = Returns (Accepted s, w'')).
Proof.
  intros Heval Hviol.
  destruct (bound_violated_np_max _ _ Hviol) as [m Hm]. exists m.
  assert (Hround : rejection_round fn fn_args xwidth maxval w
    = Returns (Escalated (lit 1.5 * m)%S,
               mkWorld (heap w1) (rng_stream w1) (rng_pos w1)
                 (stdout w1 ++ [[PStr "maxval exceeded. maxval="; PNum maxval;
                                 PStr "max of fn_eval="; PNum m]]))).
  { rewrite (rejection_round_unfold _ _ _ _ _ _ _ _ _ Heval).
    unfold decide_round. rewrite Hviol, Hm. reflexivity. }
  split; [exact Hm|]. split; [|split].
  - split; [exact Hround|]. intros fuel. simpl.
    unfold mbind, Py_bind, bind. rewrite Hround. reflexivity.
  - intros s w''. rewrite Hround. discriminate.
  - intros fuel maxval0 w0 s w'' Hrun.
    destruct (rejection_loop_accepting_round _ _ _ _ _ _ _ _ Hrun) as (maxval_k & w_k & Hk).
    destruct (rejection_round_inv _ _ _ _ _ _ _ Hk) as (x_k & y_k & fe_k & w1_k & Hd & Hdec).
    exists maxval_k, w_k, x_k, y_k, fe_k, w1_k. split; [exact Hd|]. split; [|exact Hdec].
    destruct (bound_violated fe_k maxval_k) eqn:Hv; [|reflexivity].
    exfalso. unfold decide_round in Hdec. rewrite Hv in Hdec.
    destruct (bound_violated_np_max _ _ Hv) as [m' Hm']. rewrite Hm' in Hdec.
    discriminate Hdec.
Qed.

End RejectionSampleClaims.

(** [rejection_sample_ignores_N] on the target constantly 1 over the
    interval \[1, 2\] under the bound 1.5, with the generator handing out
    0.5: the thresholds are 0.75, the first candidate is accepted, and the
    call returns 0.5 for [N = 1] as for [N = 1000]. *)
Lemma rejection_sample_ignores_N_witness :
  let w1 := mkWorld (<[0%nat := replicate 10 0.5%float]> ∅) (fun _ => 0.5%float) 20 [] in
  rejection_sample 1 (const_target 1) 1.5%float 1 (1%float, 2%float) 2%float
    np_longdouble tt w_half = Returns (0.5%float, w1)
  /\ rejection_sample 1 (const_target 1) 1.5%float 1000 (1%float, 2%float) 2%float
       np_longdouble tt w_half = Returns (0.5%float, w1).
Proof.
  intros w1.
  destruct (rejection_sample_ignores_N (const_target 1) tt 1.5%float 1%float 2%float
              2%float np_longdouble w_half w1 0%nat (replicate 10 0.75%float)
              (replicate 10 1%float) (replicate 10 0.5%float) (replicate 10 true)
              0%nat [1; 2; 3; 4; 5; 6; 7; 8; 9]%nat 0.5%float) as [Hrun _].
  - vm_compute. reflexivity.
  - vm_compute. reflexivity.
  - vm_compute. reflexivity.
  - reflexivity.
  - reflexivity.
  - reflexivity.
  - split; [apply (Hrun 1%Z 0%nat)|apply (Hrun 1000%Z 0%nat)].
Defined.

(** The round of [bound_violation_escalates] on a concrete input: target
    constantly 2 under the bound 1. *)
Lemma bound_violation_escalates_witness :
  exists m,
    np_max (replicate 10 2%float) = Some m
    /\ rejection_round (const_target 2) tt 1%float 1%float w_half
       = Returns (Escalated (lit 1.5 * m)%S,
                  mkWorld (<[0%nat := replicate 10 0.5%float]> ∅) (fun _ => 0.5%float) 20
                    [[PStr "maxval exceeded. maxval="; PNum 1%float;
                      PStr "max of fn_eval="; PNum m]]).
Proof.
  assert (Heval : draw_and_evaluate (const_target 2) tt 1%float 1%float w_half
            = Returns ((0%nat, replicate 10 0.5%float, replicate 10 2%float),
                       mkWorld (<[0%nat := replicate 10 0.5%float]> ∅)
                         (fun _ => 0.5%float) 20 []))
    by (vm_compute; reflexivity).
  assert (Hviol : bound_violated (replicate 10 2%float) 1%float = true)
    by (vm_compute; reflexivity).
  destruct (bound_violation_escalates _ _ _ _ _ _ _ _ _ Heval Hviol)
    as (m & Hm & [Hround _] & _).
  exists m. split; [exact Hm|exact Hround].
Defined.

(** C3, counterexample to the claim as stated: with the bound 1 and the
    target constantly 2 the round raises the bound to 3, and the line it
    prints holds 1 and 2, not 3. *)
Lemma diagnostic_omits_new_bound :
  exists w' line,
    rejection_round (const_target 2) tt 1%float 1%float w_half
      = Returns (Escalated 3%float, w')
    /\ stdout w' = [line]
    /\ line = [PStr "maxval exceeded. maxval="; PNum 1%float;
               PStr "max of fn_eval="; PNum 2%float]
    /\ ~ In (PNum 3%float) line.
Proof.
  eexists _, _. split; [vm_compute; reflexivity|]. split; [reflexivity|].
  split; [reflexivity|].
  intros Hin. simpl in Hin.
  assert (Hne : forall x : float, PrimFloat.eqb x 3 = false ->
                  @PNum float x <> PNum 3%float).
  { intros x Hx Heq. inversion Heq; subst. vm_compute in Hx. discriminate. }
  destruct Hin as [Hin|[Hin|[Hin|[Hin|[]]]]];
    first [discriminate Hin | revert Hin; apply Hne; reflexivity].
Qed.

(** C1.  The candidates are the uniform variates times the width of the
    interval: the lower end [xstart] is never added.  On the interval
    \[1, 2\] with the generator handing out 0.5, the target is evaluated
    on candidates 0.5 and the call returns 0.5, which is below the lower
    end.  On an interval \[-1, 0\], as [draw_energies] passes for a
    potential of -1, the candidates are 0.5 again, above the upper end. *)
Theorem rejection_sample_omits_xstart :
  (exists w1, draw_candidates (2 - 1)%float 1%float w_half
              = Returns ((0%nat, replicate 10 0.5%float), w1)
              /\ heap w1 !! 0%nat = Some (replicate 10 0.5%float))
  /\ (exists w', rejection_sample 1 (const_target 1) 1%float 1 (1%float, 2%float)
                   2%float np_longdouble tt w_half = Returns (0.5%float, w'))
  /\ PrimFloat.ltb 0.5 1 = true
  /\ (exists w1, draw_candidates (0 - (-1))%float 1%float w_half
                 = Returns ((0%nat, replicate 10 0.5%float), w1)
                 /\ heap w1 !! 0%nat = Some (replicate 10 0.5%float))
  /\ PrimFloat.ltb 0 0.5 = true.
Proof.
  split; [|split; [|split; [|split]]].
  - eexists. split; vm_compute; reflexivity.
  - eexists. vm_compute. reflexivity.
  - reflexivity.
  - eexists. split; vm_compute; reflexivity.
  - reflexivity.
Qed.

(** ** Index arrays from [np.where] *)

(** Assignments and reads at the indices [np.where] returns, element by
    element. *)
Section ArrayLemmas.
Context {F : Type} `{!Scalar F}.

Lemma assign_at_where_from (p : F -> bool) (v : F) :
  forall xs pre,
    assign_at (where_from (length pre) (map p xs)) v (pre ++ xs)
    = pre ++ map (fun x => if p x then v else x) xs.
Proof.
  induction xs as [|x rest IH]; intros pre; [reflexivity|].
  simpl. specialize (IH (pre ++ [if p x then v else x])).
  rewrite length_app in IH. simpl in IH. rewrite Nat.add_1_r in IH.
  rewrite <- app_assoc in IH. simpl in IH.
  destruct (p x) eqn:Hp.
  - unfold assign_at in *. simpl.
    replace (<[length pre := v]> (pre ++ x :: rest)) with (pre ++ v :: rest).
    + rewrite IH. rewrite <- app_assoc. reflexivity.
    + rewrite insert_app_r_alt by lia. rewrite Nat.sub_diag. reflexivity.
  - rewrite IH. rewrite <- app_assoc. reflexivity.
Qed.

Lemma assign_at_where (p : F -> bool) (v : F) (xs : list F) :
  assign_at (np_where (map p xs)) v xs = map (fun x => if p x then v else x) xs.
Proof. apply (assign_at_where_from p v xs []). Qed.

Lemma take_at_where_from (p : F -> bool) :
  forall xs pre,
    take_at (where_from (length pre) (map p xs)) (pre ++ xs) = List.filter p xs.
Proof.
  induction xs as [|x rest IH]; intros pre; [reflexivity|].
  simpl. specialize (IH (pre ++ [x])).
  rewrite length_app in IH. simpl in IH. rewrite Nat.add_1_r in IH.
  rewrite <- app_assoc in IH. simpl in IH.
  destruct (p x) eqn:Hp; [|exact IH].
  unfold take_at in *. simpl.
  rewrite (lookup_app_r pre (x :: rest) (length pre)) by lia.
  rewrite Nat.sub_diag. simpl. f_equal. exact IH.
Qed.

Lemma take_at_where (p : F -> bool) (xs : list F) :
  take_at (np_where (map p xs)) xs = List.filter p xs.
Proof. apply (take_at_where_from p xs []). Qed.

Lemma assign_array_at_where_from (p : F -> bool) (f : F -> F) :
  forall qs ans pre,
    length ans = length qs ->
    assign_array_at (where_from (length pre) (map p qs)) (map f (List.filter p qs)) (pre ++ ans)
    = pre ++ zip_with (fun q x => if p q then f q else x) qs ans.
Proof.
  induction qs as [|q rest IH]; intros ans pre Hlen.
  - destruct ans; [reflexivity|discriminate].
  - destruct ans as [|x ans]; [discriminate|]. simpl in Hlen.
    simpl. specialize (IH ans (pre ++ [if p q then f q else x]) ltac:(lia)).
    rewrite length_app in IH. simpl in IH. rewrite Nat.add_1_r in IH.
    rewrite <- app_assoc in IH. simpl in IH.
    destruct (p q) eqn:Hp.
    + unfold assign_array_at in *. simpl.
      replace (<[length pre := f q]> (pre ++ x :: ans)) with (pre ++ f q :: ans).
      * rewrite IH, <- app_assoc. reflexivity.
      * rewrite insert_app_r_alt by lia. rewrite Nat.sub_diag. reflexivity.
    + rewrite IH, <- app_assoc. reflexivity.
Qed.

Lemma assign_array_at_where (p : F -> bool) (f : F -> F) (qs ans : list F) :
  length ans = length qs ->
  assign_array_at (np_where (map p qs)) (map f (take_at (np_where (map p qs)) qs)) ans
  = zip_with (fun q x => if p q then f q else x) qs ans.
Proof.
  intros Hlen. rewrite take_at_where. apply (assign_array_at_where_from p f qs ans [] Hlen).
Qed.

Lemma where_from_nonempty (p : F -> bool) (xs : list F) (n : nat) :
  (0 < length (where_from n (map p xs)))%nat <-> existsb p xs = true.
Proof.
  revert n. induction xs as [|x rest IH]; intros n; simpl.
  - split; [lia|discriminate].
  - destruct (p x); simpl; [split; [reflexivity|lia]|apply IH].
Qed.

Lemma np_where_nonempty (p : F -> bool) (xs : list F) :
  (0 < length (np_where (map p xs)))%nat <-> existsb p xs = true.
Proof. apply where_from_nonempty. Qed.

End ArrayLemmas.

(** ** The distribution function on arrays *)

Section HernquistProps.
Context {F : Type} `{!Scalar F} `{!Libm F}.
Import Hernquist.

(** [f_of_E] on an array object holding [Es]: the values, the object's
    contents afterwards, and what is printed. *)
Lemma f_of_E_spec (self : Hernquist.t F) (E : loc) (w : world F) (Es : list F) :
  heap w !! E = Some Es ->
  f_of_E self E w =
    Returns (map (fun e => f_of_q self (q_of_E self (clamp_energy e))) Es,
             mkWorld (<[E := map clamp_energy Es]> (heap w)) (rng_stream w) (rng_pos w)
                     (stdout w ++ anomaly_report Es)).
Proof.
  intros HE. unfold f_of_E. py_unfold. rewrite HE. simpl.
  change (map (fun e => (lit 0 <? e)%S && (e <? lit 1e-8)%S) Es) with (map near_zero_positive Es).
  change (map (fun e => (lit 1e-2 <? e)%S) Es) with (map anomalous Es).
  rewrite assign_at_where, take_at_where.
  change (map (fun x => if near_zero_positive x then lit (-1e-8) else x) Es)
    with (map clamp_energy Es).
  unfold anomaly_report.
  destruct (decide (0 < length (np_where (map anomalous Es)))%nat) as [Hlen|Hlen];
    rewrite np_where_nonempty in Hlen.
  - rewrite Hlen. simpl. rewrite lookup_insert_eq. simpl.
    rewrite !map_map. reflexivity.
  - apply not_true_is_false in Hlen. rewrite Hlen. simpl. rewrite lookup_insert_eq. simpl.
    rewrite !map_map, app_nil_r. reflexivity.
Qed.

(** [my_f_of_vr]: the energies live in a new object; the array of speeds is
    only read. *)
Lemma my_f_of_vr_spec (self : Hernquist.t F) (v : loc) (r : F) (w : world F) (vs : list F) :
  heap w !! v = Some vs ->
  let E := fresh (dom (heap w)) in
  let Es := map (fun x => potential self r + lit 0.5 * (x * x))%S vs in
  my_f_of_vr self v r w =
    Returns (zip_with fmul (map (fun e => f_of_q self (q_of_E self (clamp_energy e))) Es)
                           (map (fun x => x * x)%S vs),
             mkWorld (<[E := map clamp_energy Es]> (<[E := Es]> (heap w)))
                     (rng_stream w) (rng_pos w) (stdout w ++ anomaly_report Es)).
Proof.
  intros Hv E Es.
  assert (Hne : E <> v).
  { intros Heq. pose proof (is_fresh (dom (heap w))) as Hf.
    apply Hf. fold E. rewrite Heq. apply elem_of_dom. rewrite Hv. eauto. }
  unfold my_f_of_vr, f_of_vr, mbind, Py_bind, bind.
  unfold load at 1. rewrite Hv. simpl. unfold alloc. simpl. fold E.
  rewrite map_map. fold Es.
  rewrite (f_of_E_spec self E _ Es) by (simpl; apply lookup_insert_eq).
  unfold load, mret, Py_ret, ret. simpl.
  rewrite !lookup_insert_ne by exact Hne. rewrite Hv. reflexivity.
Qed.

(** C6.  [f_of_E] never raises.  It converts to [q] the energy -1e-8 in
    place of every energy of the open interval (0, 1e-8), and every other
    energy as it is; when some energy exceeds 1e-2 it prints one line
    listing those energies, and still returns the value of the
    distribution function at each of them.  (The first hypothesis says
    that the order of the scalars keeps 1e-2 above 1e-8; it holds for
    binary64 and for the reals, see [anomalous_not_near_zero_float] and
    [anomalous_not_near_zero_R].) *)
Theorem f_of_E_clamps_and_logs (self : Hernquist.t F) (E : loc) (w : world F) (Es : list F) :
  (forall e : F, anomalous e = true -> near_zero_positive e = false) ->
  heap w !! E = Some Es ->
  exists vals w',
    f_of_E self E w = Returns (vals, w')
    /\ vals = map (fun e => f_of_q self (q_of_E self (clamp_energy e))) Es
    /\ stdout w' = stdout w ++ anomaly_report Es
    /\ (forall i e, Es !! i = Some e -> near_zero_positive e = true ->
          vals !! i = Some (f_of_q self (q_of_E self (lit (-1e-8)))))
    /\ (forall i e, Es !! i = Some e -> near_zero_positive e = false ->
          vals !! i = Some (f_of_q self (q_of_E self e)))
    /\ (forall i e, Es !! i = Some e -> anomalous e = true ->
          anomaly_report Es = [[PStr "E > 1e-2:"; PArr (List.filter anomalous Es)]]
          /\ In e (List.filter anomalous Es)
          /\ vals !! i = Some (f_of_q self (q_of_E self e))).
Proof.
  intros Hord HE. eexists _, _. split; [apply (f_of_E_spec self E w Es HE)|].
  split; [reflexivity|]. split; [reflexivity|].
  assert (Hkeep : forall i e, Es !! i = Some e -> near_zero_positive e = false ->
            map (fun e => f_of_q self (q_of_E self (clamp_energy e))) Es !! i
            = Some (f_of_q self (q_of_E self e))).
  { intros i e Hi Hnz. rewrite list_lookup_fmap, Hi. simpl.
    unfold clamp_energy. rewrite Hnz. reflexivity. }
  split; [|split].
  - intros i e Hi Hnz. rewrite list_lookup_fmap, Hi. simpl.
    unfold clamp_energy. rewrite Hnz. reflexivity.
  - exact Hkeep.
  - intros i e Hi Han.
    assert (Hin : In e Es) by (apply list_elem_of_In; eapply list_elem_of_lookup_2; eauto).
    split; [|split].
    + unfold anomaly_report.
      replace (existsb anomalous Es) with true; [reflexivity|].
      symmetry. apply existsb_exists. eauto.
    + apply filter_In. auto.
    + apply Hkeep; [exact Hi|]. apply Hord. exact Han.
Qed.

(** C7 (as the code has it).  [f_of_E] writes into its argument: afterwards
    the caller's array holds -1e-8 wherever it held an energy of the open
    interval (0, 1e-8) and its old values elsewhere, so it is unchanged
    exactly when it held no such energy; no other array changes.
    [my_f_of_vr] (and with it [f_of_vr]) hands [f_of_E] an array of its
    own and leaves every array that existed before the call as it was. *)
Theorem f_of_E_overwrites_only_near_zero (self : Hernquist.t F) (E : loc) (w w' : world F)
    (Es vals : list F) :
  heap w !! E = Some Es ->
  f_of_E self E w = Returns (vals, w') ->
  heap w' !! E = Some (map clamp_energy Es)
  /\ (forall i e, Es !! i = Some e ->
        map clamp_energy Es !! i
          = Some (if near_zero_positive e then lit (-1e-8) else e))
  /\ (forall l, l <> E -> heap w' !! l = heap w !! l)
  /\ (existsb near_zero_positive Es = false -> heap w' = heap w)
  /\ (forall v r vs vals2 w2,
        heap w !! v = Some vs ->
        my_f_of_vr self v r w = Returns (vals2, w2) ->
        forall l, is_Some (heap w !! l) -> heap w2 !! l = heap w !! l).
Proof.
  intros HE Hrun. rewrite (f_of_E_spec self E w Es HE) in Hrun.
  inversion Hrun; subst; clear Hrun. simpl.
  split; [apply lookup_insert_eq|]. split; [|split; [|split]].
  - intros i e Hi. rewrite list_lookup_fmap, Hi. reflexivity.
  - intros l Hl. apply lookup_insert_ne. congruence.
  - intros Hnone. apply insert_id. rewrite HE. f_equal.
    transitivity (map (fun e : F => e) Es); [symmetry; apply map_id|].
    apply map_ext_in. intros e He.
    unfold clamp_energy.
    destruct (near_zero_positive e) eqn:Hnz; [|reflexivity].
    assert (existsb near_zero_positive Es = true) by (apply existsb_exists; eauto).
    congruence.
  - intros v r vs vals2 w2 Hv Hrun l [old Hl].
    rewrite (my_f_of_vr_spec self v r w vs Hv) in Hrun.
    inversion Hrun; subst; clear Hrun. simpl.
    assert (Hne : fresh (dom (heap w)) <> l).
    { intros Heq. apply (is_fresh (dom (heap w))). rewrite Heq.
      apply elem_of_dom. eauto. }
    rewrite !lookup_insert_ne by exact Hne. reflexivity.
Qed.

(** C4.  [mass_enclosed] raises [TypeError] on every input: the float
    [-2.] stands where [np.multiply] takes its output array. *)
Theorem mass_enclosed_raises (self : Hernquist.t F) (r : list F) :
  mass_enclosed self r = Raises (TypeError "return arrays must be of ArrayType").
Proof. unfold mass_enclosed, np_multiply_out. reflexivity. Qed.

End HernquistProps.

(** ** Instances of the array properties *)

(** An energy above 1e-2 is not in (0, 1e-8): over the reals. *)
Lemma anomalous_not_near_zero_R (e : R) :
  anomalous e = true -> near_zero_positive e = false.
Proof.
  unfold anomalous, near_zero_positive. cbn [fltb lit R_scalar].
  Q2R_value 1e-2%Q. Q2R_value 1e-8%Q. Q2R_value 0%Q.
  unfold Rltb. repeat destruct (Rlt_dec _ _); intros H; try reflexivity; try discriminate; lra.
Qed.

(** An energy above 1e-2 is not in (0, 1e-8): in binary64, by the
    specification of the comparison. *)
Lemma anomalous_not_near_zero_float (e : float) :
  anomalous e = true -> near_zero_positive e = false.
Proof.
  unfold anomalous, near_zero_positive. cbn [fltb lit float_scalar]. float_lits.
  intros H. apply andb_false_intro2. revert H.
  rewrite !ltb_spec.
  replace (Prim2SF 1e-2) with (S754_finite false 5764607523034235 (-59)) by reflexivity.
  replace (Prim2SF 1e-8) with (S754_finite false 6044629098073146 (-79)) by reflexivity.
  destruct (Prim2SF e) as [s|s| |s m ex]; unfold SFltb, SFcompare;
    try (destruct s; congruence); try congruence.
  destruct s; try congruence.
  destruct (Z.compare_spec (-59) ex), (Z.compare_spec ex (-79)); try lia; congruence.
Qed.

(** [f_of_E_clamps_and_logs] on the array [energies_R]. *)
Lemma f_of_E_clamps_and_logs_witness :
  exists vals w',
    Hernquist.f_of_E unit_halo_R 0%nat w_R = Returns (vals, w')
    /\ vals = map (fun e => Hernquist.f_of_q unit_halo_R
                              (Hernquist.q_of_E unit_halo_R (clamp_energy e))) energies_R
    /\ stdout w' = stdout w_R ++ anomaly_report energies_R
    /\ vals !! 1%nat
       = Some (Hernquist.f_of_q unit_halo_R (Hernquist.q_of_E unit_halo_R 0.5%R)).
Proof.
  destruct (f_of_E_clamps_and_logs unit_halo_R 0%nat w_R energies_R
              anomalous_not_near_zero_R eq_refl)
    as (vals & w' & Hrun & Hvals & Hout & _ & _ & Han).
  exists vals, w'. repeat split; try assumption.
  apply (Han 1%nat 0.5%R eq_refl).
  unfold anomalous. cbn [fltb lit R_scalar]. Q2R_value 1e-2%Q.
  apply Rltb_true. lra.
Defined.

(** [f_of_E_overwrites_only_near_zero] on the array [energies_R]. *)
Lemma f_of_E_overwrites_only_near_zero_witness :
  let w' := mkWorld (<[0%nat := map clamp_energy energies_R]> (heap w_R))
              (rng_stream w_R) (rng_pos w_R) (stdout w_R ++ anomaly_report energies_R) in
  heap w' !! 0%nat = Some (map clamp_energy energies_R)
  /\ (forall l, l <> 0%nat -> heap w' !! l = heap w_R !! l).
Proof.
  destruct (f_of_E_overwrites_only_near_zero unit_halo_R 0%nat w_R _ energies_R _
              eq_refl (f_of_E_spec unit_halo_R 0%nat w_R energies_R eq_refl))
    as (Hat & _ & Hframe & _).
  split; [exact Hat|exact Hframe].
Defined.

(** C7, counterexample to the claim as stated: the caller's array holds
    5e-9 before the call of [f_of_E] and -1e-8 after it, whatever the
    mathematical library and the model parameters. *)
Lemma f_of_E_overwrites_its_argument :
  heap w_tiny !! 0%nat = Some [5e-9%float]
  /\ (forall (lm : Libm float) (self : Hernquist.t float),
        exists vals w',
          Hernquist.f_of_E self 0%nat w_tiny = Returns (vals, w')
          /\ heap w' !! 0%nat = Some [(-1e-8)%float])
  /\ [5e-9%float] <> [(-1e-8)%float].
Proof.
  split; [reflexivity|]. split.
  - intros lm self. eexists _, _.
    split; [apply (f_of_E_spec self 0%nat w_tiny [5e-9%float] eq_refl)|].
    simpl. rewrite lookup_insert_eq. reflexivity.
  - intros Heq. apply (f_equal (fun l => match l with
                                         | x :: _ => PrimFloat.ltb x 0
                                         | [] => false
                                         end)) in Heq.
    vm_compute in Heq. discriminate Heq.
Qed.

(** ** Energy and the dimensionless variable, over the reals *)

(** C8.  With [phi_of_0 < 0], [E_of_q] and [q_of_E] are inverse to each
    other: [E_of_q (q_of_E E) = E] for every [E <= 0], and
    [q_of_E (E_of_q q) = q] for every [q] in \[0, 1).  (Over the real
    numbers, where the equalities are exact.) *)
Theorem E_of_q_q_of_E_inverse (self : Hernquist.t R) :
  (Hernquist.phi_of_0 self < 0)%R ->
  (forall E : R, (E <= 0)%R ->
     Hernquist.E_of_q self (Hernquist.q_of_E self E) = E)
  /\ (forall q : R, (0 <= q)%R -> (q < 1)%R ->
        Hernquist.q_of_E self (Hernquist.E_of_q self q) = q).
Proof.
  intros Hphi. unfold Hernquist.E_of_q, Hernquist.q_of_E. simpl.
  set (phi := Hernquist.phi_of_0 self) in *.
  split.
  - intros E HE.
    assert (Hq : (0 <= E / phi)%R).
    { unfold Rdiv. replace (E * / phi)%R with ((- E) * / (- phi))%R.
      - apply Rmult_le_pos; [lra|]. left. apply Rinv_0_lt_compat. lra.
      - field. lra. }
    rewrite sqrt_sqrt by exact Hq. field. lra.
  - intros q Hq0 Hq1.
    replace (phi * (q * q) / phi)%R with (q * q)%R by (field; lra).
    apply sqrt_square. exact Hq0.
Qed.

(** The round trips on the unit halo, whose central potential is -1. *)
Lemma E_of_q_q_of_E_inverse_witness :
  Hernquist.E_of_q unit_halo_R (Hernquist.q_of_E unit_halo_R (-0.25)%R) = (-0.25)%R
  /\ Hernquist.q_of_E unit_halo_R (Hernquist.E_of_q unit_halo_R 0.5%R) = 0.5%R.
Proof.
  destruct (E_of_q_q_of_E_inverse unit_halo_R) as [HE Hq].
  - simpl. lra.
  - split; [apply HE; lra|apply Hq; lra].
Defined.

(** ** Construction of a model *)

Section InitProps.
Context {F : Type} `{!Scalar F} `{!Libm F}.
Import Hernquist.

Lemma np_linspace_length (start stop : F) (num : nat) :
  length (np_linspace start stop num) = num.
Proof.
  unfold np_linspace.
  destruct (decide (1 < num)%nat); [rewrite length_insert|];
    destruct (_ && _); rewrite !length_map, length_seq; reflexivity.
Qed.

Lemma np_logspace_length (start stop : F) (num : nat) :
  length (np_logspace start stop num) = num.
Proof. unfold np_logspace. rewrite length_map. apply np_linspace_length. Qed.

(** The name [pot] is not among the globals of the module. *)
Lemma module_globals_pot (have_arepo : bool) :
  (module_globals (F := F) have_arepo) !! "pot" = None.
Proof. destruct have_arepo; reflexivity. Qed.

(** With no global [pot], the first pass through the loop of
    [_init_maxval_list_] raises [NameError]. *)
Lemma _init_maxval_list_unbound_pot (globals : gmap string (pyobj F)) (self : Hernquist.t F)
    (log10rmin log10rmax : F) (n : nat) (w : world F) :
  globals !! "pot" = None ->
  _init_maxval_list_ globals self log10rmin log10rmax (S n) w = Raises (NameError "pot").
Proof.
  intros Hpot. unfold _init_maxval_list_.
  pose proof (np_logspace_length log10rmin log10rmax (S n)) as Hlen.
  simpl _r_list_.
  destruct (np_logspace log10rmin log10rmax (S n)) as [|r0 rest]; [discriminate Hlen|].
  simpl. unfold mbind, Py_bind, bind, alloc, global_pot. simpl.
  rewrite Hpot. reflexivity.
Qed.

(** C2.  On the code as it stands the construction of a model does not
    succeed: for all parameters, [Hernquist(M, a, ...)] raises
    [NameError] for the name [pot], which line 90 reads in place of
    [self], on the first grid radius; no envelope table is stored. *)
Theorem init_raises_NameError (have_arepo : bool)
    (M0 a0 UnitLength UnitMass UnitVelocity : F) (w : world F) :
  __init__ (module_globals have_arepo) M0 a0 UnitLength UnitMass UnitVelocity w
  = Raises (NameError "pot").
Proof.
  unfold __init__. change 10000%nat with (S 9999).
  apply _init_maxval_list_unbound_pot. apply module_globals_pot.
Qed.

(** When the module's namespace does bind [pot] to an instance, it is that
    instance's target the table is built from, whatever [self] is. *)
Lemma global_pot_bound (globals : gmap string (pyobj F)) (other : Hernquist.t F) (w : world F) :
  global_pot (<["pot" := PyInstance other]> globals) w = Returns (other, w).
Proof. unfold global_pot. rewrite lookup_insert_eq. reflexivity. Qed.

End InitProps.

(** The constants of the binary64 unit halo are those lines 70-77 compute
    from [G = M = a = 1], with [np.pi**2] and [np.pi**3] correctly
    rounded. *)
Lemma unit_halo_constants :
  Hernquist.init_parameters (Libm0 := libm_values) unit_halo 1%float 1%float = unit_halo.
Proof. vm_compute. reflexivity. Qed.

(** ** Velocity dispersion *)

Section SigmasqFloat.
Context (lm : Libm float).
Hypothesis log_inf : np_log infinity = infinity.
Hypothesis pow_one : np_power 1%float 3%float = 1%float.
Hypothesis pow_zero : np_power 0%float 3%float = 0%float.
Import Hernquist.

(** At [r = 0] the closed form is [inf * 0]: NaN. *)
Lemma sigmasq_closed_form_at_zero :
  sigmasq_closed_form unit_halo (0 / 1)%float = nan.
Proof.
  unfold sigmasq_closed_form. cbn. float_lits.
  change (1 + 1 / 0)%float with infinity.
  change (1 + 0)%float with 1%float.
  rewrite log_inf, pow_one, pow_zero. reflexivity.
Qed.

(** C9.  [_sigmasq_] does not return 0 at every radius where the closed
    form is NaN: on two radii equal to 0 the guard of lines 270-273 takes
    the truth value of a two-element array and the call raises
    [ValueError]; on a single radius 0 it returns 0. *)
Theorem sigmasq_two_zero_radii_raise :
  _sigmasq_ unit_halo [0%float; 0%float]
  = Raises (ValueError "The truth value of an array with more than one element is ambiguous")
  /\ _sigmasq_ unit_halo [0%float] = Returns [0%float].
Proof.
  split; unfold _sigmasq_; cbn [map a unit_halo fdiv float_scalar];
    rewrite sigmasq_closed_form_at_zero; reflexivity.
Qed.

End SigmasqFloat.

(** [sigmasq_two_zero_radii_raise] with the special values of the C
    standard. *)
Lemma sigmasq_two_zero_radii_raise_witness :
  Hernquist._sigmasq_ (Libm0 := libm_special_values) unit_halo [0%float; 0%float]
  = Raises (ValueError "The truth value of an array with more than one element is ambiguous")
  /\ Hernquist._sigmasq_ (Libm0 := libm_special_values) unit_halo [0%float] = Returns [0%float].
Proof.
  apply (sigmasq_two_zero_radii_raise libm_special_values); reflexivity.
Defined.

(** ** The differential mass function, element by element *)

Section dMdEProps.
Context {F : Type} `{!Scalar F} `{!Libm F}.
Import Hernquist.

Lemma zip_with_map_same {A B C D} (h : B -> C -> D) (f : A -> B) (g : A -> C) (l : list A) :
  zip_with h (map f l) (map g l) = map (fun x => h (f x) (g x)) l.
Proof. induction l as [|x l IH]; simpl; [reflexivity|]. rewrite IH. reflexivity. Qed.

Lemma zip_with_map_r_same {A B C} (h : A -> B -> C) (g : A -> B) (l : list A) :
  zip_with h l (map g l) = map (fun x => h x (g x)) l.
Proof. induction l as [|x l IH]; simpl; [reflexivity|]. rewrite IH. reflexivity. Qed.

(** [dMdE] applies [dMdE_of_q] to every element of [q]. *)
Lemma dMdE_pointwise (self : Hernquist.t F) (E : list F) (convert_to_q : bool) :
  dMdE self E convert_to_q
  = map (dMdE_of_q self) (if convert_to_q then map (q_of_E self) E else E).
Proof.
  unfold dMdE. set (q := if convert_to_q then map (q_of_E self) E else E).
  rewrite zip_with_map_same.
  rewrite (assign_array_at_where (fun x => (lit 1 - x <? lit 1e-4)%S) (_dMdE_close_to_1_ self))
    by (rewrite length_map; reflexivity).
  rewrite zip_with_map_r_same.
  rewrite (assign_array_at_where (fun x => (x <? lit 1e-3)%S) (_dMdE_close_to_0_ self))
    by (rewrite length_map; reflexivity).
  rewrite zip_with_map_r_same. reflexivity.
Qed.

End dMdEProps.

(** * The differential mass function over the reals *)

Section RealAnalysis.
Open Scope R_scope.

(** ** Taylor polynomials of sine and cosine *)

Lemma sin_taylor (a : R) :
  0 <= a -> a <= 4 ->
  a - a^3/6 <= sin a
  /\ sin a <= a - a^3/6 + a^5/120
  /\ a - a^3/6 + a^5/120 - a^7/5040 <= sin a
  /\ sin a <= a - a^3/6 + a^5/120 - a^7/5040 + a^9/362880
  /\ a - a^3/6 + a^5/120 - a^7/5040 + a^9/362880 - a^11/39916800 <= sin a.
Proof.
  intros H0 H4.
  pose proof (pre_sin_bound a 0 H0 H4) as [L0 U0].
  pose proof (pre_sin_bound a 1 H0 H4) as [L1 U1].
  pose proof (pre_sin_bound a 2 H0 H4) as [L2 _].
  unfold sin_approx, sin_term in *.
  cbn [Nat.mul Nat.add sum_f_R0] in *.
  revert L0 U0 L1 U1 L2. fact_values. intros.
  repeat split; lra.
Qed.

Lemma cos_taylor (a : R) :
  -2 <= a -> a <= 2 ->
  1 - a^2/2 <= cos a
  /\ cos a <= 1 - a^2/2 + a^4/24
  /\ cos a <= 1 - a^2/2 + a^4/24 - a^6/720 + a^8/40320
  /\ 1 - a^2/2 + a^4/24 - a^6/720 + a^8/40320 - a^10/3628800 <= cos a.
Proof.
  intros H0 H4.
  pose proof (pre_cos_bound a 0 H0 H4) as [L0 U0].
  pose proof (pre_cos_bound a 1 H0 H4) as [_ U1].
  pose proof (pre_cos_bound a 2 H0 H4) as [L2 _].
  unfold cos_approx, cos_term in *.
  cbn [Nat.mul Nat.add sum_f_R0] in *.
  revert L0 U0 U1 L2. fact_values. intros.
  repeat split; lra.
Qed.

(** ** Multiple angles *)

Lemma sin_4a x : sin (4 * x) = 2 * (2 * sin x * cos x) * (cos x * cos x - sin x * sin x).
Proof.
  replace (4 * x) with (2 * (2 * x)) by ring.
  rewrite sin_2a. rewrite (sin_2a x), (cos_2a x). ring.
Qed.

Lemma cos_4a x : cos (4 * x) =
  (cos x * cos x - sin x * sin x) * (cos x * cos x - sin x * sin x)
  - (2 * sin x * cos x) * (2 * sin x * cos x).
Proof.
  replace (4 * x) with (2 * (2 * x)) by ring.
  rewrite cos_2a. rewrite (sin_2a x), (cos_2a x). ring.
Qed.

Lemma sin_8a x : sin (8 * x) = 2 * sin (4 * x) * cos (4 * x).
Proof. replace (8 * x) with (2 * (4 * x)) by ring. apply sin_2a. Qed.

Lemma sin_6a x : sin (6 * x) = sin (4 * x) * cos (2 * x) + cos (4 * x) * sin (2 * x).
Proof. replace (6 * x) with (4 * x + 2 * x) by ring. apply sin_plus. Qed.

Lemma sin_cos_sq x : sin x * sin x + cos x * cos x = 1.
Proof. pose proof (sin2_cos2 x) as H. unfold Rsqr in H. exact H. Qed.

(** q = sin x *)
Lemma Fnum_sin x :
  let s := sin x in let c := cos x in
  ((1 - s * s) - s * s) * (s * (c * (8 * (s * s * (s * s) - s * s) - 3)))
  = sin (8 * x) / 8 - sin (4 * x).
Proof.
  intros s c. rewrite sin_8a, cos_4a, sin_4a. fold s c.
  pose proof (sin_cos_sq x) as H. fold s c in H.
  apply Rmult_eq_reg_l with 8; [|lra].
  match goal with |- _ = 8 * (?u / 8 - ?v) => replace (8 * (u / 8 - v)) with (u - 8 * v) by field end.
  nsatz.
Qed.

(** q = cos x *)
Lemma Fnum_cos x :
  let s := sin x in let c := cos x in
  ((1 - c * c) - c * c) * (c * (s * (8 * (c * c * (c * c) - c * c) - 3)))
  = sin (4 * x) - sin (8 * x) / 8.
Proof.
  intros s c. rewrite sin_8a, cos_4a, sin_4a. fold s c.
  pose proof (sin_cos_sq x) as H. fold s c in H.
  apply Rmult_eq_reg_l with 8; [|lra].
  match goal with |- _ = 8 * (?v - ?u / 8) => replace (8 * (v - u / 8)) with (8 * v - u) by field end.
  nsatz.
Qed.

Lemma Gnum_cos x :
  let s := sin x in let c := cos x in
  (8 * (c * c * (c * c)) - 4 * (c * c) + 1) * x * 3
    - s * (4 * (c * c) - 1) * (2 * (c * c) + 3) * c
  = 3 * x * (2 + 2 * cos (2 * x) + cos (4 * x))
    - 9 / 4 * (sin (2 * x) + sin (4 * x)) - 1 / 4 * sin (6 * x).
Proof.
  intros s c. rewrite sin_6a, cos_4a, sin_4a, sin_2a, cos_2a. fold s c.
  pose proof (sin_cos_sq x) as H. fold s c in H.
  apply Rmult_eq_reg_l with 4; [|lra].
  match goal with |- _ = 4 * (?u - 9 / 4 * ?v - 1 / 4 * ?w) =>
    replace (4 * (u - 9 / 4 * v - 1 / 4 * w)) with (4 * u - 9 * v - w) by field end.
  nsatz.
Qed.

(** ** The brackets near the ends of the domain *)

Lemma angle_F_bounds (x : R) :
  0 <= x -> x <= 1 / 2 ->
  128 / 5 * x ^ 5 - 53 * x ^ 7 <= angle_F x <= 128 / 5 * x ^ 5 + 4 * x ^ 7.
Proof.
  intros H0 H1. unfold angle_F.
  destruct (sin_taylor (4 * x)) as (_ & U4 & L4 & _); [lra|lra|].
  destruct (sin_taylor (8 * x)) as (_ & U8 & L8 & _); [lra|lra|].
  assert (H7 : 0 <= x ^ 7) by (apply pow_le; lra).
  split.
  - apply Rle_trans with
      (3 * x - (4 * x - (4 * x) ^ 3 / 6 + (4 * x) ^ 5 / 120)
       + (8 * x - (8 * x) ^ 3 / 6 + (8 * x) ^ 5 / 120 - (8 * x) ^ 7 / 5040) / 8); [|lra].
    match goal with |- ?l <= ?r =>
      replace r with (l + (53 - 2097152 / 40320) * x ^ 7) by field end.
    lra.
  - apply Rle_trans with
      (3 * x - (4 * x - (4 * x) ^ 3 / 6 + (4 * x) ^ 5 / 120 - (4 * x) ^ 7 / 5040)
       + (8 * x - (8 * x) ^ 3 / 6 + (8 * x) ^ 5 / 120) / 8); [lra|].
    match goal with |- ?l <= ?r =>
      replace l with (r - (4 - 16384 / 5040) * x ^ 7) by field end.
    lra.
Qed.

Lemma angle_G_bounds (x : R) :
  0 <= x -> x <= 1 / 2 ->
  128 / 35 * x ^ 7 - 128 / 35 * x ^ 9 - x ^ 11 <= angle_G x
  /\ angle_G x <= 128 / 35 * x ^ 7 - 128 / 35 * x ^ 9 + 3 * x ^ 11.
Proof.
  intros H0 H1. unfold angle_G.
  destruct (sin_taylor (2 * x)) as (_ & _ & _ & U2 & L2); [lra|lra|].
  destruct (sin_taylor (4 * x)) as (_ & _ & _ & U4 & L4); [lra|lra|].
  destruct (sin_taylor (6 * x)) as (_ & _ & _ & U6 & L6); [lra|lra|].
  destruct (cos_taylor (2 * x)) as (_ & _ & CU2 & CL2); [lra|lra|].
  destruct (cos_taylor (4 * x)) as (_ & _ & CU4 & CL4); [lra|lra|].
  assert (H11 : 0 <= x ^ 11) by (apply pow_le; lra).
  set (s9 := fun a : R => a - a^3/6 + a^5/120 - a^7/5040 + a^9/362880) in *.
  set (c8 := fun a : R => 1 - a^2/2 + a^4/24 - a^6/720 + a^8/40320) in *.
  split.
  - apply Rle_trans with
      (3 * x * (2 + 2 * (c8 (2 * x) - (2 * x)^10/3628800) + (c8 (4 * x) - (4 * x)^10/3628800))
       - 9 / 4 * (s9 (2 * x) + s9 (4 * x)) - 1 / 4 * s9 (6 * x)).
    + match goal with |- ?l <= ?r =>
        replace r with (l + (1 - 3 * (2 * 1024 + 1048576) / 3628800) * x ^ 11)
          by (unfold s9, c8; field) end.
      lra.
    + unfold s9, c8 in *.
      assert (Hm : forall u v : R, u <= v -> 3 * x * u <= 3 * x * v)
        by (intros u v Huv; apply Rmult_le_compat_l; lra).
      pose proof (Hm _ _ CL2) as M2. pose proof (Hm _ _ CL4) as M4. lra.
  - apply Rle_trans with
      (3 * x * (2 + 2 * c8 (2 * x) + c8 (4 * x))
       - 9 / 4 * ((s9 (2 * x) - (2 * x)^11/39916800) + (s9 (4 * x) - (4 * x)^11/39916800))
       - 1 / 4 * (s9 (6 * x) - (6 * x)^11/39916800)).
    + unfold s9, c8 in *.
      assert (Hm : forall u v : R, u <= v -> 3 * x * u <= 3 * x * v)
        by (intros u v Huv; apply Rmult_le_compat_l; lra).
      pose proof (Hm _ _ CU2) as M2. pose proof (Hm _ _ CU4) as M4. lra.
    + match goal with |- ?l <= ?r =>
        replace l with (r - (3 - (9 / 4 * (2048 + 4194304) + 1 / 4 * 362797056) / 39916800) * x ^ 11)
          by (unfold s9, c8; field) end.
      lra.
Qed.

(** ** The angles of the two boundaries *)

(** acos 0.9999 *)
Lemma acos_near_one :
  let x := acos 0.9999 in
  cos x = 0.9999 /\ sin x = sqrt (1 - 0.9999 * 0.9999)
  /\ asin 0.9999 = PI / 2 - x
  /\ 0 < x /\ x <= 1 / 2 /\ 2e-4 <= x ^ 2 /\ x ^ 2 <= 2.0001e-4.
Proof.
  intros x.
  assert (Hr : -1 <= 0.9999 <= 1) by lra.
  assert (Hc : cos x = 0.9999) by (apply cos_acos; exact Hr).
  assert (Hs : sin x = sqrt (1 - 0.9999 * 0.9999)) by (apply (sin_acos 0.9999); exact Hr).
  assert (Ha : asin 0.9999 = PI / 2 - x) by (apply asin_acos; exact Hr).
  destruct (acos_bound_lt 0.9999) as [Hx0 Hxpi]; [lra|]. fold x in Hx0, Hxpi.
  assert (Hpi4 := PI_4).
  assert (Hx2 : x < PI / 2).
  { destruct (Rlt_le_dec x (PI / 2)) as [H|H]; [exact H|].
    assert (cos x <= 0) by (apply cos_le_0; lra). lra. }
  destruct (cos_taylor x) as (L2 & U4 & _); [lra|lra|]. rewrite Hc in L2, U4.
  assert (Ht0 : 0 <= x ^ 2) by (apply pow2_ge_0).
  assert (Ht4 : x ^ 2 <= 4) by nra.
  assert (Hlo : 2e-4 <= x ^ 2) by lra.
  assert (Hhi : x ^ 2 <= 2.0001e-4).
  { replace (x ^ 4) with (x ^ 2 * x ^ 2) in U4 by ring. nra. }
  repeat split; try assumption. nra.
Qed.

(** asin 0.001 *)
Lemma asin_near_zero :
  let x := asin 0.001 in
  sin x = 0.001 /\ cos x = sqrt (1 - 0.001 * 0.001)
  /\ acos 0.001 = PI / 2 - x
  /\ 0.001 <= x /\ x <= 0.001000002.
Proof.
  intros x.
  assert (Hr : -1 <= 0.001 <= 1) by lra.
  assert (Hs : sin x = 0.001) by (apply sin_asin; exact Hr).
  assert (Hc : cos x = sqrt (1 - 0.001 * 0.001)) by (apply (cos_asin 0.001); exact Hr).
  assert (Ha : acos 0.001 = PI / 2 - x) by (apply acos_asin; exact Hr).
  destruct (asin_bound_lt 0.001) as [Hlo Hhi]; [lra|]. fold x in Hlo, Hhi.
  assert (Hpi4 := PI_4). assert (Hpi0 := PI_RGT_0).
  assert (Hx0 : 0 < x).
  { destruct (Rlt_le_dec 0 x) as [H|H]; [exact H|].
    assert (0 <= sin (- x)) by (apply sin_ge_0; lra).
    rewrite sin_neg in *. lra. }
  destruct (sin_taylor x) as (L3 & U5 & _); [lra|lra|]. rewrite Hs in L3, U5.
  assert (Hx3 : x <= 0.003).
  { assert (x ^ 2 <= 4) by nra.
    replace (x ^ 3) with (x * x ^ 2) in L3 by ring. nra. }
  assert (Hup : x <= 0.001000002).
  { assert (x ^ 2 <= 0.000009) by nra.
    replace (x ^ 3) with (x * x ^ 2) in L3 by ring. nra. }
  assert (Hge : 0.001 <= x).
  { assert (H5 : x ^ 5 = x ^ 3 * x ^ 2) by ring.
    assert (0 <= x ^ 3) by (apply pow_le; lra).
    assert (x ^ 2 <= 0.000009) by nra. nra. }
  repeat split; assumption.
Qed.

(** ** Agreement at the boundaries *)

Lemma bernoulli (n : nat) (u : R) : 0 <= u -> u <= 1 -> 1 - INR n * u <= (1 - u) ^ n.
Proof.
  intros H0 H1. induction n as [|n IH].
  - simpl. lra.
  - rewrite S_INR. simpl pow.
    assert (Hp : 0 <= (1 - u) ^ n) by (apply pow_le; lra).
    assert (Hn : 0 <= INR n) by apply pos_INR.
    destruct (Rle_lt_dec 0 (1 - INR n * u)) as [Hpos|Hneg]; nra.
Qed.

Lemma rel_close (N S' D tol : R) :
  0 < D -> Rabs (N - S') <= tol * S' -> Rabs (N / D - S' / D) <= tol * (S' / D).
Proof.
  intros HD H.
  replace (N / D - S' / D) with ((N - S') * / D) by (field; lra).
  rewrite Rabs_mult, (Rabs_pos_eq (/ D)) by (left; apply Rinv_0_lt_compat; exact HD).
  replace (tol * (S' / D)) with (tol * S' * / D) by (field; lra).
  apply Rmult_le_compat_r; [left; apply Rinv_0_lt_compat; exact HD|exact H].
Qed.

Lemma boundary_near_one :
  let q := 0.9999 in
  let s := sqrt (1 - q * q) in
  0 < s
  /\ Rabs (Fnum q * Gnum q / (12 * PI * s ^ 5 * q ^ 5) - 16 / 35 * (1 - q * q))
     <= 1e-3 * (16 / 35 * (1 - q * q)).
Proof.
  intros q s.
  destruct acos_near_one as (Hc & Hs & Ha & Hx0 & Hx1 & Ht0 & Ht1).
  set (x := acos 0.9999) in *. fold q in Hc, Hs, Ha. fold s in Hs.
  set (t := x ^ 2) in *.
  assert (Hpi3 : 3 < PI) by (pose proof PI2_3_2; lra).
  assert (Hpi4 := PI_4).
  (* the two brackets in terms of the angle *)
  assert (HF : Fnum q = 3 * PI / 2 - angle_F x).
  { unfold Fnum, angle_F. fold s. rewrite Ha. pose proof (Fnum_cos x) as H. simpl in H.
    rewrite Hc, Hs in H. rewrite H. lra. }
  assert (HG : Gnum q = angle_G x).
  { unfold Gnum, angle_G. fold s. pose proof (Gnum_cos x) as H. simpl in H.
    rewrite Hc, Hs in H. change (acos q) with x. exact H. }
  rewrite HF, HG.
  destruct (angle_F_bounds x) as [HE1l HE1u]; [lra|lra|].
  destruct (angle_G_bounds x) as [HGl HGu]; [lra|lra|].
  destruct (sin_taylor x) as (HsL & HsU & _); [lra|lra|]. rewrite Hs in HsL, HsU.
  (* powers of x *)
  assert (Hx3 : x ^ 3 = x * t) by (unfold t; ring).
  assert (Hx5 : x ^ 5 = x * (t * t)) by (unfold t; ring).
  assert (Hx7 : 0 < x ^ 7) by (apply pow_lt; exact Hx0).
  assert (Htt : t * t <= 4.1e-8) by nra.
  assert (Htt0 : 0 <= t * t) by nra.
  (* the sine of the angle *)
  assert (Hs_lo : x * (1 - t / 6) <= s) by (rewrite Hx3 in HsL; lra).
  assert (Hs_hi : s <= x).
  { rewrite Hx3, Hx5 in HsU. nra. }
  assert (Hs0 : 0 < s) by nra.
  split; [exact Hs0|].
  assert (Hss : 1 - q * q = s * s) by (unfold s; rewrite sqrt_sqrt; unfold q; lra).
  rewrite Hss.
  (* angle_F is small *)
  assert (HE0 : 0 <= angle_F x).
  { apply Rle_trans with (128 / 5 * x ^ 5 - 53 * x ^ 7); [|exact HE1l].
    replace (128 / 5 * x ^ 5 - 53 * x ^ 7) with (x ^ 5 * (128 / 5 - 53 * t)) by (unfold t; ring).
    apply Rmult_le_pos; [apply pow_le; lra|lra]. }
  assert (HE1 : angle_F x <= 1e-6).
  { apply Rle_trans with (128 / 5 * x ^ 5 + 4 * x ^ 7); [exact HE1u|].
    replace (128 / 5 * x ^ 5 + 4 * x ^ 7) with (x * ((t * t) * (128 / 5 + 4 * t))) by (unfold t; ring).
    assert ((t * t) * (128 / 5 + 4 * t) <= 2e-6) by nra.
    assert (0 <= (t * t) * (128 / 5 + 4 * t)) by nra.
    nra. }
  (* angle_G between two multiples of x^7 *)
  assert (HGlo : 128 / 35 * (x ^ 7 * (1 - t - 35 / 128 * (t * t))) <= angle_G x).
  { apply Rle_trans with (128 / 35 * x ^ 7 - 128 / 35 * x ^ 9 - x ^ 11); [|exact HGl].
    right. unfold t. field. }
  assert (HGhi : angle_G x <= 128 / 35 * (x ^ 7 * (1 - t + 105 / 128 * (t * t)))).
  { apply Rle_trans with (128 / 35 * x ^ 7 - 128 / 35 * x ^ 9 + 3 * x ^ 11); [exact HGu|].
    right. unfold t. field. }
  assert (HG0 : 0 <= angle_G x).
  { apply Rle_trans with (128 / 35 * (x ^ 7 * (1 - t - 35 / 128 * (t * t)))); [|exact HGlo].
    apply Rmult_le_pos; [lra|]. apply Rmult_le_pos; [lra|nra]. }
  (* s^7 between two multiples of x^7 *)
  assert (Hs7_hi : s ^ 7 <= x ^ 7) by (apply pow_incr; lra).
  assert (Hs7_lo : x ^ 7 * (1 - 7 * (t / 6)) <= s ^ 7).
  { apply Rle_trans with ((x * (1 - t / 6)) ^ 7).
    - rewrite Rpow_mult_distr. apply Rmult_le_compat_l; [lra|].
      pose proof (bernoulli 7 (t / 6)) as Hb. simpl INR in Hb.
      apply Rle_trans with (1 - (1 + 1 + 1 + 1 + 1 + 1 + 1) * (t / 6)); [lra|].
      apply Hb; lra.
    - apply pow_incr. split; [|exact Hs_lo]. apply Rmult_le_pos; lra. }
  assert (Hs7 : 0 < s ^ 7) by (apply pow_lt; exact Hs0).
  assert (Hq5 : q ^ 5 <= 1 /\ 0.9995 <= q ^ 5) by (unfold q; split; lra).
  assert (HD : 0 < 12 * PI * s ^ 5 * q ^ 5).
  { apply Rmult_lt_0_compat; [apply Rmult_lt_0_compat; [lra|apply pow_lt; exact Hs0]|lra]. }
  (* both sides over the common denominator *)
  assert (HS : 16 / 35 * (s * s) = (192 * PI / 35 * (s ^ 7 * q ^ 5)) / (12 * PI * s ^ 5 * q ^ 5)).
  { field. repeat split; try lra. unfold q. lra. }
  rewrite HS. apply rel_close; [exact HD|].
  apply Rabs_le. split.
  - (* product >= 0.999 series *)
    assert (H1 : 192 * PI / 35 * (s ^ 7 * q ^ 5) <= 192 * PI / 35 * x ^ 7).
    { apply Rmult_le_compat_l; [lra|]. nra. }
    assert (H2 : 3 * PI / 2 * (1 - 1e-6) * (128 / 35 * (x ^ 7 * (1 - t - 35 / 128 * (t * t))))
                 <= (3 * PI / 2 - angle_F x) * angle_G x).
    { apply Rmult_le_compat; [nra| |lra|exact HGlo].
      apply Rmult_le_pos; [lra|]. apply Rmult_le_pos; [lra|nra]. }
    assert (H3 : 0.999 * (192 * PI / 35 * x ^ 7)
                 <= 3 * PI / 2 * (1 - 1e-6) * (128 / 35 * (x ^ 7 * (1 - t - 35 / 128 * (t * t))))).
    { replace (3 * PI / 2 * (1 - 1e-6) * (128 / 35 * (x ^ 7 * (1 - t - 35 / 128 * (t * t)))))
        with ((192 * PI / 35 * x ^ 7) * ((1 - 1e-6) * (1 - t - 35 / 128 * (t * t)))) by field.
      rewrite (Rmult_comm 0.999). apply Rmult_le_compat_l; [nra|nra]. }
    lra.
  - (* product <= 1.001 series *)
    assert (H1 : (3 * PI / 2 - angle_F x) * angle_G x
                 <= 3 * PI / 2 * (128 / 35 * (x ^ 7 * (1 - t + 105 / 128 * (t * t))))).
    { apply Rmult_le_compat; [lra|exact HG0|lra|exact HGhi]. }
    assert (H2 : x ^ 7 * (1 - t + 105 / 128 * (t * t)) <= 1.001 * (s ^ 7 * q ^ 5)).
    { apply Rle_trans with (1.001 * ((x ^ 7 * (1 - 7 * (t / 6))) * 0.9995)).
      - replace (1.001 * (x ^ 7 * (1 - 7 * (t / 6)) * 0.9995))
          with (x ^ 7 * (1.001 * 0.9995 * (1 - 7 * (t / 6)))) by ring.
        apply Rmult_le_compat_l; [lra|nra].
      - apply Rmult_le_compat_l; [lra|].
        apply Rmult_le_compat; [|lra|exact Hs7_lo|lra].
        apply Rmult_le_pos; lra. }
    assert (H3 : 3 * PI / 2 * (128 / 35 * (x ^ 7 * (1 - t + 105 / 128 * (t * t))))
                 <= 192 * PI / 35 * (1.001 * (s ^ 7 * q ^ 5))).
    { replace (3 * PI / 2 * (128 / 35 * (x ^ 7 * (1 - t + 105 / 128 * (t * t)))))
        with (192 * PI / 35 * (x ^ 7 * (1 - t + 105 / 128 * (t * t)))) by field.
      apply Rmult_le_compat_l; [lra|exact H2]. }
    lra.
Qed.

Lemma boundary_near_zero :
  let q := 0.001 in
  let c := sqrt (1 - q * q) in
  0 < c
  /\ Rabs (Fnum q * Gnum q / (12 * PI * c ^ 5 * q ^ 5) - 16 / 5 * (1 - 18 / 7 * (q * q)))
     <= 1e-3 * (16 / 5 * (1 - 18 / 7 * (q * q))).
Proof.
  intros q c.
  destruct asin_near_zero as (Hs & Hc & Ha & Hx0 & Hx1).
  set (x := asin 0.001) in *. fold q in Hs, Hc, Ha. fold c in Hc.
  assert (Hpi3 : 3 < PI) by (pose proof PI2_3_2; lra).
  assert (Hpi4 := PI_4).
  (* the cosine of the angle *)
  assert (Hcc : c * c = 1 - q * q) by (unfold c; rewrite sqrt_sqrt; unfold q; lra).
  assert (Hc0 : 0 < c) by (unfold c; apply sqrt_lt_R0; unfold q; lra).
  assert (Hc_hi : c <= 1) by (unfold q in Hcc; nra).
  assert (Hc_lo : 0.999999 <= c) by (unfold q in Hcc; nra).
  split; [exact Hc0|].
  (* the two brackets in terms of the angle *)
  assert (HF : Fnum q = angle_F x).
  { unfold Fnum, angle_F. fold c. pose proof (Fnum_sin x) as H. simpl in H.
    rewrite Hs, Hc in H. rewrite H. change (asin q) with x. lra. }
  assert (HG : Gnum q
               = 3 * PI / 2 * (8 * (q * q * (q * q)) - 4 * (q * q) + 1)
                 + (c * (q * (1 - 4 * (q * q)) * (2 * (q * q) + 3))
                    - 3 * (8 * (q * q * (q * q)) - 4 * (q * q) + 1) * x)).
  { unfold Gnum. fold c. rewrite Ha. field. }
  set (A := 8 * (q * q * (q * q)) - 4 * (q * q) + 1) in *.
  set (Rem := c * (q * (1 - 4 * (q * q)) * (2 * (q * q) + 3)) - 3 * A * x) in *.
  assert (HA : 0.999995 <= A <= 0.999997) by (unfold A, q; lra).
  assert (HR : -1e-7 <= Rem <= 1e-7) by (unfold Rem, A, q in *; lra).
  rewrite HF, HG.
  destruct (angle_F_bounds x) as [HE1l HE1u]; [lra|lra|].
  (* powers of the angle *)
  assert (Hq5 : q ^ 5 = 1e-15) by (unfold q; lra).
  assert (Hx5_lo : q ^ 5 <= x ^ 5) by (apply pow_incr; unfold q; lra).
  assert (Hx5_hi : x ^ 5 <= (0.001000002) ^ 5) by (apply pow_incr; lra).
  assert (Hx5_hi' : x ^ 5 <= 1.00002e-15) by lra.
  assert (Hx2 : x ^ 2 <= 1.1e-6) by nra.
  assert (Hx2' : 0 <= x ^ 2) by apply pow2_ge_0.
  assert (HElo : 128 / 5 * 1e-15 * (1 - 1e-4) <= angle_F x).
  { apply Rle_trans with (128 / 5 * x ^ 5 - 53 * x ^ 7); [|exact HE1l].
    replace (128 / 5 * x ^ 5 - 53 * x ^ 7) with (x ^ 5 * (128 / 5 - 53 * x ^ 2)) by ring.
    apply Rle_trans with (1e-15 * (128 / 5 - 53 * x ^ 2)); [lra|].
    apply Rmult_le_compat_r; lra. }
  assert (HEhi : angle_F x <= 128 / 5 * 1e-15 * (1 + 1e-4)).
  { apply Rle_trans with (128 / 5 * x ^ 5 + 4 * x ^ 7); [exact HE1u|].
    replace (128 / 5 * x ^ 5 + 4 * x ^ 7) with (x ^ 5 * (128 / 5 + 4 * x ^ 2)) by ring.
    apply Rle_trans with (1.00002e-15 * (128 / 5 + 4 * x ^ 2)); [|lra].
    apply Rmult_le_compat_r; lra. }
  assert (Hc5_hi : c ^ 5 <= 1).
  { replace 1 with (1 ^ 5) by ring. apply pow_incr. lra. }
  assert (Hc5_lo : 0.999995 <= c ^ 5).
  { apply Rle_trans with (0.999999 ^ 5); [lra|]. apply pow_incr. lra. }
  assert (HD : 0 < 12 * PI * c ^ 5 * q ^ 5).
  { rewrite Hq5. apply Rmult_lt_0_compat; [apply Rmult_lt_0_compat; [lra|lra]|lra]. }
  set (S0 := 16 / 5 * (1 - 18 / 7 * (q * q))).
  assert (HS0 : 3.19999 <= S0 <= 3.2) by (unfold S0, q; lra).
  assert (HS : S0 = S0 * (12 * PI * c ^ 5 * q ^ 5) / (12 * PI * c ^ 5 * q ^ 5)).
  { field. repeat split; unfold q; lra. }
  rewrite HS at 1 2. apply rel_close; [exact HD|].
  rewrite Hq5.
  set (Gv := 3 * PI / 2 * A + Rem).
  assert (HGv_lo : 3 * PI / 2 * A - 1e-7 <= Gv) by (unfold Gv; lra).
  assert (HGv_hi : Gv <= 3 * PI / 2 * A + 1e-7) by (unfold Gv; lra).
  assert (HGv0 : 0 <= 3 * PI / 2 * A - 1e-7) by nra.
  assert (Hprod_lo : 128 / 5 * 1e-15 * (1 - 1e-4) * (3 * PI / 2 * A - 1e-7) <= angle_F x * Gv).
  { apply Rmult_le_compat; [lra|exact HGv0|exact HElo|exact HGv_lo]. }
  assert (Hprod_hi : angle_F x * Gv <= 128 / 5 * 1e-15 * (1 + 1e-4) * (3 * PI / 2 * A + 1e-7)).
  { apply Rmult_le_compat; [lra|lra|exact HEhi|exact HGv_hi]. }
  assert (HPA_lo : 0.999995 * PI <= PI * A) by nra.
  assert (HPA_hi : PI * A <= 0.999997 * PI) by nra.
  assert (HPc_lo : 0.999995 * (S0 * PI) <= S0 * PI * c ^ 5).
  { rewrite (Rmult_comm 0.999995). apply Rmult_le_compat_l; [nra|exact Hc5_lo]. }
  assert (HPc_hi : S0 * PI * c ^ 5 <= S0 * PI).
  { rewrite <- (Rmult_1_r (S0 * PI)) at 2. apply Rmult_le_compat_l; [nra|exact Hc5_hi]. }
  assert (HSP_lo : 3.19999 * PI <= S0 * PI) by nra.
  assert (HSP_hi : S0 * PI <= 3.2 * PI) by nra.
  replace (S0 * (12 * PI * c ^ 5 * 1e-15)) with (12e-15 * (S0 * PI * c ^ 5)) by field.
  apply Rabs_le. split.
  - apply Rle_trans with
      (128 / 5 * 1e-15 * (1 - 1e-4) * (3 * PI / 2 * A - 1e-7) - 12e-15 * (S0 * PI * c ^ 5)); [|lra].
    replace (128 / 5 * 1e-15 * (1 - 1e-4) * (3 * PI / 2 * A - 1e-7))
      with (128 / 5 * 1e-15 * (1 - 1e-4) * (3 / 2) * (PI * A) - 128 / 5 * 1e-15 * (1 - 1e-4) * 1e-7)
      by field.
    lra.
  - apply Rle_trans with
      (128 / 5 * 1e-15 * (1 + 1e-4) * (3 * PI / 2 * A + 1e-7) - 12e-15 * (S0 * PI * c ^ 5)); [lra|].
    replace (128 / 5 * 1e-15 * (1 + 1e-4) * (3 * PI / 2 * A + 1e-7))
      with (128 / 5 * 1e-15 * (1 + 1e-4) * (3 / 2) * (PI * A) + 128 / 5 * 1e-15 * (1 + 1e-4) * 1e-7)
      by field.
    lra.
Qed.

End RealAnalysis.

(** ** From the code to the brackets *)

Section RealModel.
Import Hernquist.
Open Scope R_scope.

Lemma Q2R_Z (z : Z) : Q2R (z # 1) = IZR z.
Proof. unfold Q2R. simpl. field. Qed.

Lemma Rpower_2 (x : R) : 0 < x -> Rpower x 2 = x ^ 2.
Proof. intros Hx. rewrite <- (Rpower_pow 2 x Hx). reflexivity. Qed.

Lemma Rpower_3 (x : R) : 0 < x -> Rpower x 3 = x ^ 3.
Proof. intros Hx. rewrite <- (Rpower_pow 3 x Hx). f_equal. simpl. lra. Qed.

Lemma Rpower_neg5 (x : R) : 0 < x -> Rpower x (-5) = / x ^ 5.
Proof.
  intros Hx. replace (-5) with (- INR 5) by (simpl; lra).
  rewrite Rpower_Ropp, Rpower_pow by exact Hx. reflexivity.
Qed.

(** [(s^2) ** (-5/2) = 1 / s^5] for positive [s]. *)
Lemma Rpower_sq_neg_5_2 (s : R) : 0 < s -> Rpower (s * s) (-5 / 2) = / s ^ 5.
Proof.
  intros Hs. replace (s * s) with (Rpower s 2) by (rewrite Rpower_2 by exact Hs; ring).
  rewrite Rpower_mult. replace (2 * (-5 / 2)) with (-5) by field.
  apply Rpower_neg5. exact Hs.
Qed.

Lemma Rpower_pos (x y : R) : 0 < Rpower x y.
Proof. unfold Rpower. apply exp_pos. Qed.

Lemma product_R (self0 : Hernquist.t R) (M a q : R) :
  0 < G self0 -> 0 < M -> 0 < a -> 0 < q -> q < 1 ->
  let self := init_parameters self0 M a in
  f_of_q self q * g_of_q self q
  = M / (vg self) ^ 2 * (Fnum q * Gnum q / (12 * PI * sqrt (1 - q * q) ^ 5 * q ^ 5)).
Proof.
  intros HG HM Ha Hq0 Hq1 self.
  unfold f_of_q, g_of_q, _f_of_q. subst self. unfold init_parameters. simpl.
  rewrite !Q2R_Z.
  set (vg0 := Rpower (G self0 * M / a) 0.5).
  assert (Hvg : 0 < vg0) by apply Rpower_pos.
  assert (Hs2 : 0 < 1 - q * q) by nra.
  set (s := sqrt (1 - q * q)).
  assert (Hs : 0 < s) by (apply sqrt_lt_R0; exact Hs2).
  assert (Hss : 1 - q * q = s * s) by (unfold s; rewrite sqrt_sqrt; lra).
  assert (Hpi : 0 < PI) by apply PI_RGT_0.
  assert (Hr2 : 0 < sqrt 2) by (apply sqrt_lt_R0; lra).
  rewrite (Rpower_3 PI), (Rpower_3 a), (Rpower_3 vg0), (Rpower_2 PI) by assumption.
  rewrite (Rpower_neg5 q) by assumption.
  replace (Rpower (1 - q * q) (-5 / 2)) with (/ s ^ 5)
    by (rewrite Hss; symmetry; apply Rpower_sq_neg_5_2; exact Hs).
  unfold Fnum, Gnum. fold s.
  field. repeat split; lra.
Qed.

End RealModel.

(** ** The substitutions of [dMdE] *)

Section dMdEClaim.
Import Hernquist.
Open Scope R_scope.

Lemma vg_positive (self0 : Hernquist.t R) (M0 a0 : R) :
  0 < vg (init_parameters self0 M0 a0).
Proof. unfold init_parameters. simpl. apply Rpower_pos. Qed.

(** The series near [q = 1] on a model built by [__init__]. *)
Lemma close_to_1_R (self0 : Hernquist.t R) (M0 a0 q : R) :
  let self := init_parameters self0 M0 a0 in
  _dMdE_close_to_1_ self q = 16 / 35 * (M0 / vg self ^ 2) * (1 - q ^ 2).
Proof.
  intros self. pose proof (vg_positive self0 M0 a0) as Hvg. fold self in Hvg.
  unfold _dMdE_close_to_1_. cbn [np_power R_libm lit fmul fdiv fsub R_scalar].
  rewrite !Q2R_Z. rewrite Rpower_2 by exact Hvg.
  replace (Q2R 0.5) with (1 / 2) by (Q2R_value 0.5%Q; lra).
  replace (M self) with M0 by reflexivity.
  field. apply Rgt_not_eq. exact Hvg.
Qed.

(** The series near [q = 0] on a model built by [__init__]. *)
Lemma close_to_0_R (self0 : Hernquist.t R) (M0 a0 q : R) :
  let self := init_parameters self0 M0 a0 in
  _dMdE_close_to_0_ self q = 16 / 5 * (M0 / vg self ^ 2) * (1 - 18 / 7 * q ^ 2).
Proof.
  intros self. pose proof (vg_positive self0 M0 a0) as Hvg. fold self in Hvg.
  unfold _dMdE_close_to_0_. cbn [np_power R_libm lit fmul fdiv fsub R_scalar].
  rewrite !Q2R_Z. rewrite Rpower_2 by exact Hvg.
  replace (M self) with M0 by reflexivity.
  field. apply Rgt_not_eq. exact Hvg.
Qed.

Lemma Rabs_scale (K H S tol : R) :
  0 < K -> Rabs (H - S) <= tol * S -> Rabs (K * H - K * S) <= tol * (K * S).
Proof.
  intros HK Hclose. rewrite <- Rmult_minus_distr_l, Rabs_mult, (Rabs_pos_eq K) by lra.
  replace (tol * (K * S)) with (K * (tol * S)) by ring.
  apply Rmult_le_compat_l; lra.
Qed.

(** C5 (as the code has it).  [dMdE] works element by element, on any
    scalar type: it returns the series near [q = 0] where the test
    [q < 1e-3] holds, else the series near [q = 1] where the test
    [1 - q < 1e-4] holds, else the product [f(q) g(q)].  In binary64 the
    second test holds at 0.9999 (the difference [1 - 0.9999] is rounded
    below 1e-4) and fails at [q_inside], the next number below, whatever
    the model and the mathematical library are.  Over the real numbers,
    on a model built by [__init__] from positive [G], [M] and [a]: the
    series near 1 is [(16/35) (M/vg^2) (1 - q^2)], the series near 0 is
    [(16/5) (M/vg^2) (1 - (18/7) q^2)], the product is returned for
    [1e-3 <= q <= 1 - 1e-4], and at each boundary, [q = 1 - 1e-4] and
    [q = 1e-3], the two formulas differ by at most one part in a
    thousand.  (This agreement is one of the exact formulas: see
    [dMdE_product_off_in_binary64] for the numbers the program
    computes.) *)
Theorem dMdE_series_substitutions (self0 : Hernquist.t R) (M0 a0 : R) :
  0 < G self0 -> 0 < M0 -> 0 < a0 ->
  let self := init_parameters self0 M0 a0 in
  let K := M0 / vg self ^ 2 in
  (forall (F : Type) (SF : Scalar F) (LF : Libm F) (h : Hernquist.t F) (E : list F)
          (convert_to_q : bool),
     dMdE h E convert_to_q
     = map (dMdE_of_q h) (if convert_to_q then map (q_of_E h) E else E))
  /\ (forall (LF : Libm float) (h : Hernquist.t float),
        dMdE_of_q h 0.9999%float = _dMdE_close_to_1_ h 0.9999%float
        /\ dMdE_of_q h q_inside = (f_of_q h q_inside * g_of_q h q_inside)%S)
  /\ (forall q : R, 1 - q < 1e-4 -> dMdE_of_q self q = 16 / 35 * K * (1 - q ^ 2))
  /\ (forall q : R, q < 1e-3 -> dMdE_of_q self q = 16 / 5 * K * (1 - 18 / 7 * q ^ 2))
  /\ (forall q : R, 1e-3 <= q -> 1e-4 <= 1 - q ->
        dMdE_of_q self q = f_of_q self q * g_of_q self q)
  /\ Rabs (f_of_q self 0.9999 * g_of_q self 0.9999 - _dMdE_close_to_1_ self 0.9999)
     <= 1e-3 * _dMdE_close_to_1_ self 0.9999
  /\ Rabs (f_of_q self 0.001 * g_of_q self 0.001 - _dMdE_close_to_0_ self 0.001)
     <= 1e-3 * _dMdE_close_to_0_ self 0.001.
Proof.
  intros HG HM Ha self K.
  pose proof (vg_positive self0 M0 a0) as Hvg. fold self in Hvg.
  assert (HK : 0 < K).
  { unfold K. apply Rdiv_lt_0_compat; [exact HM|apply pow_lt; exact Hvg]. }
  assert (Hlit3 : Q2R 1e-3 = 1e-3) by (Q2R_value 1e-3%Q; lra).
  assert (Hlit4 : Q2R 1e-4 = 1e-4) by (Q2R_value 1e-4%Q; lra).
  assert (Hlit1 : Q2R 1 = 1) by (Q2R_value 1%Q; lra).
  split; [intros F SF LF h E convert_to_q; apply dMdE_pointwise|].
  split; [intros LF h; split; reflexivity|].
  split; [|split; [|split; [|split]]].
  - intros q Hq. unfold dMdE_of_q. cbn [fltb fsub lit R_scalar].
    rewrite Hlit3, Hlit4, Hlit1.
    rewrite (Rltb_false q 1e-3) by lra. rewrite (Rltb_true (1 - q) 1e-4) by lra.
    apply close_to_1_R.
  - intros q Hq. unfold dMdE_of_q. cbn [fltb fsub lit R_scalar].
    rewrite Hlit3. rewrite (Rltb_true q 1e-3) by lra.
    apply close_to_0_R.
  - intros q Hq0 Hq1. unfold dMdE_of_q. cbn [fltb fsub lit fmul R_scalar].
    rewrite Hlit3, Hlit4, Hlit1.
    rewrite (Rltb_false q 1e-3) by lra. rewrite (Rltb_false (1 - q) 1e-4) by lra.
    reflexivity.
  - unfold self. rewrite product_R by (try assumption; lra).
    rewrite close_to_1_R. fold self. fold K.
    destruct boundary_near_one as [_ Hclose]. cbv zeta in Hclose.
    replace (16 / 35 * K * (1 - 0.9999 ^ 2)) with (K * (16 / 35 * (1 - 0.9999 * 0.9999))) by ring.
    apply Rabs_scale; [exact HK|exact Hclose].
  - unfold self. rewrite product_R by (try assumption; lra).
    rewrite close_to_0_R. fold self. fold K.
    destruct boundary_near_zero as [_ Hclose]. cbv zeta in Hclose.
    replace (16 / 5 * K * (1 - 18 / 7 * 0.001 ^ 2))
      with (K * (16 / 5 * (1 - 18 / 7 * (0.001 * 0.001)))) by ring.
    apply Rabs_scale; [exact HK|exact Hclose].
Qed.

End dMdEClaim.

(** [dMdE_series_substitutions] on the unit halo: the two boundary
    inequalities. *)
Lemma dMdE_series_substitutions_witness :
  let self := Hernquist.init_parameters unit_halo_R 1%R 1%R in
  (Rabs (Hernquist.f_of_q self 0.9999 * Hernquist.g_of_q self 0.9999
         - Hernquist._dMdE_close_to_1_ self 0.9999)
   <= 1e-3 * Hernquist._dMdE_close_to_1_ self 0.9999)%R
  /\ (Rabs (Hernquist.f_of_q self 0.001 * Hernquist.g_of_q self 0.001
            - Hernquist._dMdE_close_to_0_ self 0.001)
      <= 1e-3 * Hernquist._dMdE_close_to_0_ self 0.001)%R.
Proof.
  destruct (dMdE_series_substitutions unit_halo_R 1%R 1%R)
    as (_ & _ & _ & _ & _ & H1 & H0).
  - simpl. lra.
  - lra.
  - lra.
  - split; [exact H1|exact H0].
Defined.

(** C5, counterexample to the claim as stated: the program's numbers at
    the boundary near [q = 1], on the unit halo, with the correctly
    rounded values of [asin], [acos] and [pow].  At [q_inside], the last
    [q] for which [dMdE] returns the product, the product is
    9.735136190401241e-05, while the series there is
    9.142400000006846e-05 (and 9.142399999996696e-05 is returned at
    0.9999, the next number): the product is more than 6 percent above
    the series, because [1 - q^2] and the bracket of [g_of_q] cancel. *)
Lemma dMdE_product_off_in_binary64 :
  Hernquist.dMdE (Libm0 := libm_values) unit_halo [q_inside; 0.9999%float] false
  = [9.735136190401241e-05%float; 9.142399999996696e-05%float]
  /\ (Hernquist.f_of_q (Libm0 := libm_values) unit_halo q_inside
      * Hernquist.g_of_q (Libm0 := libm_values) unit_halo q_inside)%float
     = 9.735136190401241e-05%float
  /\ Hernquist._dMdE_close_to_1_ (Libm0 := libm_values) unit_halo q_inside
     = 9.142400000006846e-05%float
  /\ PrimFloat.ltb (1.06 * 9.142400000006846e-05) 9.735136190401241e-05 = true.
Proof.
  split; [vm_compute; reflexivity|].
  split; [vm_compute; reflexivity|].
  split; [vm_compute; reflexivity|reflexivity].
Qed.
(** ** Where the samples of [rejection_sample] come from *)

Section SampleOrigin.
Context {F : Type} `{!Scalar F}.

Lemma read_only_target_leaves {A} (fn : loc -> A -> Py F (list F)) :
  read_only_target fn -> target_leaves (fun v => v) fn.
Proof.
  intros H x args w xs vals w' Hx Hrun.
  destruct (H x args w xs vals w' Hx Hrun) as (Hs & Hp & Hh).
  rewrite map_id. auto.
Qed.

Lemma uniforms_lookup (w : world F) (p k : nat) :
  (k < 10)%nat -> uniforms w p !! k = Some (rng_stream w (p + k)%nat).
Proof.
  intros Hk. unfold uniforms. rewrite list_lookup_fmap.
  rewrite lookup_seq_lt by exact Hk. reflexivity.
Qed.

Lemma uniforms_length (w : world F) (p : nat) : length (uniforms w p) = 10%nat.
Proof. unfold uniforms. rewrite length_map, length_seq. reflexivity. Qed.

(** One round with a target that leaves [g] of the candidates in their
    array: twenty variates are consumed, and an accepted sample is [g] of
    one of the first ten, scaled by the width. *)
Lemma rejection_round_effect {A} (g : F -> F) (fn : loc -> A -> Py F (list F)) (fn_args : A)
    (xwidth maxval : F) (w w' : world F) (r : round_end F) :
  target_leaves g fn ->
  rejection_round fn fn_args xwidth maxval w = Returns (r, w') ->
  rng_stream w' = rng_stream w
  /\ rng_pos w' = (rng_pos w + 20)%nat
  /\ (forall s, r = Accepted s ->
        exists k, (k < 10)%nat /\ s = g (rng_stream w (rng_pos w + k)%nat * xwidth)%S).
Proof.
  intros Hfn Hround.
  destruct (rejection_round_inv _ _ _ _ _ _ _ Hround) as (x & y & fn_eval & w2 & Hd & Hdec).
  unfold draw_and_evaluate, mbind, Py_bind, bind in Hd.
  rewrite draw_candidates_spec in Hd. cbv zeta in Hd.
  set (x0 := fresh (dom (heap w))) in *.
  set (xs := map (fun v => (v * xwidth)%S) (uniforms w (rng_pos w))) in *.
  match type of Hd with context [fn x0 fn_args ?ww] => set (w1 := ww) in * end.
  destruct (fn x0 fn_args w1) as [[vals w1']| |] eqn:Hcall; try discriminate.
  unfold mret, Py_ret, ret in Hd. inversion Hd; subst x y fn_eval w2; clear Hd.
  assert (Hx : heap w1 !! x0 = Some xs) by (subst w1; simpl; apply lookup_insert_eq).
  destruct (Hfn x0 fn_args w1 xs vals w1' Hx Hcall) as (Hs & Hp & Hh).
  subst w1. simpl in Hs, Hp.
  unfold decide_round in Hdec.
  destruct (bound_violated vals maxval).
  - py_unfold. destruct (np_max vals); [|discriminate].
    inversion Hdec; subst; clear Hdec. simpl.
    split; [exact Hs|]. split; [lia|]. intros s Hr. discriminate Hr.
  - py_unfold. unfold ret, raise in Hdec.
    destruct (np_less _ vals) as [mask|]; [|discriminate].
    destruct (np_where mask) as [|k ks].
    + inversion Hdec; subst; clear Hdec.
      split; [exact Hs|]. split; [lia|]. intros s Hr. discriminate Hr.
    + rewrite Hh in Hdec. cbn [from_option Datatypes.id] in Hdec.
      destruct (map g xs !! k) as [s0|] eqn:Hk; [|discriminate].
      inversion Hdec; subst; clear Hdec.
      split; [exact Hs|]. split; [lia|].
      intros s Hr. inversion Hr; subst s; clear Hr.
      rewrite list_lookup_fmap in Hk.
      destruct (xs !! k) as [v|] eqn:Hv; [|discriminate]. simpl in Hk.
      inversion Hk; subst s0; clear Hk.
      assert (Hlt : (k < 10)%nat).
      { apply lookup_lt_Some in Hv. unfold xs in Hv.
        rewrite length_map, uniforms_length in Hv. exact Hv. }
      exists k. split; [exact Hlt|].
      unfold xs in Hv. rewrite list_lookup_fmap, (uniforms_lookup _ _ _ Hlt) in Hv.
      simpl in Hv. inversion Hv. reflexivity.
Qed.

(** The loop: the sample comes from the accepting round, which follows
    [rounds] rounds that accepted nothing. *)
Lemma rejection_loop_effect {A} (g : F -> F) (fn : loc -> A -> Py F (list F)) (fn_args : A)
    (xwidth : F) :
  target_leaves g fn ->
  forall fuel maxval w s w',
    rejection_loop fuel fn fn_args xwidth maxval w = Returns (s, w') ->
    exists rounds k,
      (rounds < fuel)%nat /\ (k < 10)%nat
      /\ s = g (rng_stream w (rng_pos w + 20 * rounds + k)%nat * xwidth)%S
      /\ rng_stream w' = rng_stream w
      /\ rng_pos w' = (rng_pos w + 20 * (rounds + 1))%nat.
Proof.
  intros Hfn. induction fuel as [|fuel IH]; intros maxval w s w' Hrun.
  - discriminate Hrun.
  - simpl in Hrun. unfold mbind, Py_bind, bind in Hrun.
    destruct (rejection_round fn fn_args xwidth maxval w) as [[r w1]| |] eqn:Hround;
      try discriminate.
    destruct (rejection_round_effect g _ _ _ _ _ _ _ Hfn Hround) as (Hs & Hp & Hacc).
    assert (Hnext : forall maxval0,
              rejection_loop fuel fn fn_args xwidth maxval0 w1 = Returns (s, w') ->
              exists rounds k,
                (rounds < S fuel)%nat /\ (k < 10)%nat
                /\ s = g (rng_stream w (rng_pos w + 20 * rounds + k)%nat * xwidth)%S
                /\ rng_stream w' = rng_stream w
                /\ rng_pos w' = (rng_pos w + 20 * (rounds + 1))%nat).
    { intros maxval0 Hrest.
      destruct (IH _ _ _ _ Hrest) as (n & k & Hn & Hk & Hval & Hs' & Hp').
      exists (S n), k. split; [lia|]. split; [exact Hk|].
      rewrite Hs, Hp in Hval. rewrite Hs in Hs'. rewrite Hp in Hp'.
      split; [|split; [exact Hs'|lia]].
      rewrite Hval. do 3 f_equal. lia. }
    destruct r as [maxval'|sample|].
    + eapply Hnext; eauto.
    + unfold mret, Py_ret, ret in Hrun. inversion Hrun; subst; clear Hrun.
      destruct (Hacc _ eq_refl) as (k & Hk & Hval).
      exists 0%nat, k. split; [lia|]. split; [exact Hk|].
      split; [|split; [exact Hs|lia]].
      rewrite Hval. do 3 f_equal. lia.
    + eapply Hnext; eauto.
Qed.

End SampleOrigin.
(** ** A round that accepts its first candidate *)

Section AcceptFirst.
Context {F : Type} `{!Scalar F}.

(** With a read-only target whose ten values stay within the bound, the
    first of them above its threshold, the call returns the first
    candidate. *)
Lemma rejection_sample_accepts_first {A} (fn : loc -> A -> Py F (list F)) (fn_args : A)
    (fuel : nat) (maxval : F) (N : Z) (lo hi overshoot : F) (dt : dtype)
    (w w1 : world F) (v0 : F) (rest : list F) :
  read_only_target fn ->
  let x := fresh (dom (heap w)) in
  let xs := map (fun v => v * (hi - lo))%S (uniforms w (rng_pos w)) in
  fn x fn_args (mkWorld (<[x := xs]> (<[x := uniforms w (rng_pos w)]> (heap w)))
                  (rng_stream w) (rng_pos w + 10 + 10) (stdout w))
  = Returns (v0 :: rest, w1) ->
  length rest = 9%nat ->
  bound_violated (v0 :: rest) maxval = false ->
  (rng_stream w (rng_pos w + 10)%nat * maxval <? v0)%S = true ->
  rejection_sample (S fuel) fn maxval N (lo, hi) overshoot dt fn_args w
  = Returns ((rng_stream w (rng_pos w) * (hi - lo))%S, w1).
Proof.
  intros Hfn x xs Hcall Hlen Hok Hacc.
  assert (Hx : heap w1 !! x = Some xs).
  { eapply Hfn; [|exact Hcall]. simpl. apply lookup_insert_eq. }
  unfold rejection_sample. cbn [fst snd rejection_loop].
  unfold mbind, Py_bind, bind, rejection_round, draw_and_evaluate, mbind, Py_bind, bind.
  rewrite draw_candidates_spec. cbv zeta. fold x. fold xs. rewrite Hcall.
  unfold mret, Py_ret, ret, decide_round. rewrite Hok.
  unfold np_less.
  destruct (decide (length (map (fun v => (v * maxval)%S) (uniforms w (rng_pos w + 10)))
                    = length (v0 :: rest))) as [_|Hne];
    [|exfalso; apply Hne; rewrite length_map, uniforms_length; simpl; lia].
  unfold uniforms at 1. cbn [seq map zip_with or_raise]. rewrite Hacc.
  unfold mbind, Py_bind, bind, ret. cbn [np_where where_from].
  unfold load. rewrite Hx. cbn [from_option Datatypes.id].
  unfold xs, uniforms. cbn [seq map lookup list_lookup or_raise].
  unfold ret, mret, Py_ret, ret. reflexivity.
Qed.

End AcceptFirst.
(** ** Targets *)

Section Targets.
Context {F : Type} `{!Scalar F}.

(** [const_target]-like targets, which only load their argument, are
    read-only; so is [my_f_of_vr], and [f_of_E] leaves the clamped
    energies. *)
Lemma load_only_read_only {A} (h : list F -> A -> list F) :
  read_only_target (fun x args => xs ← load x; mret (h xs args)).
Proof.
  intros x args w xs vals w' Hx Hrun. py_unfold.
  inversion Hrun; subst. auto.
Qed.

End Targets.

Section HernquistTargets.
Context {F : Type} `{!Scalar F} `{!Libm F}.
Import Hernquist.

Lemma my_f_of_vr_read_only (self : Hernquist.t F) : read_only_target (my_f_of_vr self).
Proof.
  intros x r w xs vals w' Hx Hrun.
  rewrite (my_f_of_vr_spec self x r w xs Hx) in Hrun.
  inversion Hrun; subst; clear Hrun. simpl.
  split; [reflexivity|]. split; [reflexivity|].
  assert (Hne : fresh (dom (heap w)) <> x).
  { intros Heq. apply (is_fresh (dom (heap w))). rewrite Heq.
    apply elem_of_dom. eauto. }
  rewrite !lookup_insert_ne by exact Hne. exact Hx.
Qed.

Lemma f_of_E_leaves_clamped (self : Hernquist.t F) :
  target_leaves clamp_energy (fun x (_ : unit) => f_of_E self x).
Proof.
  intros x args w xs vals w' Hx Hrun.
  rewrite (f_of_E_spec self x w xs Hx) in Hrun.
  inversion Hrun; subst; clear Hrun. simpl.
  split; [reflexivity|]. split; [reflexivity|]. apply lookup_insert_eq.
Qed.

End HernquistTargets.

(** ** More on [rejection_sample] *)

Section RejectionSampleMore.
Context {F : Type} `{!Scalar F}.

(** X1.  With a target that only reads its candidates, a sample that
    [rejection_sample] returns is one of the variates of the global
    generator times the width [hi - lo] of the interval: one of the first
    ten of the twenty variates the accepting round drew.  The call
    consumes twenty variates per round and leaves the generator's stream
    as it was. *)
Theorem rejection_sample_returns_scaled_variate {A} (fn : loc -> A -> Py F (list F))
    (fn_args : A) (fuel : nat) (maxval : F) (N : Z) (lo hi overshoot : F) (dt : dtype)
    (w w' : world F) (s : F) :
  read_only_target fn ->
  rejection_sample fuel fn maxval N (lo, hi) overshoot dt fn_args w = Returns (s, w') ->
  exists rounds k,
    (rounds < fuel)%nat /\ (k < 10)%nat
    /\ s = (rng_stream w (rng_pos w + 20 * rounds + k)%nat * (hi - lo))%S
    /\ rng_stream w' = rng_stream w
    /\ rng_pos w' = (rng_pos w + 20 * (rounds + 1))%nat.
Proof.
  intros Hfn Hrun. unfold rejection_sample in Hrun. simpl in Hrun.
  apply (rejection_loop_effect (fun v => v) fn fn_args (hi - lo)%S
           (read_only_target_leaves fn Hfn) fuel maxval w s w' Hrun).
Qed.

(** X2.  When the target returns an array whose length is neither that of the
    candidate array (ten) nor one, and none of its values exceeds the
    bound, the comparison of the thresholds with it cannot be broadcast:
    the call raises [ValueError]. *)
Theorem rejection_sample_shape_mismatch {A} (fn : loc -> A -> Py F (list F)) (fn_args : A)
    (fuel : nat) (maxval : F) (N : Z) (lo hi overshoot : F) (dt : dtype)
    (w w1 : world F) (x : loc) (y fn_eval : list F) :
  draw_and_evaluate fn fn_args (hi - lo)%S maxval w = Returns ((x, y, fn_eval), w1) ->
  bound_violated fn_eval maxval = false ->
  length fn_eval <> 10%nat -> length fn_eval <> 1%nat ->
  rejection_sample (S fuel) fn maxval N (lo, hi) overshoot dt fn_args w
  = Raises (ValueError "operands could not be broadcast together").
Proof.
  intros Heval Hok H10 H1.
  assert (Hy : length y = 10%nat).
  { unfold draw_and_evaluate, mbind, Py_bind, bind in Heval.
    rewrite draw_candidates_spec in Heval. cbv zeta in Heval.
    match type of Heval with context [fn ?a ?b ?c] => destruct (fn a b c) as [[vals w2]| |] end;
      try discriminate.
    unfold mret, Py_ret, ret in Heval. inversion Heval; subst. reflexivity. }
  unfold rejection_sample. simpl. unfold mbind, Py_bind, bind.
  rewrite (rejection_round_unfold _ _ _ _ _ _ _ _ _ Heval).
  unfold decide_round. rewrite Hok.
  assert (Hless : np_less y fn_eval = None).
  { unfold np_less. destruct (decide (length y = length fn_eval)) as [Heq|_]; [congruence|].
    destruct y as [|y0 [|y1 ys]]; [discriminate Hy|discriminate Hy|].
    destruct fn_eval as [|v0 [|v1 vs]]; [reflexivity|simpl in H1; congruence|reflexivity]. }
  rewrite Hless. reflexivity.
Qed.

End RejectionSampleMore.

(** [rejection_sample_returns_scaled_variate] on the target constantly 1
    over the interval \[1, 2\], with the generator handing out 0.5. *)
Lemma rejection_sample_returns_scaled_variate_witness :
  exists rounds k,
    (rounds < 1)%nat /\ (k < 10)%nat
    /\ 0.5%float = (rng_stream w_half (rng_pos w_half + 20 * rounds + k)%nat * (2 - 1))%float.
Proof.
  assert (Hrun : rejection_sample 1 (const_target 1) 1%float 1 (1%float, 2%float)
                   2%float np_longdouble tt w_half
                 = Returns (0.5%float,
                            mkWorld (<[0%nat := replicate 10 0.5%float]> ∅)
                              (fun _ => 0.5%float) 20 []))
    by (vm_compute; reflexivity).
  destruct (rejection_sample_returns_scaled_variate (const_target 1) tt 1 1%float 1
              1%float 2%float 2%float np_longdouble w_half _ 0.5%float
              (load_only_read_only (fun xs _ => map (fun _ => 1%float) xs)) Hrun)
    as (rounds & k & Hr & Hk & Hs & _).
  exists rounds, k. auto.
Defined.

(** [rejection_sample_shape_mismatch] on a target that returns an empty
    array. *)
Lemma rejection_sample_shape_mismatch_witness :
  rejection_sample 1 (fun (x : loc) (_ : unit) => mret ([] : list float)) 1%float 1
    (0%float, 1%float) 2%float np_longdouble tt w_half
  = Raises (ValueError "operands could not be broadcast together").
Proof.
  eapply (rejection_sample_shape_mismatch (fun (x : loc) (_ : unit) => mret ([] : list float))
            tt 0 1%float 1 0%float 1%float 2%float np_longdouble w_half).
  - vm_compute. reflexivity.
  - reflexivity.
  - simpl. lia.
  - simpl. lia.
Defined.
(** ** NaN in binary64 arithmetic *)

Section FloatNaN.

Lemma Prim2SF_nan : Prim2SF nan = S754_nan.
Proof. reflexivity. Qed.

Lemma float_mul_nan_l (x : float) : (nan * x)%float = nan.
Proof.
  apply Prim2SF_inj. rewrite mul_spec, Prim2SF_nan.
  destruct (Prim2SF x); reflexivity.
Qed.

Lemma float_mul_nan_r (x : float) : (x * nan)%float = nan.
Proof.
  apply Prim2SF_inj. rewrite mul_spec, Prim2SF_nan.
  destruct (Prim2SF x); reflexivity.
Qed.

Lemma float_add_nan_r (x : float) : (x + nan)%float = nan.
Proof.
  apply Prim2SF_inj. rewrite add_spec, Prim2SF_nan.
  destruct (Prim2SF x); reflexivity.
Qed.

Lemma float_ltb_nan_r (x : float) : (x <? nan)%float = false.
Proof.
  rewrite ltb_spec, Prim2SF_nan. unfold SFltb, SFcompare.
  destruct (Prim2SF x) as [s|s| |s m e]; try reflexivity; destruct s; reflexivity.
Qed.

Lemma float_ltb_nan_l (x : float) : (nan <? x)%float = false.
Proof. rewrite ltb_spec, Prim2SF_nan. reflexivity. Qed.

(** The square root of a negative number is NaN. *)
Lemma float_sqrt_negative (x : float) : (x <? 0)%float = true -> PrimFloat.sqrt x = nan.
Proof.
  intros Hneg. apply Prim2SF_inj. rewrite sqrt_spec, Prim2SF_nan.
  rewrite ltb_spec in Hneg.
  replace (Prim2SF 0) with (S754_zero false) in Hneg by reflexivity.
  unfold SFltb, SFcompare in Hneg.
  destruct (Prim2SF x) as [s|s| |s m e]; try discriminate.
  - destruct s; [reflexivity|discriminate].
  - destruct s; [reflexivity|discriminate].
Qed.

End FloatNaN.
(** ** Unbound energies in binary64 *)

Section Unbound.
Context {lm : Libm float}.
Import Hernquist.

(** [_f_of_q] propagates NaN, whatever the mathematical library returns. *)
Lemma f_of_q_nan (self : Hernquist.t float) : f_of_q self nan = nan.
Proof.
  unfold f_of_q, _f_of_q. cbn [fmul fadd fsub float_scalar].
  rewrite (float_mul_nan_l (PrimFloat.mul _ _)) at 1.
  rewrite !float_mul_nan_r, !float_add_nan_r, !float_mul_nan_l. reflexivity.
Qed.

Lemma f_of_unbound (self : Hernquist.t float) (e : float) :
  (e / phi_of_0 self <? 0)%float = true -> f_of_q self (q_of_E self e) = nan.
Proof.
  intros Hneg. unfold q_of_E. cbn [fsqrt fdiv float_scalar].
  rewrite (float_sqrt_negative _ Hneg). apply f_of_q_nan.
Qed.

(** No value of a target that is NaN everywhere exceeds a bound, and no
    threshold is below it. *)
Lemma bound_violated_nan (xs : list float) (maxval : float) :
  bound_violated (map (fun _ => nan) xs) maxval = false.
Proof.
  unfold bound_violated, np_any.
  induction xs as [|x xs IH]; [reflexivity|].
  cbn [map existsb fltb float_scalar]. rewrite float_ltb_nan_r. exact IH.
Qed.

Lemma where_from_below_nan (xs y : list float) (n : nat) :
  where_from n (zip_with fltb y (map (fun _ => nan) xs)) = [].
Proof.
  revert y n. induction xs as [|x xs IH]; intros y n; destruct y as [|y0 y]; try reflexivity.
  simpl. cbn [fltb float_scalar]. rewrite float_ltb_nan_r. apply IH.
Qed.

Lemma decide_round_nan (x : loc) (xs y : list float) (maxval : float) (w : world float) :
  length y = length xs ->
  decide_round x y (map (fun _ => nan) xs) maxval w = Returns (Rejected, w).
Proof.
  intros Hlen. unfold decide_round. rewrite bound_violated_nan.
  unfold np_less. rewrite length_map.
  destruct (decide (length y = length xs)) as [_|Hne]; [|contradiction].
  py_unfold. unfold ret, np_where. cbv beta iota. rewrite where_from_below_nan. reflexivity.
Qed.

(** A round of [rejection_sample] on the target [f_of_E] whose ten
    candidates are all unbound energies accepts nothing. *)
Lemma rejection_round_unbound (self : Hernquist.t float) (xwidth maxval : float)
    (w : world float) :
  (forall k, (k < 10)%nat ->
     let e := (rng_stream w (rng_pos w + k)%nat * xwidth)%float in
     near_zero_positive e = false /\ (e / phi_of_0 self <? 0)%float = true) ->
  exists w',
    rejection_round (fun x (_ : unit) => f_of_E self x) tt xwidth maxval w
    = Returns (Rejected, w')
    /\ rng_stream w' = rng_stream w /\ rng_pos w' = (rng_pos w + 20)%nat.
Proof.
  intros Hstream.
  unfold rejection_round, draw_and_evaluate, mbind, Py_bind, bind.
  rewrite draw_candidates_spec. cbv zeta.
  set (x0 := fresh (dom (heap w))).
  set (xs := map (fun v => (v * xwidth)%S) (uniforms w (rng_pos w))).
  set (y := map (fun v => (v * maxval)%S) (uniforms w (rng_pos w + 10))).
  rewrite (f_of_E_spec self x0 _ xs) by (simpl; apply lookup_insert_eq).
  unfold mret, Py_ret, ret.
  assert (Hnan : map (fun e => f_of_q self (q_of_E self (clamp_energy e))) xs
                 = map (fun _ => nan) xs).
  { apply map_ext_in. intros e He. apply list_elem_of_In in He.
    apply list_elem_of_lookup_1 in He. destruct He as [k Hk].
    assert (Hlt : (k < 10)%nat).
    { apply lookup_lt_Some in Hk. unfold xs in Hk.
      rewrite length_map, uniforms_length in Hk. exact Hk. }
    unfold xs in Hk. rewrite list_lookup_fmap, (uniforms_lookup _ _ _ Hlt) in Hk.
    simpl in Hk. inversion Hk; subst e; clear Hk.
    destruct (Hstream k Hlt) as [Hnz Hneg]. cbv zeta in Hnz, Hneg.
    unfold clamp_energy. cbn [fmul float_scalar]. rewrite Hnz.
    apply f_of_unbound. exact Hneg. }
  rewrite Hnan.
  rewrite decide_round_nan
    by (unfold y, xs; rewrite !length_map, !uniforms_length; reflexivity).
  eexists. split; [reflexivity|]. simpl. split; [reflexivity|lia].
Qed.

Lemma rejection_loop_unbound (self : Hernquist.t float) (xwidth : float) :
  forall fuel maxval (w : world float),
    (forall n, (rng_pos w <= n)%nat ->
       let e := (rng_stream w n * xwidth)%float in
       near_zero_positive e = false /\ (e / phi_of_0 self <? 0)%float = true) ->
    rejection_loop fuel (fun x (_ : unit) => f_of_E self x) tt xwidth maxval w = OutOfFuel.
Proof.
  induction fuel as [|fuel IH]; intros maxval w Hstream; [reflexivity|].
  simpl. unfold mbind, Py_bind, bind.
  destruct (rejection_round_unbound self xwidth maxval w) as (w' & Hround & Hs & Hp).
  { intros k Hk. apply Hstream. lia. }
  rewrite Hround. apply IH.
  intros n Hn. rewrite Hs. apply Hstream. lia.
Qed.

(** X3.  [f_of_E] returns NaN at every energy [e] that is not clamped and for
    which [e / phi_of_0] is negative (a positive energy of a model whose
    central potential is negative): the square root of line 223 is NaN,
    and [_f_of_q] propagates it whatever the mathematical library
    returns. *)
Theorem f_of_E_unbound_energy_is_nan (self : Hernquist.t float) (E : loc) (w : world float)
    (Es : list float) :
  heap w !! E = Some Es ->
  exists vals w',
    f_of_E self E w = Returns (vals, w')
    /\ length vals = length Es
    /\ forall i e, Es !! i = Some e ->
         near_zero_positive e = false -> (e / phi_of_0 self <? 0)%float = true ->
         vals !! i = Some nan.
Proof.
  intros HE. eexists _, _. split; [apply (f_of_E_spec self E w Es HE)|].
  split; [apply length_map|].
  intros i e Hi Hnz Hneg. rewrite list_lookup_fmap, Hi.
  cbn [fmap option_fmap option_map].
  unfold clamp_energy. rewrite Hnz. f_equal. apply f_of_unbound. exact Hneg.
Qed.

(** X4.  [draw_energies] on a non-empty array of radii never returns when the
    candidates of the first radius are all unbound energies: the
    candidates are the variates times [0 - pot] (the lower end [pot] is
    not added), [f_of_E] is NaN on each of them, and a NaN is neither
    above the bound nor above a threshold, so every round rejects. *)
Theorem draw_energies_never_returns (self : Hernquist.t float) (r0 : float)
    (rest : list float) (w : world float) :
  let pot := potential self r0 in
  near_zero_positive pot = false ->
  (forall n, (rng_pos w <= n)%nat ->
     let e := (rng_stream w n * (0 - pot))%float in
     near_zero_positive e = false /\ (e / phi_of_0 self <? 0)%float = true) ->
  forall fuel, draw_energies fuel self (r0 :: rest) w = OutOfFuel.
Proof.
  intros pot Hpot Hstream fuel.
  unfold draw_energies, mbind, Py_bind, bind. unfold alloc at 1. cbv beta zeta.
  set (l := fresh (dom (heap w))).
  rewrite (f_of_E_spec self l _ (map (potential self) (r0 :: rest)))
    by (simpl; apply lookup_insert_eq).
  unfold load. cbn [heap]. rewrite lookup_insert_eq. cbn [from_option Datatypes.id map zip zip_with for_each].
  fold pot.
  assert (Hc : clamp_energy pot = pot) by (unfold clamp_energy; rewrite Hpot; reflexivity).
  rewrite !Hc.
  unfold mbind, Py_bind, bind, rejection_sample. cbn [fst snd].
  rewrite rejection_loop_unbound; [reflexivity|].
  intros n Hn. apply Hstream. exact Hn.
Qed.

End Unbound.

(** [f_of_E_unbound_energy_is_nan] on the unit halo: the value at the
    energy 0.5. *)
Lemma f_of_E_unbound_energy_is_nan_witness :
  exists vals w',
    Hernquist.f_of_E (Libm0 := libm_special_values) unit_halo 0%nat w_unbound
    = Returns (vals, w')
    /\ vals !! 0%nat = Some nan.
Proof.
  destruct (f_of_E_unbound_energy_is_nan (lm := libm_special_values) unit_halo 0%nat
              w_unbound [0.5%float; (-0.25)%float] eq_refl)
    as (vals & w' & Hrun & _ & Hnan).
  exists vals, w'. split; [exact Hrun|].
  apply (Hnan 0%nat 0.5%float); reflexivity.
Defined.

(** [draw_energies_never_returns] on the unit halo at the radius 0, with
    the generator handing out 0.5: every candidate is the energy 0.5. *)
Lemma draw_energies_never_returns_witness :
  Hernquist.draw_energies (Libm0 := libm_special_values) 1000 unit_halo [0%float] w_half
  = OutOfFuel.
Proof.
  apply (draw_energies_never_returns (lm := libm_special_values) unit_halo 0%float [] w_half).
  - reflexivity.
  - intros n _. split; reflexivity.
Defined.
(** ** Loops that collect *)

Section ForEach.
Context {F : Type}.
Import Hernquist.

(** An invariant [P] of the state and a relation [Q] between each element
    and its result, through a [for_each]. *)
Lemma for_each_Forall2 {A B} (P : world F -> Prop) (Q : A -> B -> Prop)
    (body : A -> Py F B) :
  (forall x w y w', P w -> body x w = Returns (y, w') -> P w' /\ Q x y) ->
  forall xs w ys w',
    P w -> for_each xs body w = Returns (ys, w') -> P w' /\ Forall2 Q xs ys.
Proof.
  intros Hbody. induction xs as [|x xs IH]; intros w ys w' HP Hrun.
  - inversion Hrun; subst. split; [exact HP|constructor].
  - simpl in Hrun. unfold mbind, Py_bind, bind in Hrun.
    destruct (body x w) as [[y w1]| |] eqn:Hx; try discriminate.
    destruct (Hbody _ _ _ _ HP Hx) as [HP1 HQ].
    destruct (for_each xs body w1) as [[ys' w2]| |] eqn:Hrest; try discriminate.
    destruct (IH _ _ _ HP1 Hrest) as [HP2 HF].
    unfold mret, Py_ret, ret in Hrun. inversion Hrun; subst.
    split; [exact HP2|]. constructor; assumption.
Qed.

Lemma Forall2_zip_map {A B C D} (Q : B * C -> D -> Prop) (f : A -> B) (g : A -> C)
    (xs : list A) (ys : list D) :
  Forall2 Q (zip (map f xs) (map g xs)) ys -> Forall2 (fun x y => Q (f x, g x) y) xs ys.
Proof.
  revert ys. induction xs as [|x xs IH]; intros ys H; simpl in H.
  - inversion H; subst. constructor.
  - inversion H; subst. constructor; [assumption|]. apply IH. assumption.
Qed.

End ForEach.

(** ** What [draw_energies] returns *)

Section DrawEnergies.
Context {F : Type} `{!Scalar F} `{!Libm F}.
Import Hernquist.

(** The state in which the loop of [draw_energies] starts: [pot_list] is
    an array object that [f_of_E] has clamped in place. *)
Lemma draw_energies_unfold (fuel : nat) (self : Hernquist.t F) (r : list F) (w : world F) :
  let l := fresh (dom (heap w)) in
  let pots := map (potential self) r in
  draw_energies fuel self r w
  = for_each (zip (map clamp_energy pots)
                  (map (fun e => f_of_q self (q_of_E self (clamp_energy e))) pots))
      (fun pm => let '(pot, maxval) := pm in
                 rejection_sample fuel (fun x (_ : unit) => f_of_E self x) maxval 1
                   (pot, lit 0) (lit 2) np_longdouble tt)
      (mkWorld (<[l := map clamp_energy pots]> (<[l := pots]> (heap w)))
               (rng_stream w) (rng_pos w) (stdout w ++ anomaly_report pots)).
Proof.
  intros l pots.
  unfold draw_energies, mbind, Py_bind, bind. unfold alloc at 1. cbv beta zeta.
  fold l. fold pots.
  rewrite (f_of_E_spec self l _ pots) by (simpl; apply lookup_insert_eq).
  unfold load. cbn [heap]. rewrite lookup_insert_eq. reflexivity.
Qed.

(** X5.  The energies [draw_energies] returns, one for each radius: each is
    what [f_of_E] left in the candidate array at the accepted index, that
    is the clamped value of a variate times [0 - pot], where [pot] is the
    potential at the radius as [f_of_E] left it in [pot_list].  The sample
    is read from the candidate array after the target has written to it,
    and the lower end [pot] of the interval is not added. *)
Theorem draw_energies_returns_clamped_variates (fuel : nat) (self : Hernquist.t F)
    (r : list F) (w w' : world F) (es : list F) :
  draw_energies fuel self r w = Returns (es, w') ->
  rng_stream w' = rng_stream w
  /\ Forall2 (fun r_i e =>
                exists k, (rng_pos w <= k)%nat
                  /\ e = clamp_energy
                           (rng_stream w k * (lit 0 - clamp_energy (potential self r_i)))%S)
             r es.
Proof.
  rewrite draw_energies_unfold. cbv zeta. intros Hrun.
  set (P := fun w2 : world F => rng_stream w2 = rng_stream w /\ (rng_pos w <= rng_pos w2)%nat).
  set (Q := fun (pm : F * F) (e : F) =>
              exists k, (rng_pos w <= k)%nat
                /\ e = clamp_energy (rng_stream w k * (lit 0 - fst pm))%S).
  match type of Hrun with for_each _ ?b _ = _ => set (body := b) in Hrun end.
  assert (Hbody : forall (pm : F * F) w2 e w3,
            P w2 -> body pm w2 = Returns (e, w3) -> P w3 /\ Q pm e).
  { intros [pot maxval] w2 e w3 [HPs HPp] Hcall.
    unfold body, rejection_sample in Hcall. cbn [fst snd] in Hcall.
    destruct (rejection_loop_effect clamp_energy _ tt _
                (f_of_E_leaves_clamped self) _ _ _ _ _ Hcall)
      as (n & k & _ & _ & Hval & Hs & Hp).
    split; [split; [congruence|lia]|].
    exists (rng_pos w2 + 20 * n + k)%nat. split; [lia|].
    rewrite Hval, HPs. reflexivity. }
  apply (for_each_Forall2 P Q body Hbody) in Hrun; [|split; simpl; [reflexivity|lia]].
  destruct Hrun as [[Hs _] HF].
  split; [exact Hs|].
  apply Forall2_zip_map in HF. apply Forall2_fmap_l in HF. exact HF.
Qed.

End DrawEnergies.
(** ** The profile over the reals *)

Section ProfileR.
Import Hernquist.
Open Scope R_scope.

Lemma Rpower_neg1 (x : R) : 0 < x -> Rpower x (-1) = / x.
Proof.
  intros Hx. replace (-1) with (- INR 1) by (simpl; lra).
  rewrite Rpower_Ropp, Rpower_pow by exact Hx. f_equal. lra.
Qed.

Lemma Rpower_neg3 (x : R) : 0 < x -> Rpower x (-3) = / x ^ 3.
Proof.
  intros Hx. replace (-3) with (- INR 3) by (simpl; lra).
  rewrite Rpower_Ropp, Rpower_pow by exact Hx. reflexivity.
Qed.

Lemma Rpower_half_sq (x : R) : 0 < x -> Rpower x 0.5 ^ 2 = x.
Proof.
  intros Hx. rewrite <- Rpower_2 by apply Rpower_pos.
  rewrite Rpower_mult. replace (0.5 * 2) with 1 by lra. apply Rpower_1. exact Hx.
Qed.

(** The constants [__init__] derives from positive [G], [M] and [a]. *)
Lemma init_parameters_vg (self0 : Hernquist.t R) (M0 a0 : R) :
  0 < G self0 -> 0 < M0 -> 0 < a0 ->
  vg (init_parameters self0 M0 a0) ^ 2 = G self0 * M0 / a0.
Proof.
  intros HG HM Ha. unfold init_parameters. cbn [vg set_model lit fmul fdiv np_power R_scalar R_libm].
  replace (Q2R 0.5) with 0.5 by (Q2R_value 0.5%Q; lra).
  apply Rpower_half_sq. apply Rdiv_lt_0_compat; [nra|exact Ha].
Qed.

(** X6.  On a model built by [__init__] from positive [G], [M] and [a], over
    the real numbers: the derived constants satisfy [vg^2 = G M / a],
    [phi_of_0 = - vg^2] and [density_prefactor = M / (2 pi a^3)], and the
    prefactors of the distribution function and of the density of states
    multiply to [M / (12 pi vg^2)]; [__init__] leaves the units and [G] as
    [_init_units_] set them. *)
Theorem init_parameters_constants (self0 : Hernquist.t R) (M0 a0 : R) :
  0 < G self0 -> 0 < M0 -> 0 < a0 ->
  let self := init_parameters self0 M0 a0 in
  M self = M0 /\ a self = a0 /\ G self = G self0
  /\ 0 < vg self
  /\ vg self ^ 2 = G self0 * M0 / a0
  /\ phi_of_0 self = - vg self ^ 2
  /\ density_prefactor self = M0 / (2 * PI * a0 ^ 3)
  /\ f_prefactor self * g_prefactor self = M0 / (12 * PI * vg self ^ 2).
Proof.
  intros HG HM Ha self.
  pose proof (vg_positive self0 M0 a0) as Hvg. fold self in Hvg.
  pose proof (init_parameters_vg self0 M0 a0 HG HM Ha) as Hvg2. fold self in Hvg2.
  assert (Hpi : 0 < PI) by apply PI_RGT_0.
  assert (Hr2 : 0 < sqrt 2) by (apply sqrt_lt_R0; lra).
  split; [reflexivity|]. split; [reflexivity|]. split; [reflexivity|].
  split; [exact Hvg|]. split; [exact Hvg2|].
  split; [|split].
  - rewrite Hvg2. unfold self, init_parameters.
    cbn [phi_of_0 set_model fneg fmul fdiv R_scalar]. field. lra.
  - unfold self, init_parameters.
    cbn [density_prefactor set_model lit fmul fdiv np_power np_pi R_scalar R_libm].
    rewrite !Q2R_Z, (Rpower_3 a0) by exact Ha. reflexivity.
  - change (f_prefactor self)
      with (M0 / (Q2R 8 * sqrt (Q2R 2) * Rpower PI (Q2R 3) * Rpower a0 (Q2R 3)
                  * Rpower (vg self) (Q2R 3))).
    change (g_prefactor self)
      with (Q2R 2 * sqrt (Q2R 2) * Rpower PI (Q2R 2) * Rpower a0 (Q2R 3) * vg self / Q2R 3).
    rewrite !Q2R_Z.
    rewrite (Rpower_3 PI), (Rpower_3 a0), (Rpower_3 (vg self)), (Rpower_2 PI) by assumption.
    field. repeat split; lra.
Qed.

(** X7.  The profile functions on a model built by [__init__] from positive
    [G], [M] and [a], at a radius [r >= 0], over the real numbers: the
    potential is [- G M / (r + a)], it lies in \[phi_of_0, 0) and equals
    [phi_of_0] at [r = 0]; the variable [q] that [q_of_E] assigns to it is
    [sqrt (a / (r + a))], in (0, 1\]; the squared escape speed of
    [_vesc_sq_] is [-2] times the potential, and it is the square of the
    upper end [vmax] that [draw_speeds] gives to [rejection_sample]. *)
Theorem potential_is_bound_energy (self0 : Hernquist.t R) (M0 a0 r : R) :
  0 < G self0 -> 0 < M0 -> 0 < a0 -> 0 <= r ->
  let self := init_parameters self0 M0 a0 in
  potential self r = - (G self0 * M0) / (r + a0)
  /\ phi_of_0 self <= potential self r < 0
  /\ potential self 0 = phi_of_0 self
  /\ q_of_E self (potential self r) = sqrt (a0 / (r + a0))
  /\ 0 < q_of_E self (potential self r) <= 1
  /\ _vesc_sq_ self r = - 2 * potential self r
  /\ sqrt (2 * Rabs (potential self r)) ^ 2 = _vesc_sq_ self r.
Proof.
  intros HG HM Ha Hr self.
  assert (HGM : 0 < G self0 * M0) by nra.
  assert (Hra : 0 < r + a0) by lra.
  assert (Hpot : potential self r = - (G self0 * M0) / (r + a0)).
  { unfold self, init_parameters, potential.
    cbn [a G M set_model fneg fadd fmul fdiv R_scalar]. field. lra. }
  assert (Hphi : phi_of_0 self = - (G self0 * M0) / a0).
  { unfold self, init_parameters. cbn [phi_of_0 set_model fneg fmul fdiv R_scalar].
    field. lra. }
  assert (Hq : q_of_E self (potential self r) = sqrt (a0 / (r + a0))).
  { unfold q_of_E. cbn [fsqrt fdiv R_scalar]. rewrite Hpot, Hphi. f_equal. field. lra. }
  assert (Hlt : potential self r < 0).
  { rewrite Hpot. unfold Rdiv. rewrite Ropp_mult_distr_l_reverse.
    apply Ropp_lt_gt_0_contravar. apply Rmult_lt_0_compat; [exact HGM|].
    apply Rinv_0_lt_compat. exact Hra. }
  assert (Hratio : 0 < a0 / (r + a0) <= 1).
  { split.
    - apply Rdiv_lt_0_compat; assumption.
    - apply Rmult_le_reg_r with (r + a0); [exact Hra|].
      unfold Rdiv. rewrite Rmult_assoc, Rinv_l by lra. lra. }
  assert (Hvesc : _vesc_sq_ self r = - 2 * potential self r).
  { rewrite Hpot. unfold self, init_parameters, _vesc_sq_.
    cbn [a G M set_model lit fadd fmul fdiv R_scalar]. rewrite !Q2R_Z. field. lra. }
  split; [exact Hpot|]. split; [split; [|exact Hlt]|].
  - rewrite Hpot, Hphi.
    replace (- (G self0 * M0) / a0) with (- (G self0 * M0 / a0)) by (field; lra).
    replace (- (G self0 * M0) / (r + a0)) with (- (G self0 * M0 / (r + a0))) by (field; lra).
    apply Ropp_le_contravar. unfold Rdiv. apply Rmult_le_compat_l; [lra|].
    apply Rinv_le_contravar; lra.
  - split.
    + unfold self, init_parameters, potential.
      cbn [a G M phi_of_0 set_model fneg fadd fmul fdiv R_scalar]. field. lra.
    + split; [exact Hq|]. split; [|split; [exact Hvesc|]].
      * rewrite Hq. split.
        -- apply sqrt_lt_R0. apply Hratio.
        -- rewrite <- sqrt_1. apply sqrt_le_1_alt. apply Hratio.
      * rewrite Hvesc. rewrite (Rabs_left _ Hlt).
        replace (sqrt (2 * - potential self r) ^ 2)
          with (sqrt (2 * - potential self r) * sqrt (2 * - potential self r)) by ring.
        rewrite sqrt_sqrt by lra. ring.
Qed.

(** X8.  The density on a model built by [__init__], at a positive radius, over
    the real numbers: equation 2 of Hernquist 1990,
    [M a / (2 pi r (r + a)^3)]; it is positive. *)
Theorem density_closed_form (self0 : Hernquist.t R) (M0 a0 r : R) :
  0 < M0 -> 0 < a0 -> 0 < r ->
  let self := init_parameters self0 M0 a0 in
  density self r = M0 * a0 / (2 * PI * r * (r + a0) ^ 3)
  /\ 0 < density self r.
Proof.
  intros HM Ha Hr self.
  assert (Hpi : 0 < PI) by apply PI_RGT_0.
  assert (Hrt : 0 < r / a0) by (apply Rdiv_lt_0_compat; assumption).
  assert (Heq : density self r = M0 * a0 / (2 * PI * r * (r + a0) ^ 3)).
  { unfold self, init_parameters, density.
    cbn [a density_prefactor set_model lit fadd fmul fdiv np_power np_pi R_scalar R_libm].
    rewrite !Q2R_Z.
    rewrite (Rpower_neg1 (r / a0)) by exact Hrt.
    rewrite (Rpower_neg3 (r / a0 + 1)) by lra.
    rewrite (Rpower_3 a0) by exact Ha.
    field. repeat split; lra. }
  split; [exact Heq|]. rewrite Heq.
  apply Rdiv_lt_0_compat; [nra|].
  apply Rmult_lt_0_compat; [nra|]. apply pow_lt. lra.
Qed.

(** X9.  [_init_units_] over the real numbers, for positive units of length and
    velocity: the gravitational constant in the model's units is
    [6.6738e-8 UnitMass / (UnitLength UnitVelocity^2)] and the unit of
    time is [UnitLength / UnitVelocity] seconds; with the default units of
    [__init__], [G] lies between 43018 and 43019. *)
Theorem init_units_gravity (self : Hernquist.t R) (L Mass V : R) :
  0 < L -> 0 < V ->
  let self' := _init_units_ self L Mass V in
  G self' = 6.6738e-8 * Mass / (L * V ^ 2)
  /\ UnitTime_in_s self' = L / V
  /\ UnitTime_in_Megayears self' = L / V / 3.15576e13
  /\ (L = default_UnitLength_in_cm -> Mass = default_UnitMass_in_g ->
      V = default_UnitVelocity_in_cm_per_s -> 43018 < G self' < 43019).
Proof.
  intros HL HV self'.
  assert (HG : G self' = 6.6738e-8 * Mass / (L * V ^ 2)).
  { unfold self', _init_units_. cbn [G lit fmul fdiv np_power R_scalar R_libm].
    rewrite !Q2R_Z.
    rewrite (Rpower_neg3 L) by exact HL.
    rewrite (Rpower_2 (L / V)) by (apply Rdiv_lt_0_compat; assumption).
    Q2R_value 6.6738e-8%Q.
    replace 6.6738e-8 with (66738 * / 1000000000000) by lra.
    field. split; lra. }
  split; [exact HG|]. split; [reflexivity|]. split.
  - unfold self', _init_units_. cbn [UnitTime_in_Megayears lit fdiv R_scalar].
    Q2R_value 3.15576e13%Q. lra.
  - intros -> -> ->. rewrite HG.
    unfold default_UnitLength_in_cm, default_UnitMass_in_g, default_UnitVelocity_in_cm_per_s.
    cbn [lit R_scalar].
    Q2R_value 3.085678e21%Q. Q2R_value 1.989e43%Q. Q2R_value 1e5%Q.
    match goal with |- _ < ?n / ?d < _ =>
      assert (Hd : 0 < d) by lra;
      assert (Hn : n / d * d = n) by (field; lra);
      split; (apply Rmult_lt_reg_r with d; [exact Hd|]); rewrite Hn; lra
    end.
Qed.

End ProfileR.

(** [init_parameters_constants] on the unit halo. *)
Lemma init_parameters_constants_witness :
  let self := Hernquist.init_parameters unit_halo_R 1%R 1%R in
  (Hernquist.vg self ^ 2 = 1 * 1 / 1)%R
  /\ (Hernquist.phi_of_0 self = - Hernquist.vg self ^ 2)%R.
Proof.
  destruct (init_parameters_constants unit_halo_R 1%R 1%R)
    as (_ & _ & _ & _ & Hvg & Hphi & _).
  - simpl. lra.
  - lra.
  - lra.
  - split; [exact Hvg|exact Hphi].
Defined.

(** [potential_is_bound_energy] on the unit halo at the radius 3, where
    [q = sqrt (1/4)]. *)
Lemma potential_is_bound_energy_witness :
  let self := Hernquist.init_parameters unit_halo_R 1%R 1%R in
  (Hernquist.potential self 3%R = - (1 * 1) / (3 + 1))%R
  /\ Hernquist.q_of_E self (Hernquist.potential self 3%R) = sqrt (1 / (3 + 1)).
Proof.
  destruct (potential_is_bound_energy unit_halo_R 1%R 1%R 3%R)
    as (Hpot & _ & _ & Hq & _).
  - simpl. lra.
  - lra.
  - lra.
  - lra.
  - split; [exact Hpot|exact Hq].
Defined.

(** [density_closed_form] on the unit halo at the radius 1. *)
Lemma density_closed_form_witness :
  let self := Hernquist.init_parameters unit_halo_R 1%R 1%R in
  (Hernquist.density self 1%R = 1 * 1 / (2 * PI * 1 * (1 + 1) ^ 3))%R.
Proof.
  destruct (density_closed_form unit_halo_R 1%R 1%R 1%R) as [Heq _];
    [lra|lra|lra|exact Heq].
Defined.

(** [init_units_gravity] with the default units. *)
Lemma init_units_gravity_witness :
  let self' := Hernquist._init_units_ Hernquist.blank Hernquist.default_UnitLength_in_cm
                 Hernquist.default_UnitMass_in_g Hernquist.default_UnitVelocity_in_cm_per_s in
  (43018 < Hernquist.G self' < 43019)%R.
Proof.
  destruct (init_units_gravity Hernquist.blank Hernquist.default_UnitLength_in_cm
              Hernquist.default_UnitMass_in_g Hernquist.default_UnitVelocity_in_cm_per_s)
    as (_ & _ & _ & Hdef).
  - unfold Hernquist.default_UnitLength_in_cm. cbn [lit R_scalar].
    Q2R_value 3.085678e21%Q. lra.
  - unfold Hernquist.default_UnitVelocity_in_cm_per_s. cbn [lit R_scalar].
    Q2R_value 1e5%Q. lra.
  - apply Hdef; reflexivity.
Defined.
(** ** Index arrays from a mask over another array *)

Section MaskLemmas.
Context {F : Type} `{!Scalar F}.

Lemma take_at_map (g : F -> F) (keys : list nat) (xs : list F) :
  take_at keys (map g xs) = map g (take_at keys xs).
Proof.
  unfold take_at. induction keys as [|k keys IH]; [reflexivity|].
  cbn [omap list_omap]. rewrite list_lookup_fmap.
  destruct (xs !! k); simpl; [f_equal|]; exact IH.
Qed.

Lemma assign_at_where_from_zip (p : F -> bool) (v : F) :
  forall xs ys pre,
    length ys = length xs ->
    assign_at (where_from (length pre) (map p xs)) v (pre ++ ys)
    = pre ++ zip_with (fun x y => if p x then v else y) xs ys.
Proof.
  induction xs as [|x rest IH]; intros ys pre Hlen.
  - destruct ys; [reflexivity|discriminate].
  - destruct ys as [|y ys]; [discriminate|]. simpl in Hlen.
    simpl. specialize (IH ys (pre ++ [if p x then v else y]) ltac:(lia)).
    rewrite length_app in IH. simpl in IH. rewrite Nat.add_1_r in IH.
    rewrite <- app_assoc in IH. simpl in IH.
    destruct (p x) eqn:Hp.
    + unfold assign_at in *. simpl.
      replace (<[length pre := v]> (pre ++ y :: ys)) with (pre ++ v :: ys).
      * rewrite IH, <- app_assoc. reflexivity.
      * rewrite insert_app_r_alt by lia. rewrite Nat.sub_diag. reflexivity.
    + rewrite IH, <- app_assoc. reflexivity.
Qed.

Lemma assign_at_where_map (p : F -> bool) (h : F -> F) (v : F) (xs : list F) :
  assign_at (np_where (map p xs)) v (map h xs) = map (fun x => if p x then v else h x) xs.
Proof.
  pose proof (assign_at_where_from_zip p v xs (map h xs) [] (length_map h xs)) as H.
  simpl in H. unfold np_where. rewrite H. apply zip_with_map_r_same.
Qed.

Lemma where_from_none (p : F -> bool) (xs : list F) (n : nat) :
  List.filter p xs = [] -> where_from n (map p xs) = [].
Proof.
  revert n. induction xs as [|x xs IH]; intros n H; [reflexivity|].
  simpl in *. destruct (p x); [discriminate|]. apply IH. exact H.
Qed.

End MaskLemmas.

(** ** The guard of [_sigmasq_] *)

Section SigmasqGuard.
Context {F : Type} `{!Scalar F} `{!Libm F}.
Import Hernquist.

(** The index array of the guard and the scaled radii it selects. *)
Lemma sigmasq_guard_selection (self : Hernquist.t F) (r : list F) :
  let rt := map (fun x => x / a self)%S r in
  take_at (np_where (map fisnan (map (sigmasq_closed_form self) rt))) rt
  = map (fun x => x / a self)%S (sigmasq_nan_radii self r).
Proof.
  cbv zeta. rewrite !map_map, take_at_map. f_equal.
  apply (take_at_where (fun x => fisnan (sigmasq_closed_form self (x / a self)%S))).
Qed.

(** X10.  [_sigmasq_] raises [ValueError] whenever the closed form is NaN at two
    or more of the radii, whatever these radii are: the guard of lines
    270-273 runs once, over the array of all these indices, and takes the
    truth value of an array with more than one element. *)
Theorem sigmasq_raises_on_two_nan (self : Hernquist.t F) (r : list F) :
  (2 <= length (sigmasq_nan_radii self r))%nat ->
  _sigmasq_ self r
  = Raises (ValueError "The truth value of an array with more than one element is ambiguous").
Proof.
  intros Hlen. unfold _sigmasq_. cbn [fold_left]. unfold nan_guard.
  rewrite sigmasq_guard_selection.
  destruct (sigmasq_nan_radii self r) as [|x0 [|x1 rest]]; simpl in Hlen; try lia.
  reflexivity.
Qed.

(** X11.  When the closed form is NaN at no radius or at one, [_sigmasq_]
    returns, element by element, [sigmasq_of_r]: [G M / 5 / (rt a)]
    where the scaled radius [rt = r / a] exceeds 300; else 0 where the
    closed form is NaN and [0 <= rt < 1e-12]; else the closed form (a
    NaN from any other cause stays). *)
Theorem sigmasq_pointwise (self : Hernquist.t F) (r : list F) :
  (length (sigmasq_nan_radii self r) <= 1)%nat ->
  _sigmasq_ self r = Returns (map (sigmasq_of_r self) r).
Proof.
  intros Hlen. unfold _sigmasq_. cbn [fold_left]. unfold nan_guard.
  rewrite sigmasq_guard_selection.
  set (g := fun x => (x / a self)%S).
  set (p := fun x => fisnan (sigmasq_closed_form self (g x))).
  set (far := fun q => (G self * M self / lit 5 / (q * a self))%S).
  assert (Hfar : forall guarded : F -> F,
            assign_array_at (np_where (map (fun x => (x >? lit 300)%S) (map g r)))
              (map (fun x => (G self * M self / lit 5 / x)%S)
                 (map (fun x => (x * a self)%S)
                    (take_at (np_where (map (fun x => (x >? lit 300)%S) (map g r))) (map g r))))
              (map guarded r)
            = map (fun x => if (g x >? lit 300)%S then far (g x) else guarded x) r).
  { intros guarded. rewrite (map_map (fun x => (x * a self)%S)).
    change (map (fun x => (G self * M self / lit 5 / (x * a self))%S)) with (map far).
    replace (map guarded r) with (map (fun q => q) (map guarded r)) by apply map_id.
    rewrite (assign_array_at_where (fun x => (x >? lit 300)%S) far (map g r))
      by (rewrite !length_map; reflexivity).
    rewrite map_id, !zip_with_fmap_l, zip_with_fmap_r.
    rewrite zip_with_diag. reflexivity. }
  assert (Hnan : map fisnan (map (sigmasq_closed_form self) (map g r)) = map p r)
    by (rewrite !map_map; reflexivity).
  assert (Hans : map (sigmasq_closed_form self) (map g r)
                 = map (fun x => sigmasq_closed_form self (g x)) r)
    by (rewrite map_map; reflexivity).
  unfold sigmasq_nan_radii in *.
  change (List.filter (fun x => fisnan (sigmasq_closed_form self (x / a self)%S)) r)
    with (List.filter p r) in Hlen |- *.
  destruct (List.filter p r) as [|x0 [|x1 rest]] eqn:Hfilter; simpl in Hlen; try lia.
  - cbn [map array_bool]. rewrite Hans, Hfar. f_equal.
    apply map_ext_in. intros x Hx. unfold sigmasq_of_r. fold (g x). fold (far (g x)).
    destruct (g x >? lit 300)%S; [reflexivity|].
    assert (Hp : p x = false).
    { destruct (p x) eqn:Hpx; [|reflexivity].
      assert (Hin : In x (List.filter p r)) by (apply filter_In; auto).
      rewrite Hfilter in Hin. destruct Hin. }
    unfold p in Hp. rewrite Hp. reflexivity.
  - assert (Honly : forall x, In x r -> p x = true -> x = x0).
    { intros x Hx Hpx.
      assert (Hin : In x (List.filter p r)) by (apply filter_In; auto).
      rewrite Hfilter in Hin. destruct Hin as [Heq|[]]. congruence. }
    assert (Hp0 : p x0 = true).
    { assert (Hin : In x0 (List.filter p r)) by (rewrite Hfilter; left; reflexivity).
      apply filter_In in Hin. tauto. }
    cbn [map array_bool].
    destruct (lit 0 <=? g x0)%S eqn:Hb1; [destruct (g x0 <? lit 1e-12)%S eqn:Hb2|].
    + rewrite Hnan, Hans. rewrite (assign_at_where_map p). rewrite Hfar. f_equal.
      apply map_ext_in. intros x Hx. unfold sigmasq_of_r. fold (g x). fold (far (g x)).
      destruct (g x >? lit 300)%S; [reflexivity|].
      fold (p x). destruct (p x) eqn:Hpx; [|reflexivity].
      rewrite (Honly x Hx Hpx), Hb1, Hb2. reflexivity.
    + rewrite Hans, Hfar. f_equal.
      apply map_ext_in. intros x Hx. unfold sigmasq_of_r. fold (g x). fold (far (g x)).
      destruct (g x >? lit 300)%S; [reflexivity|].
      fold (p x). destruct (p x) eqn:Hpx; [|reflexivity].
      rewrite (Honly x Hx Hpx), Hb1, Hb2. reflexivity.
    + rewrite Hans, Hfar. f_equal.
      apply map_ext_in. intros x Hx. unfold sigmasq_of_r. fold (g x). fold (far (g x)).
      destruct (g x >? lit 300)%S; [reflexivity|].
      fold (p x). destruct (p x) eqn:Hpx; [|reflexivity].
      rewrite (Honly x Hx Hpx), Hb1. reflexivity.
Qed.

End SigmasqGuard.

(** [sigmasq_raises_on_two_nan] on three radii, two of them 0, with the
    special values of the C standard. *)
Lemma sigmasq_raises_on_two_nan_witness :
  Hernquist._sigmasq_ (Libm0 := libm_special_values) unit_halo [0%float; 1%float; 0%float]
  = Raises (ValueError "The truth value of an array with more than one element is ambiguous").
Proof.
  apply (sigmasq_raises_on_two_nan (Libm0 := libm_special_values) unit_halo
           [0%float; 1%float; 0%float]).
  vm_compute. lia.
Defined.

(** [sigmasq_pointwise] on the single radius 0, with the special values of
    the C standard. *)
Lemma sigmasq_pointwise_witness :
  Hernquist._sigmasq_ (Libm0 := libm_special_values) unit_halo [0%float]
  = Returns (map (sigmasq_of_r (Libm0 := libm_special_values) unit_halo) [0%float]).
Proof.
  apply (sigmasq_pointwise (Libm0 := libm_special_values) unit_halo [0%float]).
  vm_compute. lia.
Defined.
(** ** Positions over the reals *)

Section PositionsR.
Import Hernquist.
Open Scope R_scope.

(** The radius [draw_radii] makes of a variate [f] of \[0, 1). *)
Lemma radius_of_variate (a0 f : R) :
  0 < a0 -> 0 <= f < 1 ->
  let r := sqrt f / (1 - sqrt f) * a0 in
  0 <= r /\ (r / a0) ^ 2 / (1 + r / a0) ^ 2 = f.
Proof.
  intros Ha [Hf0 Hf1] r.
  assert (Hs0 : 0 <= sqrt f) by apply sqrt_pos.
  assert (Hs1 : sqrt f < 1) by (rewrite <- sqrt_1; apply sqrt_lt_1_alt; lra).
  assert (Hss : sqrt f * sqrt f = f) by (apply sqrt_sqrt; exact Hf0).
  split.
  - unfold r. apply Rmult_le_pos; [|lra].
    unfold Rdiv. apply Rmult_le_pos; [exact Hs0|].
    left. apply Rinv_0_lt_compat. lra.
  - unfold r. transitivity (sqrt f * sqrt f); [|exact Hss].
    field. repeat split; lra.
Qed.

(** The length of a Cartesian triple built from a length [r], a polar
    angle and an azimuth. *)
Lemma spherical_norm (r theta phi : R) :
  sqrt (r * sin theta * cos phi * (r * sin theta * cos phi)
        + r * sin theta * sin phi * (r * sin theta * sin phi)
        + r * cos theta * (r * cos theta)) = Rabs r.
Proof.
  rewrite <- sqrt_Rsqr_abs. f_equal. unfold Rsqr.
  pose proof (sin_cos_sq theta) as Ht. pose proof (sin_cos_sq phi) as Hp.
  replace (r * sin theta * cos phi * (r * sin theta * cos phi)
           + r * sin theta * sin phi * (r * sin theta * sin phi)
           + r * cos theta * (r * cos theta))
    with (r * r * (sin theta * sin theta * (sin phi * sin phi + cos phi * cos phi)
                   + cos theta * cos theta)) by ring.
  rewrite Hp, Rmult_1_r, Ht. ring.
Qed.

Lemma directions_norm (r theta phi : list R) :
  length theta = length r -> length phi = length r ->
  np_linalg_norm
    (np_transpose3
       (zip_with Rmult (zip_with Rmult r (map sin theta)) (map cos phi))
       (zip_with Rmult (zip_with Rmult r (map sin theta)) (map sin phi))
       (zip_with Rmult r (map cos theta)))
  = map Rabs r.
Proof.
  revert theta phi. induction r as [|r0 r IH]; intros theta phi Ht Hp.
  - destruct theta; [|discriminate]. reflexivity.
  - destruct theta as [|t0 theta]; [discriminate|].
    destruct phi as [|p0 phi]; [discriminate|].
    simpl in Ht, Hp.
    unfold np_linalg_norm, np_transpose3 in *. cbn [map zip_with fsqrt fadd fmul R_scalar].
    rewrite spherical_norm. f_equal. apply IH; lia.
Qed.

Lemma map_Rabs_nonneg (rs : list R) : Forall (fun r => 0 <= r) rs -> map Rabs rs = rs.
Proof.
  induction 1 as [|r rs Hr _ IH]; [reflexivity|]. simpl.
  rewrite IH, Rabs_pos_eq by exact Hr. reflexivity.
Qed.

(** What [draw_radii] returns over the reals. *)
Lemma draw_radii_run (self : Hernquist.t R) (N : nat) (w : world R) :
  draw_radii self N w
  = Returns (map (fun f => sqrt f / (1 - sqrt f) * a self)
               (map (rng_stream w) (seq (rng_pos w) N)),
             mkWorld (heap w) (rng_stream w) (rng_pos w + N) (stdout w)).
Proof.
  unfold draw_radii. py_unfold. cbn [lit fsqrt fsub fdiv fmul R_scalar].
  rewrite !Q2R_Z, !map_map. reflexivity.
Qed.

(** X12.  [draw_radii] over the real numbers, with a positive scale length and
    variates in \[0, 1): it returns [N] radii and consumes [N] variates;
    every radius is non-negative, and the mass fraction
    [(r/a)^2 / (1 + r/a)^2] enclosed by the [i]-th radius is the [i]-th
    variate (the radius is the inverse of the cumulative mass profile at
    the variate). *)
Theorem draw_radii_inverts_mass_profile (self : Hernquist.t R) (N : nat) (w : world R) :
  0 < a self ->
  (forall n, 0 <= rng_stream w n < 1) ->
  exists rs,
    draw_radii self N w
    = Returns (rs, mkWorld (heap w) (rng_stream w) (rng_pos w + N) (stdout w))
    /\ length rs = N
    /\ forall i, (i < N)%nat ->
         exists r, rs !! i = Some r /\ 0 <= r
           /\ (r / a self) ^ 2 / (1 + r / a self) ^ 2 = rng_stream w (rng_pos w + i).
Proof.
  intros Ha Hu. eexists. split; [apply draw_radii_run|].
  split; [rewrite !length_map, length_seq; reflexivity|].
  intros i Hi. eexists. split.
  - rewrite !list_lookup_fmap, lookup_seq_lt by exact Hi. reflexivity.
  - apply radius_of_variate; [exact Ha|apply Hu].
Qed.

(** X13.  [draw_coordinates] over the real numbers, with a positive scale length
    and variates in \[0, 1): it consumes [3 N] variates, the first [N] of
    them through [draw_radii], and the distance of every position from the
    origin ([np.linalg.norm], as [draw_velocities] computes it) is the
    radius [draw_radii] drew for it. *)
Theorem draw_coordinates_keeps_radii (self : Hernquist.t R) (N : nat) (w : world R) :
  0 < a self ->
  (forall n, 0 <= rng_stream w n < 1) ->
  exists pos rs w1,
    draw_radii self N w = Returns (rs, w1)
    /\ draw_coordinates self N w
       = Returns (pos, mkWorld (heap w) (rng_stream w) (rng_pos w + 3 * N) (stdout w))
    /\ length pos = N
    /\ np_linalg_norm pos = rs.
Proof.
  intros Ha Hu.
  set (rs := map (fun f => sqrt f / (1 - sqrt f) * a self)
               (map (rng_stream w) (seq (rng_pos w) N))).
  assert (Hlen : length rs = N) by (unfold rs; rewrite !length_map, length_seq; reflexivity).
  assert (Hpos : Forall (fun r => 0 <= r) rs).
  { unfold rs. rewrite map_map. apply Forall_fmap, Forall_forall. intros n _. simpl.
    apply (radius_of_variate (a self) (rng_stream w n) Ha (Hu n)). }
  eexists _, rs, _. split; [apply draw_radii_run|].
  unfold draw_coordinates, mbind, Py_bind, bind. rewrite draw_radii_run. fold rs.
  py_unfold. cbn [rng_stream rng_pos heap stdout np_sin np_cos np_arccos np_pi
                  R_trig R_libm fmul R_scalar].
  split; [|split].
  - do 2 f_equal. f_equal. lia.
  - unfold np_transpose3. rewrite !length_zip_with, !length_map, !length_seq, Hlen. lia.
  - rewrite directions_norm by (rewrite !length_map, length_seq, Hlen; reflexivity).
    apply map_Rabs_nonneg. exact Hpos.
Qed.

End PositionsR.
(** ** Speeds and velocities over the reals *)

Section SpeedsR.
Import Hernquist.
Open Scope R_scope.

(** A variate of \[0, 1) times the upper end [vmax] of the interval that
    [draw_speeds] passes for the radius [r] is a speed below the escape
    speed at [r]. *)
Lemma scaled_variate_below_escape (self : Hernquist.t R) (r u : R) :
  0 < G self -> 0 < M self -> 0 < a self -> 0 <= r -> 0 <= u < 1 ->
  let vmax := fsqrt (lit 2 * fabs (potential self r))%S in
  let s := u * (vmax - lit 0) in
  0 <= s /\ s ^ 2 < _vesc_sq_ self r.
Proof.
  intros HG HM Ha Hr [Hu0 Hu1] vmax s.
  assert (HGM : 0 < G self * M self) by nra.
  assert (Hra : 0 < r + a self) by lra.
  assert (Hinv : 0 < / (r + a self)) by (apply Rinv_0_lt_compat; exact Hra).
  assert (Hpot : potential self r = - (G self * M self * / (r + a self))).
  { unfold potential. cbn [fneg fadd fmul fdiv R_scalar]. field. lra. }
  assert (Hvesc : _vesc_sq_ self r = 2 * (G self * M self * / (r + a self))).
  { unfold _vesc_sq_. cbn [lit fadd fmul fdiv R_scalar]. rewrite !Q2R_Z. field. lra. }
  assert (Hpos : 0 < G self * M self * / (r + a self)) by (apply Rmult_lt_0_compat; assumption).
  assert (Hvmax : vmax * vmax = _vesc_sq_ self r).
  { unfold vmax. cbn [lit fsqrt fabs fmul R_scalar]. rewrite !Q2R_Z, Hpot, Rabs_Ropp.
    rewrite Rabs_pos_eq by lra. rewrite sqrt_sqrt by lra. rewrite Hvesc. reflexivity. }
  assert (Hv0 : 0 <= vmax) by (unfold vmax; cbn [fsqrt R_scalar]; apply sqrt_pos).
  unfold s. cbn [lit R_scalar]. rewrite Q2R_Z, Rminus_0_r.
  split; [apply Rmult_le_pos; assumption|].
  replace ((u * vmax) ^ 2) with (u * u * (vmax * vmax)) by ring.
  rewrite Hvmax.
  assert (HV : 0 < _vesc_sq_ self r) by (rewrite Hvesc; lra).
  assert (Huu : u * u < 1) by nra.
  nra.
Qed.

(** The loop of [draw_speeds]. *)
Lemma draw_speeds_loop (fuel : nat) (self : Hernquist.t R) (w : world R) :
  0 < G self -> 0 < M self -> 0 < a self ->
  (forall n, 0 <= rng_stream w n < 1) ->
  forall (r maxval_list : list R) (w2 w' : world R) (speeds : list R),
    Forall (fun x => 0 <= x) r ->
    length maxval_list = length r ->
    rng_stream w2 = rng_stream w ->
    for_each (zip (zip r (map (fun x => fsqrt (lit 2 * fabs (potential self x))%S) r))
                  maxval_list)
      (fun rvm => let '(this_r, vmax, maxval) := rvm in
                  rejection_sample fuel (my_f_of_vr self) maxval 1 (lit 0, vmax) (lit 2)
                    np_longdouble this_r) w2
    = Returns (speeds, w') ->
    rng_stream w' = rng_stream w
    /\ Forall2 (fun r_i s => 0 <= s /\ s ^ 2 < _vesc_sq_ self r_i) r speeds.
Proof.
  intros HG HM Ha Hu.
  induction r as [|r0 r IH]; intros maxval_list w2 w' speeds Hr Hlen Hs Hrun.
  - inversion Hrun; subst. split; [exact Hs|constructor].
  - destruct maxval_list as [|m0 ml]; [discriminate Hlen|].
    inversion Hr as [|? ? Hr0 Hrest]; subst.
    cbn [map zip zip_with for_each] in Hrun. unfold mbind, Py_bind, bind in Hrun.
    match type of Hrun with context [rejection_sample ?f ?t ?m ?n ?x ?o ?d ?ar w2] =>
      destruct (rejection_sample f t m n x o d ar w2) as [[s w3]| |] eqn:Hcall
    end; try discriminate.
    unfold rejection_sample in Hcall. cbn [fst snd] in Hcall.
    destruct (rejection_loop_effect (fun v => v) _ _ _
                (read_only_target_leaves _ (my_f_of_vr_read_only self)) _ _ _ _ _ Hcall)
      as (n & k & _ & _ & Hval & Hs3 & _).
    match type of Hrun with context [for_each ?l ?b w3] =>
      destruct (for_each l b w3) as [[ss w4]| |] eqn:Hrest'
    end; try discriminate.
    unfold mret, Py_ret, ret in Hrun. inversion Hrun; subst speeds w4; clear Hrun.
    destruct (IH ml w3 w' ss Hrest ltac:(simpl in Hlen; lia) ltac:(congruence) Hrest')
      as [Hs' HF].
    split; [exact Hs'|]. constructor; [|exact HF].
    rewrite Hval, Hs.
    apply (scaled_variate_below_escape self r0 _ HG HM Ha Hr0 (Hu _)).
Qed.

(** [draw_speeds] on an instance whose attribute [_maxval_interp_] is set:
    the loop over the radii, their upper ends and the bounds the
    interpolant returns. *)
Lemma draw_speeds_set (fuel : nat) (self : Hernquist.t R) (interp : list R -> list R)
    (r : list R) (nthreads : Z) (w : world R) :
  draw_speeds fuel self (Some interp) r nthreads w
  = for_each (zip (zip r (map (fun p => fsqrt (lit 2 * fabs p)%S) (map (potential self) r)))
                  (interp r))
      (fun rvm => let '(this_r, vmax, maxval) := rvm in
                  rejection_sample fuel (my_f_of_vr self) maxval 1 (lit 0, vmax) (lit 2)
                    np_longdouble this_r) w.
Proof. reflexivity. Qed.

(** X14.  [draw_speeds] over the real numbers, on a model with positive [G],
    [M] and [a], radii that are not negative, variates in \[0, 1) and an
    interpolant (the attribute [_maxval_interp_], which is set) that
    returns one bound for each radius: when it returns,
    it returns one speed for each radius, each of them at least 0 and
    below the escape speed of [_vesc_sq_] at that radius, and it leaves
    the generator's stream as it was. *)
Theorem draw_speeds_below_escape_speed (fuel : nat) (self : Hernquist.t R)
    (_maxval_interp_ : list R -> list R) (r : list R) (nthreads : Z)
    (w w' : world R) (speeds : list R) :
  0 < G self -> 0 < M self -> 0 < a self ->
  Forall (fun x => 0 <= x) r ->
  (forall n, 0 <= rng_stream w n < 1) ->
  length (_maxval_interp_ r) = length r ->
  draw_speeds fuel self (Some _maxval_interp_) r nthreads w = Returns (speeds, w') ->
  rng_stream w' = rng_stream w
  /\ length speeds = length r
  /\ Forall2 (fun r_i s => 0 <= s /\ s ^ 2 < _vesc_sq_ self r_i) r speeds.
Proof.
  intros HG HM Ha Hr Hu Hlen Hrun. rewrite draw_speeds_set in Hrun. rewrite map_map in Hrun.
  destruct (draw_speeds_loop fuel self w HG HM Ha Hu r _ w w' speeds Hr Hlen eq_refl Hrun)
    as [Hs HF].
  split; [exact Hs|]. split; [|exact HF].
  symmetry. apply (Forall2_length _ _ _ HF).
Qed.

(** X15.  [draw_velocities] over the real numbers, on a model with positive
    [G], [M] and [a], variates in \[0, 1) and an interpolant (the
    attribute [_maxval_interp_], which is set) that returns one bound for
    each radius: when it returns, it returns one velocity
    for each position, and the magnitude of each velocity is below the
    escape speed at the distance of its position from the origin. *)
Theorem draw_velocities_below_escape_speed (fuel : nat) (self : Hernquist.t R)
    (_maxval_interp_ : list R -> list R) (pos : list (R * R * R)) (nthreads : Z)
    (w w' : world R) (vel : list (R * R * R)) :
  0 < G self -> 0 < M self -> 0 < a self ->
  (forall n, 0 <= rng_stream w n < 1) ->
  length (_maxval_interp_ (np_linalg_norm pos)) = length pos ->
  draw_velocities fuel self (Some _maxval_interp_) pos nthreads w = Returns (vel, w') ->
  length vel = length pos
  /\ Forall2 (fun r_i v => 0 <= v /\ v ^ 2 < _vesc_sq_ self r_i)
             (np_linalg_norm pos) (np_linalg_norm vel).
Proof.
  intros HG HM Ha Hu Hlen Hrun.
  assert (Hnorm_len : length (np_linalg_norm pos) = length pos)
    by (unfold np_linalg_norm; apply length_map).
  assert (Hr : Forall (fun x => 0 <= x) (np_linalg_norm pos)).
  { unfold np_linalg_norm. apply Forall_fmap, Forall_forall. intros [[x y] z] _. simpl.
    apply sqrt_pos. }
  unfold draw_velocities, mbind, Py_bind, bind in Hrun.
  destruct (draw_speeds fuel self (Some _maxval_interp_) (np_linalg_norm pos) nthreads w)
    as [[speeds w1]| |] eqn:Hspeeds; try discriminate.
  rewrite draw_speeds_set in Hspeeds. rewrite map_map in Hspeeds.
  destruct (draw_speeds_loop fuel self w HG HM Ha Hu _ _ w w1 speeds Hr
              ltac:(rewrite Hlen, Hnorm_len; reflexivity) eq_refl Hspeeds) as [_ HF].
  pose proof (Forall2_length _ _ _ HF) as Hslen.
  py_unfold. inversion Hrun; subst vel w'; clear Hrun.
  cbn [np_sin np_cos np_arccos np_pi R_trig R_libm fmul R_scalar].
  rewrite directions_norm by (rewrite !length_map, length_seq; lia).
  split.
  - unfold np_transpose3. rewrite !length_zip_with, !length_map, !length_seq. lia.
  - rewrite map_Rabs_nonneg; [exact HF|].
    clear -HF. induction HF as [|? ? ? ? [H0 _] _ IH]; constructor; assumption.
Qed.

End SpeedsR.
(** ** A run of the speed sampler over the reals *)

Section SpeedRun.
Import Hernquist.
Open Scope R_scope.

Lemma inv_sqrt2_sq : / sqrt 2 * / sqrt 2 = / 2.
Proof.
  assert (H2 : sqrt 2 * sqrt 2 = 2) by (apply sqrt_sqrt; lra).
  assert (Hs : 0 < sqrt 2) by (apply sqrt_lt_R0; lra).
  rewrite <- Rinv_mult, H2. reflexivity.
Qed.

Lemma inv_sqrt2_bounds : 0 < / sqrt 2 < 1.
Proof.
  assert (Hs : 0 < sqrt 2) by (apply sqrt_lt_R0; lra).
  assert (Hi : 0 < / sqrt 2) by (apply Rinv_0_lt_compat; exact Hs).
  pose proof inv_sqrt2_sq as Hsq. split; [exact Hi|]. nra.
Qed.

(** The distribution function is positive at [q = 1 / sqrt 2], where the
    second term of equation 17 vanishes. *)
Lemma envelope_R_positive : 0 < envelope_R.
Proof.
  unfold envelope_R, f_of_q, _f_of_q.
  cbn [f_prefactor unit_halo_R lit fadd fsub fmul fdiv fsqrt np_arcsin np_power
       R_scalar R_libm].
  rewrite !Q2R_Z, inv_sqrt2_sq, asin_inv_sqrt2.
  replace (1 - / 2 - / 2) with 0 by lra. rewrite Rmult_0_l, Rplus_0_r.
  assert (Hpi : 0 < PI) by apply PI_RGT_0.
  assert (Hs : 0 < sqrt 2) by (apply sqrt_lt_R0; lra).
  apply Rmult_lt_0_compat.
  - apply Rmult_lt_0_compat.
    + lra.
    + apply Rpower_pos.
  - apply Rdiv_lt_0_compat; [lra|].
    apply Rmult_lt_0_compat; [apply Rmult_lt_0_compat; [lra|exact Hs]|].
    apply Rmult_lt_0_compat; [apply Rmult_lt_0_compat; exact Hpi|exact Hpi].
Qed.

(** The upper end of the interval of speeds at the centre of the unit
    halo. *)
Lemma unit_halo_vmax :
  (fsqrt (lit 2 * fabs (potential unit_halo_R 0%R)) - lit 0)%S = sqrt 2.
Proof.
  unfold potential. cbn [a G M unit_halo_R lit fneg fadd fsub fmul fdiv fsqrt fabs R_scalar].
  rewrite !Q2R_Z.
  replace (- (1) * 1 / (0 + 1)) with (- (1)) by field.
  rewrite Rabs_Ropp, Rabs_R1, Rmult_1_r. lra.
Qed.

(** The target at the speed 1 (the variate [1 / sqrt 2] times [sqrt 2]).  *)
Lemma unit_halo_target_value (xw : R) :
  xw = sqrt 2 ->
  let v := / sqrt 2 * xw in
  (f_of_q unit_halo_R
     (q_of_E unit_halo_R
        (clamp_energy (potential unit_halo_R 0%R + lit 0.5 * (v * v))%S)) * (v * v))%S
  = envelope_R.
Proof.
  intros -> v.
  assert (Hs : 0 < sqrt 2) by (apply sqrt_lt_R0; lra).
  assert (Hv : v = 1) by (unfold v; field; lra).
  rewrite Hv. unfold potential.
  cbn [a G M unit_halo_R lit fneg fadd fmul fdiv R_scalar].
  replace (- (1) * 1 / (0 + 1) + Q2R 0.5 * (1 * 1)) with (- / 2)
    by (Q2R_value 0.5%Q; field).
  assert (Hclamp : clamp_energy (- / 2) = - / 2).
  { unfold clamp_energy, near_zero_positive. cbn [fltb lit R_scalar].
    rewrite (Rltb_false (Q2R 0) (- / 2)) by (Q2R_value 0%Q; lra). reflexivity. }
  rewrite Hclamp. unfold q_of_E. cbn [phi_of_0 unit_halo_R fsqrt fdiv R_scalar].
  replace (- / 2 / -1) with (/ 2) by field.
  rewrite sqrt_inv. unfold envelope_R. ring.
Qed.

(** At the centre of the unit halo, with the generator handing out
    [1 / sqrt 2] and the bound [envelope_R], the first candidate of the
    first round is accepted. *)
Lemma unit_halo_speed_run (fuel : nat) :
  let vmax := fsqrt (lit 2 * fabs (potential unit_halo_R 0%R))%S in
  exists w',
    rejection_sample (S fuel) (my_f_of_vr unit_halo_R) envelope_R 1
      (lit 0, vmax) (lit 2) np_longdouble 0%R w_inv_sqrt2
    = Returns ((/ sqrt 2 * (vmax - lit 0))%S, w')
    /\ rng_stream w' = rng_stream w_inv_sqrt2.
Proof.
  intros vmax.
  pose proof envelope_R_positive as Henv. pose proof inv_sqrt2_bounds as [Hc0 Hc1].
  set (xw := (vmax - lit 0)%S).
  assert (Hxw : xw = sqrt 2) by apply unit_halo_vmax.
  set (vs := replicate 10 (/ sqrt 2 * xw)).
  set (Es := map (fun x => (potential unit_halo_R 0%R + lit 0.5 * (x * x))%S) vs).
  set (x := fresh (dom (∅ : gmap loc (list R)))).
  pose proof (my_f_of_vr_spec unit_halo_R x 0%R
                (mkWorld (<[x := vs]> (<[x := replicate 10 (/ sqrt 2)]> ∅))
                         (fun _ => / sqrt 2) 20 []) vs
                ltac:(simpl; apply lookup_insert_eq)) as Hcall.
  cbv zeta in Hcall. fold Es in Hcall.
  assert (Hvals : zip_with fmul
                    (map (fun e => f_of_q unit_halo_R (q_of_E unit_halo_R (clamp_energy e))) Es)
                    (map (fun x => (x * x)%S) vs)
                  = replicate 10 envelope_R).
  { unfold Es, vs. cbn [replicate map zip_with].
    rewrite !(unit_halo_target_value xw Hxw). reflexivity. }
  rewrite Hvals in Hcall.
  eexists. split.
  - apply (rejection_sample_accepts_first (my_f_of_vr unit_halo_R) 0%R fuel envelope_R 1
             (lit 0) vmax (lit 2) np_longdouble w_inv_sqrt2 _ envelope_R
             (replicate 9 envelope_R) (my_f_of_vr_read_only unit_halo_R)).
    + exact Hcall.
    + reflexivity.
    + unfold bound_violated, np_any. cbn [replicate map existsb fltb R_scalar].
      rewrite (Rltb_false envelope_R envelope_R) by lra. reflexivity.
    + cbn [fltb fmul R_scalar rng_stream w_inv_sqrt2]. apply Rltb_true. nra.
  - reflexivity.
Qed.

Lemma unit_halo_draw_speeds_run :
  exists s w',
    draw_speeds 1 unit_halo_R (Some (fun r => map (fun _ => envelope_R) r)) [0%R] 1
      w_inv_sqrt2
    = Returns ([s], w').
Proof.
  destruct (unit_halo_speed_run 0) as (w' & Hrun & _). cbv zeta in Hrun.
  eexists _, w'. rewrite draw_speeds_set. cbn [map zip zip_with for_each].
  unfold mbind, Py_bind, bind. rewrite Hrun. reflexivity.
Qed.

End SpeedRun.

(** [draw_radii_inverts_mass_profile] on the unit halo, with the generator
    handing out 0.5: two radii. *)
Lemma draw_radii_inverts_mass_profile_witness :
  exists rs,
    Hernquist.draw_radii unit_halo_R 2 w_R
    = Returns (rs, mkWorld (heap w_R) (rng_stream w_R) (rng_pos w_R + 2) (stdout w_R))
    /\ length rs = 2%nat.
Proof.
  destruct (draw_radii_inverts_mass_profile unit_halo_R 2 w_R) as (rs & Hrun & Hlen & _).
  - simpl. lra.
  - intros n. simpl. lra.
  - exists rs. split; [exact Hrun|exact Hlen].
Defined.

(** [draw_coordinates_keeps_radii] on the unit halo, with the generator
    handing out 0.5: two positions. *)
Lemma draw_coordinates_keeps_radii_witness :
  exists pos rs w1,
    Hernquist.draw_radii unit_halo_R 2 w_R = Returns (rs, w1)
    /\ Hernquist.draw_coordinates unit_halo_R 2 w_R
        = Returns (pos, mkWorld (heap w_R) (rng_stream w_R) (rng_pos w_R + 3 * 2) (stdout w_R))
    /\ Hernquist.np_linalg_norm pos = rs.
Proof.
  destruct (draw_coordinates_keeps_radii unit_halo_R 2 w_R)
    as (pos & rs & w1 & Hr & Hrun & _ & Hnorm).
  - simpl. lra.
  - intros n. simpl. lra.
  - exists pos, rs, w1. auto.
Defined.

(** [draw_speeds_below_escape_speed] at the centre of the unit halo, with
    the generator handing out [1 / sqrt 2] and the constant interpolant
    [envelope_R]: one speed. *)
Lemma draw_speeds_below_escape_speed_witness :
  exists s w',
    Hernquist.draw_speeds 1 unit_halo_R (Some (fun r => map (fun _ => envelope_R) r))
      [0%R] 1 w_inv_sqrt2 = Returns ([s], w')
    /\ Forall2 (fun r_i s => (0 <= s /\ s ^ 2 < Hernquist._vesc_sq_ unit_halo_R r_i)%R)
                [0%R] [s].
Proof.
  destruct unit_halo_draw_speeds_run as (s & w' & Hrun).
  exists s, w'. split; [exact Hrun|].
  destruct (draw_speeds_below_escape_speed 1 unit_halo_R
              (fun r => map (fun _ => envelope_R) r) [0%R] 1 w_inv_sqrt2 w' [s])
    as (_ & _ & HF).
  - simpl. lra.
  - simpl. lra.
  - simpl. lra.
  - constructor; [lra|constructor].
  - intros n. simpl. pose proof inv_sqrt2_bounds. lra.
  - reflexivity.
  - exact Hrun.
  - exact HF.
Defined.

(** [draw_velocities_below_escape_speed] for one particle at the centre of
    the unit halo, with the generator handing out [1 / sqrt 2] and the
    constant interpolant [envelope_R]. *)
Lemma draw_velocities_below_escape_speed_witness :
  exists vel w',
    Hernquist.draw_velocities 1 unit_halo_R
      (Some (fun r => map (fun _ => envelope_R) r)) [(0, 0, 0)%R] 1 w_inv_sqrt2 = Returns (vel, w')
    /\ Forall2 (fun r_i v => (0 <= v /\ v ^ 2 < Hernquist._vesc_sq_ unit_halo_R r_i)%R)
                (Hernquist.np_linalg_norm [(0, 0, 0)%R]) (Hernquist.np_linalg_norm vel).
Proof.
  assert (Hnorm : Hernquist.np_linalg_norm [(0, 0, 0)%R] = [0%R]).
  { unfold Hernquist.np_linalg_norm. cbn [map fsqrt fadd fmul R_scalar].
    replace (0 * 0 + 0 * 0 + 0 * 0)%R with 0%R by ring. rewrite sqrt_0. reflexivity. }
  destruct unit_halo_draw_speeds_run as (s & w1 & Hspeeds).
  assert (Hrun : exists vel w',
            Hernquist.draw_velocities 1 unit_halo_R
              (Some (fun r => map (fun _ => envelope_R) r)) [(0, 0, 0)%R] 1 w_inv_sqrt2 = Returns (vel, w')).
  { unfold Hernquist.draw_velocities. rewrite Hnorm.
    unfold mbind, Py_bind, bind. rewrite Hspeeds. py_unfold. eexists _, _. reflexivity. }
  destruct Hrun as (vel & w' & Hrun). exists vel, w'. split; [exact Hrun|].
  destruct (draw_velocities_below_escape_speed 1 unit_halo_R
              (fun r => map (fun _ => envelope_R) r) [(0, 0, 0)%R] 1 w_inv_sqrt2 w' vel)
    as (_ & HF).
  - simpl. lra.
  - simpl. lra.
  - simpl. lra.
  - intros n. simpl. pose proof inv_sqrt2_bounds. lra.
  - reflexivity.
  - exact Hrun.
  - exact HF.
Defined.
(** ** The sign of the distribution function *)

Section Positivity.
Import Hernquist.
Open Scope R_scope.

(** The function [6 t - 8 sin t + sin 2t], whose derivative is
    [4 (1 - cos t)^2]. *)
Lemma bracket_derivative (t : R) :
  derivable_pt_lim (fun t => 6 * t - 8 * sin t + sin (2 * t)) t
    (6 - 8 * cos t + 2 * cos (2 * t)).
Proof.
  pose proof (derivable_pt_lim_scal id 6 t 1 (derivable_pt_lim_id t)) as H6.
  pose proof (derivable_pt_lim_scal sin 8 t (cos t) (derivable_pt_lim_sin t)) as H8.
  pose proof (derivable_pt_lim_scal id 2 t 1 (derivable_pt_lim_id t)) as H2.
  pose proof (derivable_pt_lim_comp (mult_real_fct 2 id) sin t (2 * 1) (cos (2 * t))
                H2 (derivable_pt_lim_sin _)) as Hs.
  pose proof (derivable_pt_lim_plus _ _ t _ _
                (derivable_pt_lim_minus _ _ t _ _ H6 H8) Hs) as H.
  replace (6 - 8 * cos t + 2 * cos (2 * t))
    with (6 * 1 - 8 * cos t + cos (2 * t) * (2 * 1)) by ring.
  exact H.
Qed.

Lemma bracket_nonneg (t : R) : 0 <= t -> 0 <= 6 * t - 8 * sin t + sin (2 * t).
Proof.
  intros Ht.
  set (h := fun t => 6 * t - 8 * sin t + sin (2 * t)).
  set (pr := fun t => exist (fun l => derivable_pt_abs h t l) _ (bracket_derivative t)
             : derivable_pt h t).
  assert (Hinc : increasing h).
  { apply (nonneg_derivative_1 h pr). intros x. unfold pr, derive_pt. simpl.
    rewrite cos_2a_cos. pose proof (COS_bound x) as [Hlo Hhi]. nra. }
  replace 0 with (h 0) at 1 by (unfold h; rewrite !Rmult_0_r, sin_0; ring).
  apply Hinc. exact Ht.
Qed.

Lemma angle_F_nonneg (x : R) : 0 <= x -> 0 <= angle_F x.
Proof.
  intros Hx. unfold angle_F.
  pose proof (bracket_nonneg (4 * x) ltac:(lra)) as H.
  replace (2 * (4 * x)) with (8 * x) in H by ring. lra.
Qed.

(** The bracket of equation 17 is [angle_F] of the angle [asin q]. *)
Lemma Fnum_angle (q : R) : -1 <= q <= 1 -> Fnum q = angle_F (asin q).
Proof.
  intros Hq. set (x := asin q).
  assert (Hs : sin x = q) by (apply sin_asin; exact Hq).
  assert (Hc : cos x = sqrt (1 - q * q)).
  { unfold x. rewrite cos_asin by exact Hq. unfold Rsqr. reflexivity. }
  pose proof (Fnum_sin x) as H. cbv zeta in H. rewrite Hs, Hc in H.
  unfold Fnum, angle_F. fold x. rewrite H. ring.
Qed.

Lemma Fnum_nonneg (q : R) : 0 <= q <= 1 -> 0 <= Fnum q.
Proof.
  intros [Hq0 Hq1]. rewrite Fnum_angle by lra. apply angle_F_nonneg.
  destruct (Rle_dec 0 (asin q)) as [Hx|Hx]; [exact Hx|exfalso].
  pose proof (asin_bound q) as [Hlo _]. pose proof PI_RGT_0 as Hpi.
  assert (Hneg : sin (asin q) < 0) by (apply sin_lt_0_var; lra).
  rewrite sin_asin in Hneg by lra. lra.
Qed.

(** [f_of_q] as the bracket times the power and the prefactor. *)
Lemma f_of_q_Fnum (self : Hernquist.t R) (q : R) :
  f_of_q self q = Fnum q * Rpower (1 - q * q) (-5 / 2) * f_prefactor self.
Proof.
  unfold f_of_q, _f_of_q, Fnum.
  cbn [lit fadd fsub fmul fdiv fsqrt np_arcsin np_power R_scalar R_libm].
  rewrite !Q2R_Z. reflexivity.
Qed.

Lemma f_prefactor_positive (self0 : Hernquist.t R) (M0 a0 : R) :
  0 < M0 -> 0 < f_prefactor (init_parameters self0 M0 a0).
Proof.
  intros HM.
  assert (Hs : 0 < sqrt 2) by (apply sqrt_lt_R0; lra).
  unfold init_parameters.
  cbn [f_prefactor set_model lit fmul fdiv fsqrt np_power np_pi R_scalar R_libm].
  rewrite !Q2R_Z. apply Rdiv_lt_0_compat; [exact HM|].
  apply Rmult_lt_0_compat; [|apply Rpower_pos].
  apply Rmult_lt_0_compat; [|apply Rpower_pos].
  apply Rmult_lt_0_compat; [|apply Rpower_pos].
  apply Rmult_lt_0_compat; [lra|exact Hs].
Qed.

Lemma f_of_q_nonneg (self : Hernquist.t R) (q : R) :
  0 <= f_prefactor self -> 0 <= q <= 1 -> 0 <= f_of_q self q.
Proof.
  intros Hpre Hq. rewrite f_of_q_Fnum.
  apply Rmult_le_pos; [|exact Hpre].
  apply Rmult_le_pos; [apply Fnum_nonneg; exact Hq|].
  left. apply Rpower_pos.
Qed.

(** The bracket grows strictly on \[0, 2 PI\]: its derivative
    [4 (1 - cos t)^2] vanishes at the two ends only. *)
Lemma bracket_positive (t : R) : 0 < t <= 2 * PI -> 0 < 6 * t - 8 * sin t + sin (2 * t).
Proof.
  intros [Ht0 Ht1]. pose proof PI_RGT_0 as Hpi.
  set (h := fun t => 6 * t - 8 * sin t + sin (2 * t)).
  set (pr := fun t => exist (fun l => derivable_pt_abs h t l) _ (bracket_derivative t)
             : derivable_pt h t).
  replace 0 with (h 0) at 1 by (unfold h; rewrite !Rmult_0_r, sin_0; ring).
  apply (derive_increasing_interv 0 (2 * PI) h pr); [lra| |lra|lra|exact Ht0].
  intros x [Hx0 Hx1]. unfold pr, derive_pt. simpl.
  assert (Hs : 0 < sin (x / 2)) by (apply sin_gt_0; lra).
  assert (Hc : cos x = 1 - 2 * sin (x / 2) * sin (x / 2)).
  { replace x with (2 * (x / 2)) at 1 by field. apply cos_2a_sin. }
  rewrite cos_2a_cos, Hc.
  assert (Hss : 0 < sin (x / 2) * sin (x / 2)) by (apply Rmult_lt_0_compat; assumption).
  nra.
Qed.

Lemma Fnum_positive (q : R) : 0 < q <= 1 -> 0 < Fnum q.
Proof.
  intros [Hq0 Hq1]. rewrite Fnum_angle by lra.
  pose proof (asin_bound q) as [Hlo Hhi]. pose proof PI_RGT_0 as Hpi.
  assert (Hx : 0 < asin q).
  { destruct (Rlt_dec 0 (asin q)) as [Hx|Hx]; [exact Hx|exfalso].
    destruct (Req_dec (asin q) 0) as [Hz|Hnz].
    - pose proof (sin_asin q ltac:(lra)) as Hs. rewrite Hz, sin_0 in Hs. lra.
    - assert (Hneg : sin (asin q) < 0) by (apply sin_lt_0_var; lra).
      rewrite sin_asin in Hneg by lra. lra. }
  unfold angle_F.
  pose proof (bracket_positive (4 * asin q) ltac:(lra)) as H.
  replace (2 * (4 * asin q)) with (8 * asin q) in H by ring. lra.
Qed.

(** The prefactor of the distribution function on a model built from
    positive parameters, with the powers as products. *)
Lemma f_prefactor_R (self0 : Hernquist.t R) (M0 a0 : R) :
  0 < a0 ->
  let self := init_parameters self0 M0 a0 in
  f_prefactor self = M0 / (8 * sqrt 2 * PI ^ 3 * a0 ^ 3 * vg self ^ 3).
Proof.
  intros Ha self. pose proof PI_RGT_0 as Hpi.
  pose proof (vg_positive self0 M0 a0) as Hvg. fold self in Hvg.
  unfold self, init_parameters.
  cbn [f_prefactor vg set_model lit fmul fdiv fsqrt np_power np_pi R_scalar R_libm].
  rewrite !Q2R_Z. rewrite !Rpower_3; [reflexivity|apply Rpower_pos|exact Ha|exact Hpi].
Qed.

Lemma f_of_q_positive_R (self : Hernquist.t R) (q : R) :
  0 < f_prefactor self -> 0 < q < 1 -> 0 < f_of_q self q.
Proof.
  intros Hpre Hq. rewrite f_of_q_Fnum.
  apply Rmult_lt_0_compat; [|exact Hpre].
  apply Rmult_lt_0_compat; [apply Fnum_positive; lra|apply Rpower_pos].
Qed.

(** X16.  On a model built by [__init__] from positive [G], [M] and [a],
    over the real numbers: the prefactor of the distribution function is
    the positive number [M / (8 sqrt 2 PI^3 a^3 vg^3)], and [f_of_q] is
    positive at every [q] with [1e-3 <= q < 1]; it is 0 at [q = 0].
    (Below 1e-3 the bracket of equation 17 is the difference of two
    nearly equal numbers, and [dMdE] replaces the product by a series;
    at [q = 1] the power is infinite.) *)
Theorem f_of_q_positive (self0 : Hernquist.t R) (M0 a0 q : R) :
  0 < G self0 -> 0 < M0 -> 0 < a0 -> 1e-3 <= q < 1 ->
  let self := init_parameters self0 M0 a0 in
  f_prefactor self = M0 / (8 * sqrt 2 * PI ^ 3 * a0 ^ 3 * vg self ^ 3)
  /\ 0 < f_prefactor self
  /\ 0 < f_of_q self q
  /\ f_of_q self 0 = 0.
Proof.
  intros HG HM Ha Hq self.
  pose proof (f_prefactor_positive self0 M0 a0 HM) as Hpre. fold self in Hpre.
  split; [apply f_prefactor_R; exact Ha|]. split; [exact Hpre|]. split.
  - apply f_of_q_positive_R; [exact Hpre|lra].
  - rewrite f_of_q_Fnum. unfold Fnum. rewrite asin_0. ring.
Qed.

End Positivity.

(** [f_of_q_positive] on the unit halo at [q = 0.5]. *)
Lemma f_of_q_positive_witness :
  (0 < Hernquist.f_of_q (Hernquist.init_parameters unit_halo_R 1%R 1%R) 0.5%R)%R.
Proof.
  destruct (f_of_q_positive unit_halo_R 1%R 1%R 0.5%R) as (_ & _ & H & _).
  - simpl. lra.
  - lra.
  - lra.
  - lra.
  - exact H.
Defined.
(** ** The speed samplers never raise *)

Section NeverRaise.
Context {F : Type} `{!Scalar F} `{!Libm F}.
Import Hernquist.

Lemma where_from_bounds (mask : list bool) :
  forall n k ks, where_from n mask = k :: ks -> (n <= k < n + length mask)%nat.
Proof.
  induction mask as [|b mask IH]; intros n k ks H; [discriminate|].
  simpl in H. destruct b.
  - inversion H; subst. simpl. lia.
  - apply IH in H. simpl. lia.
Qed.

(** A round on the target [my_f_of_vr] ends in one of its three ways. *)
Lemma rejection_round_my_f_of_vr_returns (self : Hernquist.t F) (r xwidth maxval : F)
    (w : world F) :
  exists re w', rejection_round (my_f_of_vr self) r xwidth maxval w = Returns (re, w').
Proof.
  unfold rejection_round, draw_and_evaluate, mbind, Py_bind, bind.
  rewrite draw_candidates_spec. cbv zeta.
  set (x := fresh (dom (heap w))).
  set (xs := map (fun v => (v * xwidth)%S) (uniforms w (rng_pos w))).
  set (y := map (fun v => (v * maxval)%S) (uniforms w (rng_pos w + 10))).
  assert (Hxs : length xs = 10%nat) by (unfold xs; rewrite length_map; apply uniforms_length).
  assert (Hy : length y = 10%nat) by (unfold y; rewrite length_map; apply uniforms_length).
  match goal with |- context [my_f_of_vr self x r ?w0] => set (w1 := w0) end.
  assert (Hx : heap w1 !! x = Some xs) by (unfold w1; simpl; apply lookup_insert_eq).
  rewrite (my_f_of_vr_spec self x r w1 xs Hx). cbv zeta.
  match goal with |- context [mret (x, y, ?v) ?w0] => set (vals := v); set (w2 := w0) end.
  assert (Hvals : length vals = 10%nat).
  { unfold vals. rewrite length_zip_with, !length_map. lia. }
  assert (Hx2 : heap w2 !! x = Some xs).
  { unfold w2. simpl.
    assert (Hne : fresh (dom (heap w1)) <> x).
    { intros Heq. apply (is_fresh (dom (heap w1))). rewrite Heq.
      apply elem_of_dom. eauto. }
    rewrite !lookup_insert_ne by exact Hne. exact Hx. }
  unfold mret, Py_ret, ret, decide_round.
  destruct (bound_violated vals maxval) eqn:Hviol.
  - destruct (bound_violated_np_max _ _ Hviol) as [m Hm]. rewrite Hm.
    py_unfold. eexists _, _. reflexivity.
  - unfold np_less.
    destruct (decide (length y = length vals)) as [_|Hne]; [|exfalso; apply Hne; lia].
    py_unfold. unfold ret.
    destruct (np_where (zip_with fltb y vals)) as [|k ks] eqn:Hkeys.
    + eexists _, _. reflexivity.
    + apply where_from_bounds in Hkeys.
      rewrite length_zip_with, Hy, Hvals in Hkeys.
      rewrite Hx2. cbn [from_option Datatypes.id].
      destruct (lookup_lt_is_Some_2 xs k ltac:(lia)) as [s Hs]. rewrite Hs.
      eexists _, _. reflexivity.
Qed.

Lemma rejection_loop_my_f_of_vr_never_raises (self : Hernquist.t F) (r xwidth : F) :
  forall fuel maxval (w : world F) e,
    rejection_loop fuel (my_f_of_vr self) r xwidth maxval w <> Raises e.
Proof.
  induction fuel as [|fuel IH]; intros maxval w e; [discriminate|].
  simpl. unfold mbind, Py_bind, bind.
  destruct (rejection_round_my_f_of_vr_returns self r xwidth maxval w) as (re & w' & Hround).
  rewrite Hround. destruct re; [apply IH|discriminate|apply IH].
Qed.

(** X17.  [_to_loop_over] raises no exception, on any model, input, state
    and mathematical library: a call either returns or goes on drawing.
    (Its grid has 100 points, so [np.nanmax] has something to reduce; the
    target returns as many values as there are candidates, so the
    comparison with the thresholds broadcasts; the accepted index is
    within the candidate array.)  [draw_speeds] raises [AttributeError]
    on an instance whose attribute [_maxval_interp_] is not set, whatever
    the radii are, the empty array included, and before it draws
    anything; that is the one exception it can raise: with the attribute
    set it either returns or goes on drawing. *)
Theorem speed_samplers_never_raise (fuel : nat) (self : Hernquist.t F) (w : world F) :
  (forall r vmax e, _to_loop_over fuel self r vmax w <> Raises e)
  /\ (forall r nthreads,
        draw_speeds fuel self None r nthreads w
        = Raises (AttributeError "_maxval_interp_"))
  /\ (forall interp r nthreads e,
        draw_speeds fuel self (Some interp) r nthreads w <> Raises e).
Proof.
  split; [|split].
  - intros r vmax e. unfold _to_loop_over, mbind, Py_bind, bind. unfold alloc at 1.
    cbv beta zeta.
    set (l := fresh (dom (heap w))).
    rewrite (my_f_of_vr_spec self l r _ (np_linspace (lit 0) vmax 100))
      by (simpl; apply lookup_insert_eq).
    cbv zeta.
    match goal with |- context [np_nanmax ?v] =>
      assert (Hlen : length v = 100%nat)
        by (rewrite length_zip_with, !length_map, np_linspace_length; reflexivity);
      destruct v as [|v0 vs]; [discriminate Hlen|]
    end.
    cbn [np_nanmax or_raise]. unfold ret, rejection_sample.
    apply rejection_loop_my_f_of_vr_never_raises.
  - intros r nthreads. reflexivity.
  - intros interp r nthreads e. unfold draw_speeds, get_maxval_interp. cbn [or_raise].
    unfold mbind, Py_bind, bind, ret.
    generalize (zip (zip r (map (fun p => fsqrt (lit 2 * fabs p)%S) (map (potential self) r)))
                    (interp r)).
    intros l. revert w. induction l as [|[[this_r vmax] maxval] l IH]; intros w; [discriminate|].
    cbn [for_each]. unfold mbind, Py_bind, bind.
    destruct (rejection_sample fuel (my_f_of_vr self) maxval 1 (lit 0, vmax) (lit 2)
                np_longdouble this_r w) as [[s w1]| |] eqn:Hcall.
    + specialize (IH w1).
      match goal with |- context [for_each l ?b w1] =>
        destruct (for_each l b w1) as [[ss w2]| |]
      end; [discriminate|exact IH|discriminate].
    + exfalso. unfold rejection_sample in Hcall.
      exact (rejection_loop_my_f_of_vr_never_raises _ _ _ _ _ _ _ Hcall).
    + discriminate.
Qed.

(** X18.  A speed [_to_loop_over] returns is one of the generator's variates
    times [vmax - 0]: the interval starts at 0, so the lower end that
    [rejection_sample] leaves out is none; the call consumes twenty
    variates for each round and leaves the generator's stream as it
    was. *)
Theorem to_loop_over_returns_scaled_variate (fuel : nat) (self : Hernquist.t F)
    (r vmax : F) (w w' : world F) (s : F) :
  _to_loop_over fuel self r vmax w = Returns (s, w') ->
  exists rounds k,
    (rounds < fuel)%nat /\ (k < 10)%nat
    /\ s = (rng_stream w (rng_pos w + 20 * rounds + k)%nat * (vmax - lit 0))%S
    /\ rng_stream w' = rng_stream w
    /\ rng_pos w' = (rng_pos w + 20 * (rounds + 1))%nat.
Proof.
  unfold _to_loop_over, mbind, Py_bind, bind. unfold alloc at 1. cbv beta zeta.
  set (l := fresh (dom (heap w))).
  rewrite (my_f_of_vr_spec self l r _ (np_linspace (lit 0) vmax 100))
    by (simpl; apply lookup_insert_eq).
  cbv zeta.
  match goal with |- context [np_nanmax ?v] => destruct (np_nanmax v) as [m|] end;
    [|discriminate].
  cbn [or_raise]. unfold ret, rejection_sample. cbn [fst snd]. intros Hrun.
  apply (rejection_loop_effect (fun v => v) _ _ _
           (read_only_target_leaves _ (my_f_of_vr_read_only self))) in Hrun.
  exact Hrun.
Qed.

End NeverRaise.
(** ** Calling [f_of_E] again *)

Section Idempotent.
Context {F : Type} `{!Scalar F} `{!Libm F}.
Import Hernquist.

Lemma anomaly_report_clamped (Es : list F) :
  (forall e : F, anomalous e = true -> near_zero_positive e = false) ->
  anomalous (lit (-1e-8) : F) = false ->
  anomaly_report (map clamp_energy Es) = anomaly_report Es.
Proof.
  intros Hord Hanom.
  assert (Hsame : forall e, anomalous (clamp_energy e) = anomalous e).
  { intros e. unfold clamp_energy. destruct (near_zero_positive e) eqn:Hnz; [|reflexivity].
    rewrite Hanom. destruct (anomalous e) eqn:Ha; [|reflexivity].
    rewrite (Hord e Ha) in Hnz. discriminate. }
  assert (Hex : existsb anomalous (map clamp_energy Es) = existsb anomalous Es).
  { induction Es as [|e Es IH]; [reflexivity|]. simpl. rewrite Hsame, IH. reflexivity. }
  assert (Hfil : List.filter anomalous (map clamp_energy Es) = List.filter anomalous Es).
  { clear Hex. induction Es as [|e Es IH]; [reflexivity|]. simpl. rewrite Hsame, IH.
    destruct (anomalous e) eqn:Ha; [|reflexivity].
    unfold clamp_energy. rewrite (Hord e Ha). reflexivity. }
  unfold anomaly_report. rewrite Hex, Hfil. reflexivity.
Qed.

(** X19.  A second call of [f_of_E] on the same array object returns the values
    of the first, leaves the array as the first call left it, and prints
    the first call's report once more.  (The hypotheses say that -1e-8 is
    neither in (0, 1e-8) nor above 1e-2, and that no number above 1e-2 is
    in (0, 1e-8); they hold in binary64 and over the reals.) *)
Theorem f_of_E_twice (self : Hernquist.t F) (E : loc) (w : world F) (Es : list F) :
  near_zero_positive (lit (-1e-8) : F) = false ->
  anomalous (lit (-1e-8) : F) = false ->
  (forall e : F, anomalous e = true -> near_zero_positive e = false) ->
  heap w !! E = Some Es ->
  exists vals w1 w2,
    f_of_E self E w = Returns (vals, w1)
    /\ f_of_E self E w1 = Returns (vals, w2)
    /\ heap w2 = heap w1
    /\ stdout w2 = stdout w1 ++ anomaly_report Es.
Proof.
  intros Hneg Hanom Hord HE.
  assert (Hcc : forall e, clamp_energy (clamp_energy e) = clamp_energy e).
  { intros e. unfold clamp_energy at 2 3. destruct (near_zero_positive e) eqn:Hnz.
    - unfold clamp_energy. rewrite Hneg. reflexivity.
    - unfold clamp_energy. rewrite Hnz. reflexivity. }
  eexists _, _, _. split; [apply (f_of_E_spec self E w Es HE)|].
  split; [|split].
  - rewrite (f_of_E_spec self E _ (map clamp_energy Es)) by (simpl; apply lookup_insert_eq).
    f_equal. f_equal.
    rewrite map_map. apply map_ext. intros e. rewrite Hcc. reflexivity.
  - simpl. rewrite insert_insert_eq. f_equal.
    rewrite map_map. apply map_ext. exact Hcc.
  - simpl. rewrite anomaly_report_clamped by assumption. reflexivity.
Qed.

End Idempotent.

(** [f_of_E_twice] in binary64, on the array that holds 5e-9. *)
Lemma f_of_E_twice_witness :
  exists vals w1 w2,
    Hernquist.f_of_E (Libm0 := libm_special_values) unit_halo 0%nat w_tiny
    = Returns (vals, w1)
    /\ Hernquist.f_of_E (Libm0 := libm_special_values) unit_halo 0%nat w1
       = Returns (vals, w2)
    /\ heap w2 = heap w1.
Proof.
  destruct (f_of_E_twice (Libm0 := libm_special_values) unit_halo 0%nat w_tiny [5e-9%float])
    as (vals & w1 & w2 & H1 & H2 & Hh & _).
  - reflexivity.
  - reflexivity.
  - exact anomalous_not_near_zero_float.
  - reflexivity.
  - exists vals, w1, w2. auto.
Defined.

(** ** The target of the speed sampler over the reals *)

Section TargetR.
Import Hernquist.
Open Scope R_scope.

(** One value of [my_f_of_vr]: at a speed [x] whose energy
    [potential r + x^2 / 2] lies above the central potential and at most
    at a millionth of it, [q] lies in \[1e-3, 1) and the distribution
    function is positive. *)
Lemma my_f_of_vr_value_nonneg (self0 : Hernquist.t R) (M0 a0 r x : R) :
  0 < G self0 -> 0 < M0 -> 0 < a0 -> 0 <= r ->
  let self := init_parameters self0 M0 a0 in
  phi_of_0 self < potential self r + x * x / 2 <= 1e-6 * phi_of_0 self ->
  0 <= f_of_q self (q_of_E self (clamp_energy (potential self r + lit 0.5 * (x * x))%S))
       * (x * x).
Proof.
  intros HG HM Ha Hr self Hx.
  assert (HGM : 0 < G self0 * M0) by nra.
  assert (Hinva : 0 < / a0) by (apply Rinv_0_lt_compat; exact Ha).
  set (P := G self0 * M0 * / a0).
  assert (HP : 0 < P) by (apply Rmult_lt_0_compat; assumption).
  assert (Hphi : phi_of_0 self = - P).
  { unfold P, self, init_parameters. cbn [phi_of_0 set_model fneg fmul fdiv R_scalar].
    field. lra. }
  set (E := (potential self r + lit 0.5 * (x * x))%S).
  assert (HE : E = potential self r + x * x / 2).
  { unfold E. cbn [lit fadd fmul R_scalar]. Q2R_value 0.5%Q. lra. }
  rewrite <- HE, Hphi in Hx.
  assert (Hxx : 0 <= x * x) by nra.
  assert (Hclamp : clamp_energy E = E).
  { unfold clamp_energy, near_zero_positive. cbn [fltb lit R_scalar].
    rewrite (Rltb_false (Q2R 0) E) by (Q2R_value 0%Q; lra). reflexivity. }
  rewrite Hclamp.
  apply Rmult_le_pos; [|exact Hxx].
  left. apply f_of_q_positive_R.
  - apply f_prefactor_positive. exact HM.
  - unfold q_of_E. cbn [fsqrt fdiv R_scalar]. rewrite Hphi.
    assert (HinvP : 0 < / P) by (apply Rinv_0_lt_compat; exact HP).
    assert (Hratio : 0 < E / - P < 1).
    { replace (E / - P) with (- E * / P) by (field; lra).
      split; [apply Rmult_lt_0_compat; lra|].
      apply Rmult_lt_reg_r with P; [exact HP|].
      rewrite Rmult_assoc, Rinv_l by lra. lra. }
    split; [apply sqrt_lt_R0; apply Hratio|].
    rewrite <- sqrt_1. apply sqrt_lt_1_alt. lra.
Qed.

(** X20.  Over the real numbers, on a model built by [__init__] from positive
    [G], [M] and [a], at a radius [r >= 0]: on an array of speeds whose
    energies [potential(r) + v^2 / 2] lie above the central potential
    [phi_of_0] and at most at [1e-6 * phi_of_0] (bound orbits with [q]
    in \[1e-3, 1), the range of [f_of_q_positive]), [my_f_of_vr]
    returns one value for each speed, none of them negative: on these
    speeds the target that [draw_speeds] samples from is a density. *)
Theorem my_f_of_vr_nonnegative_on_bound_orbits (self0 : Hernquist.t R) (M0 a0 r : R)
    (v : loc) (vs : list R) (w : world R) :
  0 < G self0 -> 0 < M0 -> 0 < a0 -> 0 <= r ->
  let self := init_parameters self0 M0 a0 in
  heap w !! v = Some vs ->
  Forall (fun x => phi_of_0 self < potential self r + x * x / 2 <= 1e-6 * phi_of_0 self) vs ->
  exists vals w',
    my_f_of_vr self v r w = Returns (vals, w')
    /\ length vals = length vs
    /\ Forall (fun y => 0 <= y) vals.
Proof.
  intros HG HM Ha Hr self Hv Hvs.
  eexists _, _. split; [apply (my_f_of_vr_spec self v r w vs Hv)|].
  cbv zeta. rewrite map_map, zip_with_map_same.
  split; [apply length_map|].
  apply Forall_fmap. eapply Forall_impl; [exact Hvs|].
  intros x Hx. simpl.
  apply (my_f_of_vr_value_nonneg self0 M0 a0 r x HG HM Ha Hr Hx).
Qed.

End TargetR.

(** [my_f_of_vr_nonnegative_on_bound_orbits] on the unit halo at the
    radius 1, where the potential is -1/2: the speeds 0.5 and 0.9, of
    energies -0.375 and -0.095; the array sits at address 0. *)
Lemma my_f_of_vr_nonnegative_on_bound_orbits_witness :
  exists vals w',
    Hernquist.my_f_of_vr (Hernquist.init_parameters unit_halo_R 1%R 1%R) 0%nat 1%R
      (mkWorld {[0%nat := [0.5%R; 0.9%R]]} (fun _ => 0.5%R) 0 [])
    = Returns (vals, w')
    /\ Forall (fun y => (0 <= y)%R) vals.
Proof.
  destruct (my_f_of_vr_nonnegative_on_bound_orbits unit_halo_R 1%R 1%R 1%R 0%nat
              [0.5%R; 0.9%R] (mkWorld {[0%nat := [0.5%R; 0.9%R]]} (fun _ => 0.5%R) 0 []))
    as (vals & w' & Hrun & _ & Hpos).
  - simpl. lra.
  - lra.
  - lra.
  - lra.
  - reflexivity.
  - assert (Hpot : Hernquist.potential (Hernquist.init_parameters unit_halo_R 1%R 1%R) 1%R
                   = (- (1 / 2))%R).
    { unfold Hernquist.potential, Hernquist.init_parameters.
      cbn [Hernquist.a Hernquist.G Hernquist.M Hernquist.set_model unit_halo_R
           fneg fadd fmul fdiv R_scalar].
      field. }
    assert (Hphi : Hernquist.phi_of_0 (Hernquist.init_parameters unit_halo_R 1%R 1%R)
                   = (-1)%R).
    { unfold Hernquist.init_parameters.
      cbn [Hernquist.phi_of_0 Hernquist.set_model Hernquist.G unit_halo_R
           fneg fmul fdiv R_scalar].
      field. }
    rewrite Hpot, Hphi. repeat constructor; lra.
  - exists vals, w'. auto.
Defined.
(** ** The sign of the density of states *)

Section DensityOfStates.
Import Hernquist.
Open Scope R_scope.

Lemma linear_derivative (k t : R) : derivable_pt_lim (mult_real_fct k id) t (k * 1).
Proof. apply derivable_pt_lim_scal, derivable_pt_lim_id. Qed.

Lemma sin_linear_derivative (k t : R) :
  derivable_pt_lim (comp sin (mult_real_fct k id)) t (cos (k * t) * (k * 1)).
Proof.
  apply (derivable_pt_lim_comp (mult_real_fct k id) sin t (k * 1) (cos (k * t))).
  - apply linear_derivative.
  - apply derivable_pt_lim_sin.
Qed.

Lemma cos_linear_derivative (k t : R) :
  derivable_pt_lim (comp cos (mult_real_fct k id)) t (- sin (k * t) * (k * 1)).
Proof.
  apply (derivable_pt_lim_comp (mult_real_fct k id) cos t (k * 1) (- sin (k * t))).
  - apply linear_derivative.
  - apply derivable_pt_lim_cos.
Qed.

Lemma aux_K_derivative (t : R) :
  derivable_pt_lim aux_K t (cos (4 * t) - 1 + 4 * t * sin (2 * t)).
Proof.
  pose proof (derivable_pt_lim_plus _ _ t _ _ (sin_linear_derivative 2 t)
                (derivable_pt_lim_scal _ (/ 4) t _ (sin_linear_derivative 4 t))) as H1.
  pose proof (derivable_pt_lim_minus _ _ t _ _ H1 (derivable_pt_lim_id t)) as H2.
  pose proof (derivable_pt_lim_mult _ _ t _ _ (linear_derivative 2 t)
                (cos_linear_derivative 2 t)) as H3.
  pose proof (derivable_pt_lim_minus _ _ t _ _ H2 H3) as H.
  replace (cos (4 * t) - 1 + 4 * t * sin (2 * t))
    with (cos (2 * t) * (2 * 1) + / 4 * (cos (4 * t) * (4 * 1)) - 1
          - (2 * 1 * comp cos (mult_real_fct 2 id) t
             + mult_real_fct 2 id t * (- sin (2 * t) * (2 * 1))))
    by (unfold comp, mult_real_fct, id; field).
  exact H.
Qed.

Lemma angle_G_derivative (t : R) :
  derivable_pt_lim angle_G t (12 * sin (2 * t) * aux_K t).
Proof.
  pose proof (derivable_pt_lim_plus _ _ t _ _
                (derivable_pt_lim_plus _ _ t _ _ (derivable_pt_lim_const 2 t)
                   (derivable_pt_lim_scal _ 2 t _ (cos_linear_derivative 2 t)))
                (cos_linear_derivative 4 t)) as Hsum.
  pose proof (derivable_pt_lim_mult _ _ t _ _ (linear_derivative 3 t) Hsum) as H1.
  pose proof (derivable_pt_lim_scal _ (9 / 4) t _
                (derivable_pt_lim_plus _ _ t _ _ (sin_linear_derivative 2 t)
                   (sin_linear_derivative 4 t))) as H2.
  pose proof (derivable_pt_lim_scal _ (1 / 4) t _ (sin_linear_derivative 6 t)) as H3.
  pose proof (derivable_pt_lim_minus _ _ t _ _
                (derivable_pt_lim_minus _ _ t _ _ H1 H2) H3) as H.
  match type of H with derivable_pt_lim _ _ ?l =>
    replace (12 * sin (2 * t) * aux_K t) with l; [exact H|]
  end.
  clear Hsum H1 H2 H3 H.
  unfold aux_K, plus_fct, mult_fct, fct_cte, comp, mult_real_fct, id.
  replace (4 * t) with (2 * (2 * t)) by ring.
  replace (6 * t) with (2 * (2 * t) + 2 * t) by ring.
  rewrite cos_plus, (sin_2a (2 * t)), (cos_2a (2 * t)).
  pose proof (sin_cos_sq (2 * t)) as Hsc.
  generalize dependent (sin (2 * t)). intros S. generalize dependent (cos (2 * t)). intros C Hsc.
  assert (HS2 : S * S = 1 - C * C) by lra.
  match goal with |- ?l = ?r =>
    enough (Hpoly : l - r = - (6 + 3 / 2 * C) * (S * S - (1 - C * C)))
      by (rewrite HS2, Rminus_diag, Rmult_0_r in Hpoly; lra)
  end.
  field.
Qed.

Lemma aux_K_nonneg (x : R) : 0 <= x <= PI / 2 -> 0 <= aux_K x.
Proof.
  intros [Hx0 Hx1].
  pose proof PI_RGT_0 as Hpi.
  destruct (Req_dec x 0) as [->|Hne].
  { unfold aux_K. rewrite !Rmult_0_r, sin_0. lra. }
  set (pr := fun t => exist (fun l => derivable_pt_abs aux_K t l) _ (aux_K_derivative t)
             : derivable_pt aux_K t).
  assert (H0 : aux_K 0 = 0) by (unfold aux_K; rewrite !Rmult_0_r, sin_0; lra).
  rewrite <- H0.
  apply (derive_increasing_interv_var 0 (PI / 2) aux_K pr); try lra.
  intros t [Ht0 Ht1]. unfold pr, derive_pt. simpl.
  replace (4 * t) with (2 * (2 * t)) by ring. rewrite cos_2a_sin.
  assert (Hs : 0 < sin (2 * t)) by (apply sin_gt_0; lra).
  assert (Hlt : sin (2 * t) < 2 * t) by (apply sin_lt_x; lra).
  nra.
Qed.

Lemma angle_G_nonneg (x : R) : 0 <= x <= PI / 2 -> 0 <= angle_G x.
Proof.
  intros [Hx0 Hx1].
  pose proof PI_RGT_0 as Hpi.
  assert (H0 : angle_G 0 = 0).
  { unfold angle_G. rewrite !Rmult_0_r, sin_0, cos_0. lra. }
  destruct (Req_dec x 0) as [->|Hne]; [lra|].
  set (pr := fun t => exist (fun l => derivable_pt_abs angle_G t l) _ (angle_G_derivative t)
             : derivable_pt angle_G t).
  rewrite <- H0.
  apply (derive_increasing_interv_var 0 (PI / 2) angle_G pr); try lra.
  intros t [Ht0 Ht1]. unfold pr, derive_pt. simpl.
  assert (Hs : 0 < sin (2 * t)) by (apply sin_gt_0; lra).
  pose proof (aux_K_nonneg t ltac:(lra)) as HK.
  apply Rmult_le_pos; [lra|exact HK].
Qed.

(** The bracket of equation 23 is [angle_G] of the angle [acos q]. *)
Lemma Gnum_angle (q : R) : -1 <= q <= 1 -> Gnum q = angle_G (acos q).
Proof.
  intros Hq. set (x := acos q).
  assert (Hc : cos x = q) by (apply cos_acos; exact Hq).
  assert (Hs : sin x = sqrt (1 - q * q)).
  { unfold x. rewrite sin_acos by exact Hq. unfold Rsqr. reflexivity. }
  pose proof (Gnum_cos x) as H. cbv zeta in H. rewrite Hs, Hc in H.
  unfold Gnum, angle_G. fold x. rewrite <- H. ring.
Qed.

Lemma Gnum_nonneg (q : R) : 0 <= q <= 1 -> 0 <= Gnum q.
Proof.
  intros [Hq0 Hq1]. rewrite Gnum_angle by lra. apply angle_G_nonneg.
  pose proof (acos_bound q) as [Hlo Hhi]. split; [exact Hlo|].
  destruct (Rle_dec (acos q) (PI / 2)) as [Hx|Hx]; [exact Hx|exfalso].
  pose proof PI_RGT_0 as Hpi.
  assert (Hneg : cos (acos q) < 0) by (apply cos_lt_0; lra).
  rewrite cos_acos in Hneg by lra. lra.
Qed.

(** [g_of_q] as the bracket times the power and the prefactor. *)
Lemma g_of_q_Gnum (self : Hernquist.t R) (q : R) :
  g_of_q self q = Gnum q * Rpower q (-5) * g_prefactor self.
Proof.
  unfold g_of_q, Gnum.
  cbn [lit fadd fsub fmul fsqrt np_arccos np_power R_scalar R_libm].
  rewrite !Q2R_Z. reflexivity.
Qed.

Lemma g_prefactor_positive (self0 : Hernquist.t R) (M0 a0 : R) :
  0 < g_prefactor (init_parameters self0 M0 a0).
Proof.
  assert (Hs : 0 < sqrt 2) by (apply sqrt_lt_R0; lra).
  unfold init_parameters.
  cbn [g_prefactor set_model lit fmul fdiv fsqrt np_power np_pi R_scalar R_libm].
  rewrite !Q2R_Z. apply Rdiv_lt_0_compat; [|lra].
  apply Rmult_lt_0_compat; [|apply Rpower_pos].
  apply Rmult_lt_0_compat; [|apply Rpower_pos].
  apply Rmult_lt_0_compat; [|apply Rpower_pos].
  apply Rmult_lt_0_compat; [lra|exact Hs].
Qed.

Lemma g_of_q_nonneg (self0 : Hernquist.t R) (M0 a0 q : R) :
  0 <= q <= 1 -> 0 <= g_of_q (init_parameters self0 M0 a0) q.
Proof.
  intros Hq. rewrite g_of_q_Gnum.
  apply Rmult_le_pos; [|left; apply g_prefactor_positive].
  apply Rmult_le_pos; [apply Gnum_nonneg; exact Hq|].
  left. apply Rpower_pos.
Qed.

(** The prefactor of the density of states on a model built from a
    positive scale length, with the powers as products. *)
Lemma g_prefactor_R (self0 : Hernquist.t R) (M0 a0 : R) :
  0 < a0 ->
  let self := init_parameters self0 M0 a0 in
  g_prefactor self = 2 * sqrt 2 * PI ^ 2 * a0 ^ 3 * vg self / 3.
Proof.
  intros Ha self. pose proof PI_RGT_0 as Hpi.
  unfold self, init_parameters.
  cbn [g_prefactor vg set_model lit fmul fdiv fsqrt np_power np_pi R_scalar R_libm].
  rewrite !Q2R_Z. rewrite Rpower_3 by exact Ha. rewrite Rpower_2 by exact Hpi.
  reflexivity.
Qed.

(** X21.  On a model built by [__init__] from positive [G], [M] and [a],
    over the real numbers: the prefactor of the density of states is the
    positive number [2 sqrt 2 PI^2 a^3 vg / 3], [g_of_q] is not negative
    at any [q] with [0 < q <= 1 - 1e-4], and it is 0 at [q = 1].  (Above
    [1 - 1e-4] the bracket of equation 23 is the difference of two nearly
    equal numbers, and [dMdE] replaces the product by a series.) *)
Theorem g_of_q_nonnegative (self0 : Hernquist.t R) (M0 a0 q : R) :
  0 < G self0 -> 0 < M0 -> 0 < a0 -> 0 < q <= 1 - 1e-4 ->
  let self := init_parameters self0 M0 a0 in
  g_prefactor self = 2 * sqrt 2 * PI ^ 2 * a0 ^ 3 * vg self / 3
  /\ 0 < g_prefactor self
  /\ 0 <= g_of_q self q
  /\ g_of_q self 1 = 0.
Proof.
  intros HG HM Ha Hq self.
  split; [apply g_prefactor_R; exact Ha|].
  split; [apply g_prefactor_positive|]. split.
  - apply g_of_q_nonneg. lra.
  - rewrite g_of_q_Gnum. unfold Gnum. rewrite acos_1.
    replace (1 - 1 * 1) with 0 by ring. rewrite sqrt_0. ring.
Qed.

(** X22.  On a model built by [__init__] from positive [G], [M] and [a],
    over the real numbers: [dMdE] returns one value for each energy, and
    for energies between the central potential [phi_of_0] and 0 (bound
    energies, [q] in \[0, 1\]) none of the values is negative, in the
    ranges of the two series as well as where the product [f g] is
    used; the same holds when the argument already is an array of [q] in
    \[0, 1\]. *)
Theorem dMdE_nonnegative (self0 : Hernquist.t R) (M0 a0 : R) (E : list R)
    (convert_to_q : bool) :
  0 < G self0 -> 0 < M0 -> 0 < a0 ->
  let self := init_parameters self0 M0 a0 in
  Forall (fun e => if convert_to_q then phi_of_0 self <= e <= 0 else 0 <= e <= 1) E ->
  length (dMdE self E convert_to_q) = length E
  /\ Forall (fun y => 0 <= y) (dMdE self E convert_to_q).
Proof.
  intros HG HM Ha self HE.
  pose proof (vg_positive self0 M0 a0) as Hvg. fold self in Hvg.
  assert (HK : 0 < M0 / vg self ^ 2).
  { apply Rdiv_lt_0_compat; [exact HM|apply pow_lt; exact Hvg]. }
  assert (Hphi : phi_of_0 self < 0).
  { unfold self, init_parameters. cbn [phi_of_0 set_model fneg fmul fdiv R_scalar].
    assert (0 < G self0 * M0 / a0) by (apply Rdiv_lt_0_compat; [nra|exact Ha]).
    replace (- G self0 * M0 / a0) with (- (G self0 * M0 / a0)) by (field; lra). lra. }
  assert (Hpoint : forall q, 0 <= q <= 1 -> 0 <= dMdE_of_q self q).
  { intros q [Hq0 Hq1]. unfold dMdE_of_q. cbn [fltb fsub fmul lit R_scalar].
    replace (Q2R 1e-3) with 1e-3 by (Q2R_value 1e-3%Q; lra).
    replace (Q2R 1e-4) with 1e-4 by (Q2R_value 1e-4%Q; lra).
    rewrite Q2R_Z.
    unfold Rltb. destruct (Rlt_dec q 1e-3) as [Hlo|Hlo]; [|destruct (Rlt_dec (1 - q) 1e-4)].
    - unfold self. rewrite close_to_0_R. fold self.
      apply Rmult_le_pos; [nra|]. nra.
    - unfold self. rewrite close_to_1_R. fold self.
      apply Rmult_le_pos; [nra|]. nra.
    - apply Rmult_le_pos.
      + apply f_of_q_nonneg; [|lra]. left. apply f_prefactor_positive. exact HM.
      + apply g_of_q_nonneg. lra. }
  rewrite dMdE_pointwise. split.
  - destruct convert_to_q; rewrite !length_map; reflexivity.
  - apply Forall_fmap. destruct convert_to_q.
    + apply Forall_fmap. eapply Forall_impl; [exact HE|].
      intros e [He0 He1]. simpl. apply Hpoint.
      unfold q_of_E. cbn [fsqrt fdiv R_scalar].
      assert (Hratio : 0 <= e / phi_of_0 self <= 1).
      { replace (e / phi_of_0 self) with (- e * / - phi_of_0 self) by (field; lra).
        assert (Hinv : 0 < / - phi_of_0 self) by (apply Rinv_0_lt_compat; lra).
        split; [apply Rmult_le_pos; lra|].
        apply Rmult_le_reg_r with (- phi_of_0 self); [lra|].
        rewrite Rmult_assoc, Rinv_l by lra. lra. }
      split; [apply sqrt_pos|].
      rewrite <- sqrt_1. apply sqrt_le_1_alt. apply Hratio.
    + eapply Forall_impl; [exact HE|]. intros q Hq. simpl. apply Hpoint. exact Hq.
Qed.

End DensityOfStates.

(** [g_of_q_nonnegative] on the unit halo at [q = 0.5]. *)
Lemma g_of_q_nonnegative_witness :
  (0 <= Hernquist.g_of_q (Hernquist.init_parameters unit_halo_R 1%R 1%R) 0.5%R)%R.
Proof.
  destruct (g_of_q_nonnegative unit_halo_R 1%R 1%R 0.5%R) as (_ & _ & H & _).
  - simpl. lra.
  - lra.
  - lra.
  - lra.
  - exact H.
Defined.

(** [dMdE_nonnegative] on the unit halo, whose central potential is -1:
    three bound energies, one for each branch of [dMdE]. *)
Lemma dMdE_nonnegative_witness :
  Forall (fun y => (0 <= y)%R)
    (Hernquist.dMdE (Hernquist.init_parameters unit_halo_R 1%R 1%R)
       [(-1)%R; (-0.25)%R; 0%R] true).
Proof.
  destruct (dMdE_nonnegative unit_halo_R 1%R 1%R [(-1)%R; (-0.25)%R; 0%R] true)
    as [_ H].
  - simpl. lra.
  - lra.
  - lra.
  - assert (Hphi : Hernquist.phi_of_0 (Hernquist.init_parameters unit_halo_R 1%R 1%R)
                   = (-1)%R).
    { unfold Hernquist.init_parameters.
      cbn [Hernquist.phi_of_0 Hernquist.set_model Hernquist.G unit_halo_R
           fneg fmul fdiv R_scalar].
      field. }
    rewrite Hphi. repeat constructor; lra.
  - exact H.
Defined.
(** ** The Gaussian sampler over the reals *)

Section ArrayLengths.
Context {F : Type} `{!Scalar F} `{!Libm F}.
Import Hernquist.

Lemma assign_at_length (keys : list nat) (v : F) (x : list F) :
  length (assign_at keys v x) = length x.
Proof.
  unfold assign_at. revert x. induction keys as [|k keys IH]; intros x; [reflexivity|].
  simpl. rewrite IH. apply length_insert.
Qed.

Lemma assign_array_at_length (keys : list nat) (vals x : list F) :
  length (assign_array_at keys vals x) = length x.
Proof.
  unfold assign_array_at. generalize (zip keys vals). intros kv. revert x.
  induction kv as [|[k v] kv IH]; intros x; [reflexivity|].
  simpl. rewrite IH. apply length_insert.
Qed.

(** [_sigmasq_] returns as many values as it is given radii. *)
Lemma sigmasq_length (self : Hernquist.t F) (r s : list F) :
  _sigmasq_ self r = Returns s -> length s = length r.
Proof.
  unfold _sigmasq_. cbn [fold_left]. unfold nan_guard.
  set (ans1 := map (sigmasq_closed_form self) (map (fun x => (x / a self)%S) r)).
  assert (Hans : length ans1 = length r) by (unfold ans1; rewrite !length_map; reflexivity).
  destruct (array_bool _) as [[|]| |]; try discriminate.
  - destruct (array_bool _) as [[|]| |]; try discriminate;
      intros H; inversion H; subst; clear H;
      rewrite assign_array_at_length, ?assign_at_length; exact Hans.
  - intros H; inversion H; subst; clear H.
    rewrite assign_array_at_length. exact Hans.
Qed.

Lemma where_from_In (mask : list bool) :
  forall n j, mask !! j = Some true -> In (n + j)%nat (where_from n mask).
Proof.
  induction mask as [|b mask IH]; intros n j Hj; [discriminate|].
  destruct j as [|j]; simpl in Hj.
  - inversion Hj; subst. simpl. left. lia.
  - simpl. specialize (IH (S n) j Hj). replace (n + S j)%nat with (S n + j)%nat by lia.
    destruct b; [right|]; exact IH.
Qed.

End ArrayLengths.

Section OldVelocitiesR.
Import Hernquist.
Open Scope R_scope.

(** The redraw loop ends either without a pass, when the speed already is
    within the cap, or with a triple that is within it. *)
Lemma redraw_spec (normals : nat -> R) (m s e : R) :
  forall fuel vmagsq last p l' p',
    redraw fuel normals m s e vmagsq last p = Returns (l', p') ->
    (0.95 * e < vmagsq
     /\ exists a b c, l' = Some (a, b, c) /\ a * a + b * b + c * c <= 0.95 * e)
    \/ (vmagsq <= 0.95 * e /\ l' = last).
Proof.
  induction fuel as [|fuel IH]; intros vmagsq last p l' p'; simpl;
    cbn [fltb fmul fadd lit R_scalar]; unfold Rltb;
    destruct (Rlt_dec (0.95 * e) vmagsq) as [Hgt|Hle]; try discriminate.
  - intros H. inversion H; subst. right. split; [lra|reflexivity].
  - intros H. apply IH in H. left. split; [exact Hgt|].
    destruct H as [(_ & a & b & c & Hl & Hcap)|[Hle Hl]].
    + exists a, b, c. auto.
    + eexists _, _, _. split; [exact Hl|exact Hle].
  - intros H. inversion H; subst. right. split; [lra|reflexivity].
Qed.

(** The loop over the indices to redraw brings each of them within the
    cap and leaves the other velocities as they are. *)
Lemma redraw_each_spec (fuel : nat) (normals : nat -> R) (mean sigma vesc_sq : list R) :
  (forall j e, vesc_sq !! j = Some e -> 0 < e) ->
  forall keys vr vphi vtheta last p vr' vphi' vtheta' p',
    redraw_each fuel normals mean sigma vesc_sq keys vr vphi vtheta last p
    = Returns (vr', vphi', vtheta', p') ->
    length vr' = length vr /\ length vphi' = length vphi /\ length vtheta' = length vtheta
    /\ forall j, In j keys \/ within_cap vesc_sq vr vphi vtheta j ->
                 within_cap vesc_sq vr' vphi' vtheta' j.
Proof.
  intros Hpos. induction keys as [|i rest IH];
    intros vr vphi vtheta last p vr' vphi' vtheta' p' Hrun.
  - inversion Hrun; subst. repeat split; try reflexivity.
    intros j [[]|Hj]. exact Hj.
  - simpl in Hrun.
    destruct (vesc_sq !! i) as [e|] eqn:He; [|discriminate].
    destruct (mean !! i) as [m|]; [|discriminate].
    destruct (sigma !! i) as [s|]; [|discriminate].
    destruct (redraw fuel normals m s e e last p) as [[[[[a b] c]|] p1]| |] eqn:Hredraw;
      try discriminate.
    apply redraw_spec in Hredraw.
    assert (Hcap : a * a + b * b + c * c <= 0.95 * e).
    { pose proof (Hpos i e He) as He0.
      destruct Hredraw as [(_ & a' & b' & c' & Hl & Hcap)|[Hle _]]; [|lra].
      inversion Hl; subst. exact Hcap. }
    apply IH in Hrun. destruct Hrun as (Hl1 & Hl2 & Hl3 & Hinv).
    rewrite length_insert in Hl1, Hl2, Hl3.
    split; [exact Hl1|]. split; [exact Hl2|]. split; [exact Hl3|].
    intros j Hj. apply Hinv.
    destruct (Nat.eq_dec j i) as [->|Hne].
    + right. intros e' a' b' c' He' Ha' Hb' Hc'.
      apply list_lookup_insert_Some in Ha', Hb', Hc'.
      destruct Ha' as [(_ & <- & _)|[Hn _]]; [|contradiction].
      destruct Hb' as [(_ & <- & _)|[Hn _]]; [|contradiction].
      destruct Hc' as [(_ & <- & _)|[Hn _]]; [|contradiction].
      rewrite He in He'. inversion He'; subst. exact Hcap.
    + destruct Hj as [[Heq|Hin]|Hok]; [congruence|left; exact Hin|right].
      intros e' a' b' c' He' Ha' Hb' Hc'.
      rewrite list_lookup_insert_ne in Ha', Hb', Hc' by congruence.
      exact (Hok e' a' b' c' He' Ha' Hb' Hc').
Qed.

Lemma np_random_normal_length (normals : nat -> R) (p : nat) (loc scale : list R) :
  length scale = length loc -> length (np_random_normal normals p loc scale) = length loc.
Proof.
  intros H. unfold np_random_normal.
  rewrite length_zip_with, length_zip_with, length_map, length_seq. lia.
Qed.

(** X23.  [old_draw_velocities] over the real numbers, on a model with
    positive [G], [M] and [a]: when it returns, it returns one velocity
    for each position, and the square of each velocity is at most 0.95
    times the squared escape speed of [_vesc_sq_] at the distance of its
    position from the origin, whether the velocity comes from the first
    draw or from the redraw loop. *)
Theorem old_draw_velocities_within_cap (fuel : nat) (self : Hernquist.t R)
    (normals : nat -> R) (p p' : nat) (pos vel : list (R * R * R)) :
  0 < G self -> 0 < M self -> 0 < a self ->
  old_draw_velocities fuel self normals p pos = Returns (vel, p') ->
  length vel = length pos
  /\ Forall2 (fun r_i v => let '(vx, vy, vz) := v in
                           vx * vx + vy * vy + vz * vz <= 0.95 * _vesc_sq_ self r_i)
             (np_linalg_norm pos) vel.
Proof.
  intros HG HM Ha Hrun. unfold old_draw_velocities in Hrun.
  set (r := np_linalg_norm pos) in *.
  assert (Hr : length r = length pos) by (unfold r, np_linalg_norm; apply length_map).
  assert (Hr0 : forall j x, r !! j = Some x -> 0 <= x).
  { intros j x Hj. unfold r, np_linalg_norm in Hj. rewrite list_lookup_fmap in Hj.
    destruct (pos !! j) as [[[px py] pz]|]; [|discriminate].
    simpl in Hj. inversion Hj; subst. apply sqrt_pos. }
  destruct (_sigmasq_ self r) as [sigmasq| |] eqn:Hsig; try discriminate.
  apply sigmasq_length in Hsig.
  set (N := length r) in *.
  set (mean := replicate N (lit 0)) in *.
  set (sigma := map fsqrt sigmasq) in *.
  assert (Hmean : length mean = N) by (unfold mean; apply length_replicate).
  assert (Hsigma : length sigma = length mean)
    by (unfold sigma; rewrite length_map, Hmean; exact Hsig).
  set (vr := np_random_normal normals p mean sigma) in *.
  set (vphi := np_random_normal normals (p + N) mean sigma) in *.
  set (vtheta := np_random_normal normals (p + N + N) mean sigma) in *.
  assert (Hvr : length vr = N) by (unfold vr; rewrite np_random_normal_length; assumption).
  assert (Hvphi : length vphi = N)
    by (unfold vphi; rewrite np_random_normal_length; assumption).
  assert (Hvtheta : length vtheta = N)
    by (unfold vtheta; rewrite np_random_normal_length; assumption).
  set (vesc_sq := map (_vesc_sq_ self) r) in *.
  assert (Hvesc : forall j e, vesc_sq !! j = Some e -> 0 < e).
  { intros j e Hj. unfold vesc_sq in Hj. rewrite list_lookup_fmap in Hj.
    destruct (r !! j) as [x|] eqn:Hx; [|discriminate]. simpl in Hj. inversion Hj; subst.
    pose proof (Hr0 j x Hx) as Hx0.
    unfold _vesc_sq_. cbn [lit fadd fmul fdiv R_scalar]. rewrite !Q2R_Z.
    apply Rdiv_lt_0_compat; [nra|lra]. }
  match type of Hrun with context [redraw_each _ _ _ _ _ ?k _ _ _ _ _] => set (keys := k) in * end.
  destruct (redraw_each fuel normals mean sigma vesc_sq keys vr vphi vtheta None
              (p + N + N + N)) as [[[[vr' vphi'] vtheta'] p1]| |] eqn:Heach; try discriminate.
  inversion Hrun; subst vel p'; clear Hrun.
  destruct (redraw_each_spec fuel normals mean sigma vesc_sq Hvesc _ _ _ _ _ _ _ _ _ _ Heach)
    as (Hl1 & Hl2 & Hl3 & Hinv).
  assert (Hall : forall j, within_cap vesc_sq vr' vphi' vtheta' j).
  { intros j. apply Hinv.
    destruct (vesc_sq !! j) as [e|] eqn:He;
      [|right; intros e' a' b' c' He'; congruence].
    destruct (vr !! j) as [a'|] eqn:Ha';
      [|right; intros e' a'' b' c' _ Ha''; congruence].
    destruct (vphi !! j) as [b'|] eqn:Hb';
      [|right; intros e' a'' b'' c' _ _ Hb''; congruence].
    destruct (vtheta !! j) as [c'|] eqn:Hc';
      [|right; intros e' a'' b'' c'' _ _ _ Hc''; congruence].
    destruct (Rlt_dec (0.95 * e) (a' * a' + b' * b' + c' * c')) as [Hgt|Hle].
    - left. unfold keys, np_where.
      apply (where_from_In _ 0%nat j).
      rewrite lookup_zip_with, lookup_zip_with, lookup_zip_with.
      rewrite !list_lookup_fmap, Ha', Hb', Hc', He. simpl.
      cbn [fltb fmul fadd lit R_scalar].
      rewrite (Rltb_true _ _ Hgt). reflexivity.
    - right. intros e0 a0 b0 c0 He0 Ha0 Hb0 Hc0.
      rewrite He in He0. rewrite Ha' in Ha0. rewrite Hb' in Hb0. rewrite Hc' in Hc0.
      inversion He0; inversion Ha0; inversion Hb0; inversion Hc0; subst. lra. }
  assert (Hlen : length (np_transpose3 vr' vphi' vtheta') = length pos).
  { unfold np_transpose3. rewrite !length_zip_with. lia. }
  split; [exact Hlen|].
  apply Forall2_same_length_lookup_2; [rewrite Hlen; exact Hr|].
  intros j x [[vx vy] vz] Hx Hv.
  unfold np_transpose3 in Hv.
  apply lookup_zip_with_Some in Hv. destruct Hv as (xy & z0 & Heq & Hxy & Hz).
  apply lookup_zip_with_Some in Hxy. destruct Hxy as (x0 & y0 & Heq' & Hx0 & Hy0).
  subst xy. inversion Heq; subst.
  eapply (Hall j (_vesc_sq_ self x)); [|eassumption|eassumption|eassumption].
  unfold vesc_sq. rewrite list_lookup_fmap, Hx. reflexivity.
Qed.

End OldVelocitiesR.

(** Over the reals no value is NaN, so the guard of [_sigmasq_] selects
    nothing and the call returns. *)
Lemma sigmasq_returns_R (self : Hernquist.t R) (r : list R) :
  exists s, Hernquist._sigmasq_ self r = Returns s.
Proof.
  unfold Hernquist._sigmasq_. cbn [fold_left]. unfold Hernquist.nan_guard.
  assert (Hnone : forall (xs : list R) n, where_from n (map (@fisnan R _) xs) = []).
  { induction xs as [|x xs IH]; intros n; [reflexivity|]. simpl. apply IH. }
  unfold np_where at 1 2. rewrite !Hnone. cbn [take_at omap list_omap map array_bool].
  eexists. reflexivity.
Qed.

(** [old_draw_velocities_within_cap] for one particle at the position
    (1, 0, 0) of the unit halo, with standard normal variates that are all
    0: the first draw is the velocity 0 and nothing is redrawn. *)
Lemma old_draw_velocities_within_cap_witness :
  exists vel p',
    Hernquist.old_draw_velocities 1 unit_halo_R (fun _ => 0%R) 0 [(1, 0, 0)%R]
    = Returns (vel, p')
    /\ Forall2 (fun r_i v => let '(vx, vy, vz) := v in
                             (vx * vx + vy * vy + vz * vz
                              <= 0.95 * Hernquist._vesc_sq_ unit_halo_R r_i)%R)
               (Hernquist.np_linalg_norm [(1, 0, 0)%R]) vel.
Proof.
  assert (Hrun : exists vel p',
            Hernquist.old_draw_velocities 1 unit_halo_R (fun _ => 0%R) 0 [(1, 0, 0)%R]
            = Returns (vel, p')).
  { unfold Hernquist.old_draw_velocities.
    destruct (sigmasq_returns_R unit_halo_R (Hernquist.np_linalg_norm [(1, 0, 0)%R]))
      as [s Hs].
    rewrite Hs. pose proof (sigmasq_length _ _ _ Hs) as Hlen.
    destruct s as [|s0 [|s1 s]]; try discriminate Hlen.
    unfold Hernquist.np_random_normal, Hernquist.np_linalg_norm.
    cbn [length map replicate zip zip_with seq fst snd fsqrt fltb fadd fmul lit R_scalar].
    set (rad := sqrt (1 * 1 + 0 * 0 + 0 * 0)%R).
    assert (Hrad : (0 <= rad)%R) by (unfold rad; apply sqrt_pos).
    assert (Hvesc : (0 < Hernquist._vesc_sq_ unit_halo_R rad)%R).
    { unfold Hernquist._vesc_sq_.
      cbn [Hernquist.a Hernquist.G Hernquist.M unit_halo_R lit fadd fmul fdiv R_scalar].
      rewrite !Q2R_Z. apply Rdiv_lt_0_compat; lra. }
    set (v := (Q2R 0 + sqrt s0 * 0)%R).
    assert (Hv : v = 0%R) by (unfold v; rewrite Q2R_Z; ring).
    rewrite (Rltb_false (Q2R 0.95 * Hernquist._vesc_sq_ unit_halo_R rad) (v * v + v * v + v * v))
      by (rewrite Hv; lra).
    cbn [np_where where_from Hernquist.redraw_each]. eexists _, _. reflexivity. }
  destruct Hrun as (vel & p' & Hrun). exists vel, p'. split; [exact Hrun|].
  destruct (old_draw_velocities_within_cap 1 unit_halo_R (fun _ => 0%R) 0 p'
              [(1, 0, 0)%R] vel) as [_ HF].
  - simpl. lra.
  - simpl. lra.
  - simpl. lra.
  - exact Hrun.
  - exact HF.
Defined.
(** ** Runs of the energy and speed samplers over the reals *)

Section RoundOnEnergies.
Context {F : Type} `{!Scalar F} `{!Libm F}.
Import Hernquist.

(** The first part of a round of [draw_energies]: the candidates, the
    thresholds, and [f_of_E] called on the candidate array, which it
    clamps in place. *)
Lemma draw_and_evaluate_f_of_E (self : Hernquist.t F) (xwidth maxval : F) (w : world F) :
  let x := fresh (dom (heap w)) in
  let xs := map (fun v => v * xwidth)%S (uniforms w (rng_pos w)) in
  draw_and_evaluate (fun x (_ : unit) => f_of_E self x) tt xwidth maxval w
  = Returns ((x, map (fun v => v * maxval)%S (uniforms w (rng_pos w + 10)),
              map (fun e => f_of_q self (q_of_E self (clamp_energy e))) xs),
             mkWorld (<[x := map clamp_energy xs]>
                        (<[x := xs]> (<[x := uniforms w (rng_pos w)]> (heap w))))
                     (rng_stream w) (rng_pos w + 10 + 10) (stdout w ++ anomaly_report xs)).
Proof.
  intros x xs. unfold draw_and_evaluate, mbind, Py_bind, bind.
  rewrite draw_candidates_spec. cbv zeta. fold x. fold xs.
  rewrite (f_of_E_spec self x _ xs) by (simpl; apply lookup_insert_eq).
  reflexivity.
Qed.

End RoundOnEnergies.

Section RunsR.
Import Hernquist.
Open Scope R_scope.

(** [np.nanmax] over the reals is an upper bound of its array. *)
Lemma fold_np_fmax_upper (l : list R) (a : R) :
  a <= fold_left np_fmax l a /\ Forall (fun v => v <= fold_left np_fmax l a) l.
Proof.
  revert a. induction l as [|b l IH]; intros a; simpl.
  - split; [lra|constructor].
  - destruct (IH (np_fmax a b)) as [Hm Hall].
    assert (Hab : a <= np_fmax a b /\ b <= np_fmax a b).
    { unfold np_fmax. cbn [fleb fisnan R_scalar]. rewrite orb_false_r.
      unfold Rleb. destruct (Rle_dec b a); lra. }
    split; [lra|]. constructor; [lra|exact Hall].
Qed.

Lemma np_nanmax_upper (l : list R) (m v : R) (k : nat) :
  np_nanmax l = Some m -> l !! k = Some v -> v <= m.
Proof.
  destruct l as [|a l]; [discriminate|]. simpl. intros Hm Hk. inversion Hm; subst m.
  destruct (fold_np_fmax_upper l a) as [Ha Hall].
  destruct k as [|k]; simpl in Hk.
  - inversion Hk; subst. exact Ha.
  - rewrite Forall_forall in Hall. apply Hall. eapply list_elem_of_lookup_2. exact Hk.
Qed.

(** An inner point of a grid of [np.linspace] with a positive step. *)
Lemma np_linspace_lookup_R (start stop : R) (num k : nat) :
  start < stop -> (k < num - 1)%nat ->
  np_linspace start stop num !! k
  = Some (INR k * ((stop - start) / INR (num - 1)) + start).
Proof.
  intros Hlt Hk.
  assert (Hlit : forall n : nat, lit (inject_Z (Z.of_nat n)) = INR n).
  { intros n. cbn [lit R_scalar]. unfold inject_Z. rewrite Q2R_Z, INR_IZR_INZ. reflexivity. }
  assert (Hdiv : 0 < INR (num - 1)) by (apply lt_0_INR; lia).
  assert (Hstep : 0 < (stop - start) / INR (num - 1)) by (apply Rdiv_lt_0_compat; lra).
  unfold np_linspace. rewrite !Hlit.
  cbn [fsub fdiv fltb fisnan fmul fadd R_scalar].
  replace (lit 0) with 0 by (cbn [lit R_scalar]; Q2R_value 0%Q; lra).
  rewrite (Rltb_true 0 _ Hstep). cbn [negb andb].
  destruct (decide (1 < num)%nat) as [_|Hn]; [|lia].
  rewrite list_lookup_insert_ne by lia.
  rewrite andb_false_r. cbn [andb].
  rewrite !list_lookup_fmap, lookup_seq_lt by lia. cbn [fmap option_fmap option_map].
  rewrite Hlit. reflexivity.
Qed.

(** *** [draw_energies] on the faint halo *)

Lemma faint_halo_phi : phi_of_0 faint_halo_R = - 2e-8.
Proof.
  unfold faint_halo_R, init_parameters.
  cbn [phi_of_0 set_model G unit_halo_R fneg fmul fdiv R_scalar]. lra.
Qed.

Lemma faint_halo_potential : potential faint_halo_R 1 = - 1e-8.
Proof.
  unfold potential, faint_halo_R, init_parameters.
  cbn [a G M set_model unit_halo_R fneg fadd fmul fdiv R_scalar]. lra.
Qed.

(** The value of the distribution function of the faint halo at the
    energy -1e-8, where [q = 1 / sqrt 2]. *)
Lemma faint_halo_bound :
  f_of_q faint_halo_R (q_of_E faint_halo_R (- 1e-8)) = f_of_q faint_halo_R (/ sqrt 2)
  /\ 0 < f_of_q faint_halo_R (/ sqrt 2).
Proof.
  split.
  - unfold q_of_E. cbn [fsqrt fdiv R_scalar]. rewrite faint_halo_phi.
    replace (- 1e-8 / - 2e-8) with (/ 2) by lra. rewrite sqrt_inv. reflexivity.
  - apply f_of_q_positive_R; [|apply inv_sqrt2_bounds].
    apply f_prefactor_positive. lra.
Qed.

(** At the radius 1 of the faint halo the potential is -1e-8: every
    candidate, a variate 0.5 times the width 1e-8, lies in (0, 1e-8), so
    [f_of_E] overwrites it with -1e-8; its value is the bound itself, the
    threshold is half of it, and the first round accepts.  The energy
    returned is -1e-8. *)
Lemma faint_halo_energy_run :
  exists w', draw_energies 1 faint_halo_R [1] w_half_R = Returns ([lit (-1e-8)], w').
Proof.
  destruct faint_halo_bound as [HB Hpos].
  assert (Hlit : (lit (-1e-8) : R) = - 1e-8)
    by (cbn [lit R_scalar]; Q2R_value (-1e-8)%Q; lra).
  assert (Hzero : (lit 0 : R) = 0) by (cbn [lit R_scalar]; Q2R_value 0%Q; lra).
  assert (Hclamp : clamp_energy (- 1e-8) = - 1e-8).
  { unfold clamp_energy, near_zero_positive. cbn [fltb R_scalar]. rewrite Hzero.
    rewrite (Rltb_false 0 (- 1e-8)) by lra. reflexivity. }
  assert (Hcand : clamp_energy (0.5 * (0 - - 1e-8)) = - 1e-8).
  { unfold clamp_energy, near_zero_positive. cbn [fltb R_scalar]. rewrite Hzero, Hlit.
    rewrite (Rltb_true 0 (0.5 * (0 - - 1e-8))) by lra.
    assert (H8 : (lit 1e-8 : R) = 1e-8) by (cbn [lit R_scalar]; Q2R_value 1e-8%Q; lra). rewrite H8.
    rewrite (Rltb_true (0.5 * (0 - - 1e-8)) 1e-8) by lra. reflexivity. }
  rewrite draw_energies_unfold. cbv zeta. cbn [map].
  rewrite faint_halo_potential, Hclamp, HB.
  set (B := f_of_q faint_halo_R (/ sqrt 2)) in *.
  cbn [zip zip_with for_each]. unfold mbind, Py_bind, bind.
  match goal with |- context [rejection_sample 1 ?fn B 1 ?rng ?o ?d tt ?w0] =>
    set (w1 := w0);
    assert (Hrun : rejection_sample 1 fn B 1 rng o d tt w1
                   = Returns (lit (-1e-8),
                              mkWorld (<[fresh (dom (heap w1)) := replicate 10 (- 1e-8)]>
                                         (<[fresh (dom (heap w1)) := replicate 10 (0.5 * (0 - - 1e-8))]>
                                            (<[fresh (dom (heap w1)) := replicate 10 0.5]> (heap w1))))
                                      (rng_stream w1) 20 (stdout w1)))
  end.
  { unfold rejection_sample. cbn [fst snd]. rewrite Hzero.
    eapply (rejection_loop_accepts _ tt 0 _ B w1 _ _ _ _ (replicate 10 (- 1e-8))
              (replicate 10 true) 0%nat [1; 2; 3; 4; 5; 6; 7; 8; 9]%nat).
    - rewrite draw_and_evaluate_f_of_E. cbv zeta.
      unfold uniforms. cbn [rng_stream rng_pos w1 w_half_R seq map Nat.add].
      cbn [fmul fsub R_scalar]. rewrite !Hcand, HB. fold B.
      unfold anomaly_report. cbn [existsb]. unfold anomalous. cbn [fltb R_scalar].
      assert (H2 : (lit 1e-2 : R) = 1e-2) by (cbn [lit R_scalar]; Q2R_value 1e-2%Q; lra). rewrite H2.
      rewrite (Rltb_false 1e-2 (0.5 * (0 - - 1e-8))) by lra. cbn [orb].
      rewrite app_nil_r. reflexivity.
    - unfold bound_violated, np_any. cbn [replicate map existsb fltb R_scalar].
      rewrite (Rltb_false B B) by lra. reflexivity.
    - unfold np_less. cbn [length replicate map]. cbn [zip_with fltb R_scalar].
      rewrite (Rltb_true (0.5 * B) B) by lra. reflexivity.
    - reflexivity.
    - cbn [heap]. apply lookup_insert_eq.
    - cbn [replicate lookup list_lookup]. rewrite Hlit. reflexivity. }
  rewrite Hrun. eexists. reflexivity.
Qed.

(** *** [_to_loop_over] on the unit halo *)

(** At the radius 4/5 of the unit halo, where the potential is -5/9, the
    speed 1/3 has the energy -1/2 and [q = 1 / sqrt 2]: the target there
    is a ninth of [envelope_R]. *)
Lemma unit_halo_target_at_third (x : R) :
  x = / 3 ->
  (f_of_q unit_halo_R
     (q_of_E unit_halo_R
        (clamp_energy (potential unit_halo_R (4 / 5)%R + lit 0.5 * (x * x))%S)) * (x * x))%S
  = envelope_R * / 9.
Proof.
  intros ->. unfold potential.
  cbn [a G M unit_halo_R lit fneg fadd fmul fdiv R_scalar].
  replace (- (1) * 1 / (4 / 5 + 1) + Q2R 0.5 * (/ 3 * / 3)) with (- / 2)
    by (Q2R_value 0.5%Q; field).
  assert (Hclamp : clamp_energy (- / 2) = - / 2).
  { unfold clamp_energy, near_zero_positive. cbn [fltb lit R_scalar].
    rewrite (Rltb_false (Q2R 0) (- / 2)) by (Q2R_value 0%Q; lra). reflexivity. }
  rewrite Hclamp. unfold q_of_E. cbn [phi_of_0 unit_halo_R fsqrt fdiv R_scalar].
  replace (- / 2 / -1) with (/ 2) by field.
  rewrite sqrt_inv. unfold envelope_R. field.
Qed.

(** [_to_loop_over(4/5, 1)] on the unit halo, with the generator handing
    out 1/3 ten times and then 0: the candidates are 1/3, which is the
    point of index 33 of the grid, so their target value, a ninth of
    [envelope_R], is at most the maximum over the grid and within the
    bound; the thresholds are 0, and the first round accepts the first
    candidate. *)
Lemma unit_halo_to_loop_over_run :
  exists w',
    _to_loop_over 1 unit_halo_R (4 / 5) 1 w_third = Returns ((/ 3 * (1 - lit 0))%S, w').
Proof.
  pose proof envelope_R_positive as Henv.
  assert (Hzero : (lit 0 : R) = 0) by (cbn [lit R_scalar]; Q2R_value 0%Q; lra).
  assert (Htwo : (lit 2 : R) = 2) by (cbn [lit R_scalar]; Q2R_value 2%Q; lra).
  set (T := envelope_R * / 9).
  assert (HT : 0 < T) by (unfold T; lra).
  unfold _to_loop_over, mbind, Py_bind, bind. unfold alloc at 1. cbv beta zeta.
  set (l := fresh (dom (heap w_third))).
  set (grid := np_linspace (lit 0) 1 100).
  rewrite (my_f_of_vr_spec unit_halo_R l (4 / 5) _ grid) by (simpl; apply lookup_insert_eq).
  cbv zeta.
  match goal with |- context [np_nanmax ?v] => set (vals := v) end.
  match goal with |- context [or_raise _ (np_nanmax vals) ?w0] => set (w1 := w0) end.
  assert (Hg : grid !! 33%nat = Some (/ 3)).
  { unfold grid. rewrite Hzero. rewrite np_linspace_lookup_R by (lra || lia).
    f_equal. change (100 - 1)%nat with 99%nat. rewrite !INR_IZR_INZ. simpl IZR. field. }
  assert (Hv : vals !! 33%nat = Some T).
  { unfold vals. rewrite lookup_zip_with, !list_lookup_fmap, Hg.
    cbn [fmap option_fmap option_map mbind option_bind]. f_equal.
    apply unit_halo_target_at_third. reflexivity. }
  assert (Hne : exists m, np_nanmax vals = Some m).
  { clear -Hv. clearbody vals. destruct vals as [|v0 vs]; [discriminate Hv|].
    eexists. reflexivity. }
  destruct Hne as [m Hm]. rewrite Hm.
  pose proof (np_nanmax_upper vals m T 33 Hm Hv) as Hup.
  cbn [or_raise]. unfold ret.
  assert (Hx : (/ 3 * (1 - lit 0))%S = / 3)
    by (cbn [fmul fsub R_scalar]; rewrite Hzero; field).
  eexists.
  apply (rejection_sample_accepts_first (my_f_of_vr unit_halo_R) (4 / 5) 0 (m * lit 2)%S 1
           (lit 0) 1 (lit 2) np_longdouble w1 _ T (replicate 9 T)
           (my_f_of_vr_read_only unit_halo_R)).
  - rewrite (my_f_of_vr_spec unit_halo_R _ (4 / 5) _
               (map (fun v => (v * (1 - lit 0))%S) (uniforms w1 (rng_pos w1))))
      by (simpl; apply lookup_insert_eq).
    cbv zeta. unfold uniforms.
    cbn [rng_stream rng_pos w1 w_third seq map Nat.add Nat.ltb Nat.leb zip_with].
    rewrite !(unit_halo_target_at_third _ Hx). reflexivity.
  - reflexivity.
  - unfold bound_violated, np_any. cbn [replicate map existsb fltb fmul R_scalar].
    rewrite Htwo. rewrite (Rltb_false (m * 2) T) by lra. reflexivity.
  - cbn [fltb fmul R_scalar rng_stream rng_pos w1 w_third Nat.add Nat.ltb Nat.leb].
    apply Rltb_true. lra.
Qed.

End RunsR.

(** [draw_energies_returns_clamped_variates] on a run that returns: the
    faint halo at the radius 1, with the generator handing out 0.5.  The
    energy returned is -1e-8, which [f_of_E] wrote over the candidate
    5e-9; it is the clamped value of the variate 0.5 times [0 - pot]. *)
Lemma draw_energies_returns_clamped_variates_witness :
  exists w',
    Hernquist.draw_energies 1 faint_halo_R [1%R] w_half_R = Returns ([lit (-1e-8)], w')
    /\ Forall2 (fun r_i e =>
                  exists k, (rng_pos w_half_R <= k)%nat
                    /\ e = clamp_energy
                             (rng_stream w_half_R k
                              * (lit 0 - clamp_energy (Hernquist.potential faint_halo_R r_i)))%S)
               [1%R] [lit (-1e-8)].
Proof.
  destruct faint_halo_energy_run as [w' Hrun]. exists w'. split; [exact Hrun|].
  exact (proj2 (draw_energies_returns_clamped_variates 1 faint_halo_R [1%R] w_half_R w'
                  [lit (-1e-8)] Hrun)).
Defined.

(** [to_loop_over_returns_scaled_variate] on a run that returns: the unit
    halo at the radius 4/5 with the upper end 1, the generator handing
    out 1/3 ten times and then 0.  The speed returned is the first
    variate, 1/3, times [1 - 0]. *)
Lemma to_loop_over_returns_scaled_variate_witness :
  exists w' rounds k,
    Hernquist._to_loop_over 1 unit_halo_R (4 / 5)%R 1%R w_third
    = Returns (((/ 3)%R * (1%R - lit 0))%S, w')
    /\ (rounds < 1)%nat /\ (k < 10)%nat
    /\ ((/ 3)%R * (1%R - lit 0))%S
       = (rng_stream w_third (rng_pos w_third + 20 * rounds + k)%nat * (1%R - lit 0))%S
    /\ rng_pos w' = (rng_pos w_third + 20 * (rounds + 1))%nat.
Proof.
  destruct unit_halo_to_loop_over_run as [w' Hrun].
  destruct (to_loop_over_returns_scaled_variate 1 unit_halo_R (4 / 5)%R 1%R w_third w' _ Hrun)
    as (rounds & k & Hr & Hk & Hs & _ & Hp).
  exists w', rounds, k. auto.
Defined.
